(** * GPAx: the grade-point calculator of [main.js]

    A shallow embedding of the calculator of the GPAx web page and the
    properties of its specification: the conversion formulas and the
    validity check, the two flows that react to the input fields (SGPA
    to percentage, YGPA from two semesters), and the results page.

    - Numbers.  JavaScript numbers are IEEE 754 binary64 values.  A
      finite number is modelled by its exact rational value, and every
      arithmetic operation is the exact rational result rounded to the
      nearest binary64 value, ties to even, as IEEE 754 defines it; NaN,
      the infinities and the two zeros are kept apart.
    - Strings.  The text of a field is free-form; [parseFloat], the
      conversion of a string to a number by the arithmetic operators,
      [toFixed] and the conversion of a number to a string follow
      ECMAScript.  A decimal literal is rounded once, from its exact
      value.
    - The page.  The elements that the script reads and writes are the
      fields of a record; a flow is a function from the page to a
      completion, the page after it or an exception.  The scene of
      spheres is kept as far as the flows write to it (the two variables
      of the animation and the colours); the animation loop itself, the
      camera and the menu are not part of the model. *)

From Stdlib Require Import ZArith QArith Qround Qpower Qreduction Qabs.
From Stdlib Require Import Lia Lqa Bool List String Ascii DecimalString.
From Stdlib Require Import SpecFloat.
From Stdlib Require Import DecimalN DecimalPos.
Import ListNotations.

Local Open Scope Z_scope.

(** ** Binary64 numbers *)

Module Number.

(** A JavaScript Number: NaN, the two infinities, the two zeros, or a
    non-zero finite value given by its exact rational value. *)
Inductive number : Type :=
| NaN
| Infinity (neg : bool)
| Zero (neg : bool)
| Fin (q : Q).

Definition two : Q := 2 # 1.

(** [pow2 e] is 2^e as a rational. *)
Definition pow2 (e : Z) : Q := Qpower two e.

(** [ilog2 x] is the integer [k] with [2^k <= x < 2^(k+1)], for [0 < x]. *)
Definition ilog2 (x : Q) : Z :=
  let k := Z.log2 (Qnum x) - Z.log2 (Zpos (Qden x)) in
  if Qle_bool (pow2 k) x then k else k - 1.

(** Round to the nearest integer, ties to the even one. *)
Definition rne (x : Q) : Z :=
  let f := Qfloor x in
  match Qcompare (x - inject_Z f) (1 # 2) with
  | Lt => f
  | Gt => f + 1
  | Eq => if Z.even f then f else f + 1
  end.

(** Binary64 has 53 bits of precision; the smallest exponent of a unit in
    the last place is -1074 (subnormal numbers) and values reach up to,
    but not including, 2^1024. *)
Definition prec : Z := 53.
Definition emin : Z := -1074.
Definition emax : Z := 1024.

Definition cexp (k : Z) : Z := Z.max (k - (prec - 1)) emin.

(** The binary64 value nearest to the positive rational [x], as a
    rational; it may reach 2^1024, which stands for an overflow. *)
Definition round_mag (x : Q) : Q :=
  let e := cexp (ilog2 x) in
  (inject_Z (rne (x / pow2 e)) * pow2 e)%Q.

Definition of_mag (neg : bool) (v : Q) : number :=
  if Qle_bool (pow2 emax) v then Infinity neg
  else if Qeq_bool v 0 then Zero neg
  else Fin (Qred (if neg then - v else v)).

(** [round64 zneg x]: the binary64 value of the exact result [x]; an exact
    zero takes the sign [zneg] that the operation prescribes. *)
Definition round64' (zneg : bool) (x : Q) : number :=
  match Qnum x with
  | Z0 => Zero zneg
  | Zpos _ => of_mag false (round_mag x)
  | Zneg _ => of_mag true (round_mag (- x))
  end.

Definition round64 (zneg : bool) (x : Q) : number := round64' zneg (Qred x).

(** A numeric literal of the source text. *)
Definition lit (x : Q) : number := round64 false x.

Definition is_neg (x : number) : bool :=
  match x with
  | NaN => false
  | Infinity s | Zero s => s
  | Fin q => match Qnum q with Zneg _ => true | _ => false end
  end.

(** The exact value of a finite number. *)
Definition value (x : number) : option Q :=
  match x with
  | Zero _ => Some 0%Q
  | Fin q => Some q
  | _ => None
  end.

Definition fneg (x : number) : number :=
  match x with
  | NaN => NaN
  | Infinity s => Infinity (negb s)
  | Zero s => Zero (negb s)
  | Fin q => Fin (Qred (- q))
  end.

(** [x + y] *)
Definition fadd (x y : number) : number :=
  match x, y with
  | NaN, _ | _, NaN => NaN
  | Infinity s, Infinity t => if Bool.eqb s t then Infinity s else NaN
  | Infinity s, _ => Infinity s
  | _, Infinity t => Infinity t
  | Zero s, Zero t => Zero (s && t)
  | Zero _, Fin q => Fin q
  | Fin q, Zero _ => Fin q
  | Fin p, Fin q => round64 false (p + q)
  end.

(** [x - y] *)
Definition fsub (x y : number) : number := fadd x (fneg y).

(** [x * y] *)
Definition fmul (x y : number) : number :=
  match x, y with
  | NaN, _ | _, NaN => NaN
  | Infinity _, Zero _ | Zero _, Infinity _ => NaN
  | Infinity s, _ => Infinity (xorb s (is_neg y))
  | _, Infinity t => Infinity (xorb (is_neg x) t)
  | Zero s, _ => Zero (xorb s (is_neg y))
  | _, Zero t => Zero (xorb (is_neg x) t)
  | Fin p, Fin q => round64 (xorb (is_neg x) (is_neg y)) (p * q)
  end.

(** [x / y] *)
Definition fdiv (x y : number) : number :=
  match x, y with
  | NaN, _ | _, NaN => NaN
  | Infinity _, Infinity _ | Zero _, Zero _ => NaN
  | Infinity s, _ => Infinity (xorb s (is_neg y))
  | _, Infinity t => Zero (xorb (is_neg x) t)
  | Zero s, _ => Zero (xorb s (is_neg y))
  | _, Zero t => Infinity (xorb (is_neg x) t)
  | Fin p, Fin q => round64 (xorb (is_neg x) (is_neg y)) (p / q)
  end.

(** [x % y]: the remainder of the truncating division, computed exactly;
    it takes the sign of the dividend. *)
Definition Qtrunc (x : Q) : Z :=
  if Qle_bool 0 x then Qfloor x else Qceiling x.

Definition frem (x y : number) : number :=
  match x, y with
  | NaN, _ | _, NaN => NaN
  | Infinity _, _ | _, Zero _ => NaN
  | _, Infinity _ => x
  | Zero _, _ => x
  | Fin p, Fin q => round64 (is_neg x) (p - q * inject_Z (Qtrunc (p / q)))
  end.

(** Comparison of two numbers; [None] when one of them is NaN. *)
Definition compare (x y : number) : option comparison :=
  match x, y with
  | NaN, _ | _, NaN => None
  | Infinity s, Infinity t =>
      Some (if s then if t then Eq else Lt else if t then Gt else Eq)
  | Infinity s, _ => Some (if s then Lt else Gt)
  | _, Infinity t => Some (if t then Gt else Lt)
  | Zero _, Zero _ => Some Eq
  | Zero _, Fin q => Some (Qcompare 0 q)
  | Fin p, Zero _ => Some (Qcompare p 0)
  | Fin p, Fin q => Some (Qcompare p q)
  end.

(** [x >= y] and [x <= y] *)
Definition ge (x y : number) : bool :=
  match compare x y with
  | Some Gt | Some Eq => true
  | _ => false
  end.

Definition le (x y : number) : bool :=
  match compare x y with
  | Some Lt | Some Eq => true
  | _ => false
  end.


(** [isNaN(x)] *)
Definition isNaN (x : number) : bool :=
  match x with
  | NaN => true
  | _ => false
  end.

(** [Math.min(x, y)]: NaN when an argument is NaN, and -0 is below +0. *)
Definition min (x y : number) : number :=
  match x, y with
  | NaN, _ | _, NaN => NaN
  | Zero s, Zero t => Zero (s || t)
  | _, _ => if le x y then x else y
  end.

(** The exact value of a finite number, and zero for the others. *)
Definition val (x : number) : Q :=
  match x with
  | Fin q => q
  | _ => 0
  end.

Definition finite (x : number) : bool :=
  match x with
  | Zero _ | Fin _ => true
  | _ => false
  end.

(** The number of an integer. *)
Definition of_Z (z : Z) : number := round64 false (inject_Z z).

(** The numbers that are binary64 values: a finite one other than zero is
    [m * 2^e] with less than 53 bits in [m] and [e] from -1074 to 971,
    and its rational is in lowest terms. *)
Definition binary64 (x : number) : Prop :=
  match x with
  | Fin q =>
      Qred q = q
      /\ exists m e : Z,
           (0 < Z.abs m < 2 ^ prec)%Z /\ (emin <= e <= emax - prec)%Z
           /\ (q == inject_Z m * pow2 e)%Q
  | _ => True
  end.

End Number.

(** ** The reference arithmetic

    The Standard Library specifies the operations of IEEE 754 on
    [spec_float]; the operations above are compared with them on the
    numbers of [samples]. *)

Module Reference.
Import Number.

(** The binary64 number [x], whose reduced denominator is a power of two,
    with mantissa and exponent. *)
Definition to_spec_float (x : number) : spec_float :=
  match x with
  | NaN => S754_nan
  | Infinity s => S754_infinity s
  | Zero s => S754_zero s
  | Fin q => binary_normalize 53 1024 (Qnum q) (- Z.log2 (Zpos (Qden q))) false
  end.

Definition spec_float_eqb (a b : spec_float) : bool :=
  match a, b with
  | S754_nan, S754_nan => true
  | S754_infinity s, S754_infinity t | S754_zero s, S754_zero t => Bool.eqb s t
  | S754_finite s m e, S754_finite t n f =>
      Bool.eqb s t && Pos.eqb m n && Z.eqb e f
  | _, _ => false
  end.

Definition comparison_eqb (c d : option comparison) : bool :=
  match c, d with
  | Some Eq, Some Eq | Some Lt, Some Lt | Some Gt, Some Gt | None, None => true
  | _, _ => false
  end.

Definition agrees (x y : number) : bool :=
  let a := to_spec_float x in
  let b := to_spec_float y in
  spec_float_eqb (to_spec_float (fadd x y)) (SFadd 53 1024 a b)
  && spec_float_eqb (to_spec_float (fsub x y)) (SFsub 53 1024 a b)
  && spec_float_eqb (to_spec_float (fmul x y)) (SFmul 53 1024 a b)
  && spec_float_eqb (to_spec_float (fdiv x y)) (SFdiv 53 1024 a b)
  && comparison_eqb (compare x y) (SFcompare a b).

(** The literals of the script, some of its values, and the ends of the
    range of binary64. *)
Definition samples : list number :=
  [ Zero false; Zero true; NaN; Infinity false; Infinity true;
    lit (75 # 100); lit (10 # 1); lit (5 # 1000); lit (1000 # 1);
    lit (8 # 10); lit (200 # 1); lit (2 # 1); lit (82 # 10); lit (1 # 10);
    lit (-1 # 10); lit (185 # 2); lit (1 # 3);
    Fin (Qred (pow2 (-1074)));
    lit (inject_Z (2 ^ 1024 - 2 ^ 971)) ].

End Reference.

(** ** Completions

    A JavaScript call either returns a value or throws.  The calls of
    the calculator can throw in one place only: [toFixed] raises a
    RangeError for a count of digits that it does not accept. *)

Inductive exception : Type :=
| RangeError.

Inductive completion (A : Type) : Type :=
| Normal (a : A)
| Throw (e : exception).

Arguments Normal {A} a.
Arguments Throw {A} e.

Definition bind {A B : Type} (c : completion A) (k : A -> completion B) :
  completion B :=
  match c with
  | Normal a => k a
  | Throw e => Throw e
  end.

Notation "x <- c ;; k" := (bind c (fun x => k))
  (at level 61, c at next level, right associativity).

(** ** Strings and their conversions to and from numbers

    A string is the sequence of the bytes of its UTF-8 encoding. *)

Module JSString.
Import Number.
Local Open Scope string_scope.
Local Open Scope Z_scope.

Definition code (c : ascii) : N := N_of_ascii c.

Definition digit_val (c : ascii) : option Z :=
  let n := code c in
  if ((48 <=? n) && (n <=? 57))%N then Some (Z.of_N n - 48) else None.

(** The leading decimal digits of [s]: their value on top of [acc], their
    count on top of [cnt], and what follows them. *)
Fixpoint scan_digits (s : string) (acc cnt : Z) : Z * Z * string :=
  match s with
  | String c r =>
      match digit_val c with
      | Some d => scan_digits r (10 * acc + d) (cnt + 1)
      | None => (acc, cnt, s)
      end
  | EmptyString => (acc, cnt, s)
  end.

(** White space and line terminators: TAB, LF, VT, FF, CR, SP, and in
    UTF-8 the code points U+00A0, U+1680, U+2000 to U+200A, U+2028,
    U+2029, U+202F, U+205F, U+3000 and U+FEFF. *)
Definition ws1 (c : ascii) : bool :=
  let n := code c in
  (((9 <=? n) && (n <=? 13)) || (n =? 32))%N.

Definition ws2 (c1 c2 : ascii) : bool :=
  ((code c1 =? 194) && (code c2 =? 160))%N.

Definition ws3 (c1 c2 c3 : ascii) : bool :=
  let a := code c1 in
  let b := code c2 in
  let c := code c3 in
  (((a =? 225) && (b =? 154) && (c =? 128))
   || ((a =? 226) && (b =? 128)
       && (((128 <=? c) && (c <=? 138)) || (c =? 168) || (c =? 169)
           || (c =? 175)))
   || ((a =? 226) && (b =? 129) && (c =? 159))
   || ((a =? 227) && (b =? 128) && (c =? 128))
   || ((a =? 239) && (b =? 187) && (c =? 191)))%N.

(** [TrimString(s, start)] *)
Fixpoint trim_start (s : string) : string :=
  match s with
  | String c1 r1 =>
      if ws1 c1 then trim_start r1
      else
        match r1 with
        | String c2 r2 =>
            if ws2 c1 c2 then trim_start r2
            else
              match r2 with
              | String c3 r3 => if ws3 c1 c2 c3 then trim_start r3 else s
              | EmptyString => s
              end
        | EmptyString => s
        end
  | EmptyString => s
  end.

Definition all_ws (s : string) : bool :=
  match trim_start s with
  | EmptyString => true
  | String _ _ => false
  end.

Fixpoint strip_prefix (p s : string) : option string :=
  match p, s with
  | EmptyString, _ => Some s
  | String a p', String b s' => if Ascii.eqb a b then strip_prefix p' s' else None
  | String _ _, EmptyString => None
  end.

(** A [StrDecimalLiteral]: [Infinity], or the decimal digits [mant] scaled
    by [10 ^ exp10], with its sign. *)
Inductive literal : Type :=
| LitInfinity (neg : bool)
| LitDecimal (neg : bool) (mant exp10 : Z).

Definition scan_sign (s : string) : bool * string :=
  match s with
  | String c r =>
      if Ascii.eqb c "-" then (true, r)
      else if Ascii.eqb c "+" then (false, r)
      else (false, s)
  | EmptyString => (false, s)
  end.

(** An optional [ExponentPart]; when it is incomplete nothing is read. *)
Definition scan_exponent (s : string) : Z * string :=
  match s with
  | String c r =>
      if Ascii.eqb c "e" || Ascii.eqb c "E" then
        let '(neg, r1) := scan_sign r in
        let '(v, n, r2) := scan_digits r1 0 0 in
        if n =? 0 then (0, s) else (if neg then - v else v, r2)
      else (0, s)
  | EmptyString => (0, s)
  end.

Definition scan_unsigned (neg : bool) (s : string) : option (literal * string) :=
  match strip_prefix "Infinity" s with
  | Some r => Some (LitInfinity neg, r)
  | None =>
      let '(ip, n1, r1) := scan_digits s 0 0 in
      let '(m, n2, r2) :=
        match r1 with
        | String c r =>
            if Ascii.eqb c "." then
              let '(m, n2, r2) := scan_digits r ip 0 in
              if (n1 =? 0) && (n2 =? 0) then (ip, 0, r1) else (m, n2, r2)
            else (ip, 0, r1)
        | EmptyString => (ip, 0, r1)
        end in
      if (n1 =? 0) && (n2 =? 0) then None
      else
        let '(e, r3) := scan_exponent r2 in
        Some (LitDecimal neg m (e - n2), r3)
  end.

(** The longest prefix of [s] that is a [StrDecimalLiteral], and the rest. *)
Definition scan_literal (s : string) : option (literal * string) :=
  let '(neg, r) := scan_sign s in scan_unsigned neg r.

Definition pow10 (e : Z) : Q := Qpower (10 # 1) e.

(** The number of a literal: its mathematical value, rounded. *)
Definition literal_value (l : literal) : number :=
  match l with
  | LitInfinity neg => Infinity neg
  | LitDecimal neg m e =>
      round64 neg ((if neg then - inject_Z m else inject_Z m) * pow10 e)
  end.

(** [parseFloat(s)] *)
Definition parseFloat (s : string) : number :=
  match scan_literal (trim_start s) with
  | Some (l, _) => literal_value l
  | None => NaN
  end.

(** Digits in base 2, 8 or 16, for the [NonDecimalIntegerLiteral]s. *)
Definition radix_digit (radix : Z) (c : ascii) : option Z :=
  let n := Z.of_N (code c) in
  let d :=
    if (48 <=? n) && (n <=? 57) then n - 48
    else if (97 <=? n) && (n <=? 102) then n - 87
    else if (65 <=? n) && (n <=? 70) then n - 55
    else radix in
  if d <? radix then Some d else None.

Fixpoint scan_radix (radix : Z) (s : string) (acc cnt : Z) : Z * Z * string :=
  match s with
  | String c r =>
      match radix_digit radix c with
      | Some d => scan_radix radix r (radix * acc + d) (cnt + 1)
      | None => (acc, cnt, s)
      end
  | EmptyString => (acc, cnt, s)
  end.

Definition scan_non_decimal (s : string) : option (Z * string) :=
  match s with
  | String z (String x r) =>
      let radix :=
        if Ascii.eqb x "x" || Ascii.eqb x "X" then 16
        else if Ascii.eqb x "o" || Ascii.eqb x "O" then 8
        else if Ascii.eqb x "b" || Ascii.eqb x "B" then 2
        else 0 in
      if Ascii.eqb z "0" && negb (radix =? 0) then
        let '(v, n, r') := scan_radix radix r 0 0 in
        if n =? 0 then None else Some (v, r')
      else None
  | _ => None
  end.

(** [ToNumber(s)] for a string, as the operators [-] and [*] apply it:
    the whole string, white space apart, has to be a numeric literal. *)
Definition StringToNumber (s : string) : number :=
  let t := trim_start s in
  match t with
  | EmptyString => Zero false
  | String _ _ =>
      match scan_non_decimal t with
      | Some (v, rest) => if all_ws rest then of_Z v else NaN
      | None =>
          match scan_literal t with
          | Some (l, rest) => if all_ws rest then literal_value l else NaN
          | None => NaN
          end
      end
  end.

(** A character that no numeric literal has, and that is no white space
    or part of it. *)
Fixpoint not_in (c : ascii) (p : string) : bool :=
  match p with
  | EmptyString => true
  | String a p' => negb (Ascii.eqb a c) && not_in c p'
  end.

Definition inert (c : ascii) : bool :=
  match digit_val c with
  | Some _ => false
  | None =>
      negb (ws1 c) && (code c <? 128)%N && not_in c ".eE+-Infinity"
  end.

(** *** Numbers to strings *)

(** The decimal digits of a natural number; ["0"] for zero. *)
Definition digits (n : Z) : string :=
  NilZero.string_of_uint (N.to_uint (Z.to_N n)).

Fixpoint zeros (n : nat) : string :=
  match n with
  | O => ""
  | S n' => String "0" (zeros n')
  end.

(** [ilog10 v] is the integer [n] with [10^(n-1) <= v < 10^n], for [0 < v]. *)
Definition ilog10 (v : Q) : Z :=
  let c := (ilog2 v * 30103) / 100000 in
  if Qle_bool (pow10 (c + 1)) v then c + 2
  else if Qle_bool (pow10 c) v then c + 1
  else c.

(** Whether the decimal [s * 10^e] denotes the positive number of value [v]. *)
Definition denotes (s e : Z) (v : Q) : bool :=
  match round64 false (inject_Z s * pow10 e) with
  | Fin q => Qeq_bool q v
  | _ => false
  end.

(** The shortest decimal that denotes [v]: the digits [s], their count [k]
    and the position [n] of the decimal point, so that [v] is the number
    nearest to [s * 10^(n - k)]; with [k] digits tried first, then more. *)
Fixpoint shortest (fuel : nat) (k : Z) (v : Q) (n0 : Z) : Z * Z * Z :=
  let e := n0 - k in
  let lo := Qfloor (v / pow10 e) in
  let hi := lo + 1 in
  let me := (lo, k, n0) in
  let up := if hi =? 10 ^ k then (10 ^ (k - 1), k, n0 + 1) else (hi, k, n0) in
  match fuel with
  | O => me
  | S fuel' =>
      match denotes lo e v, denotes hi e v with
      | true, false => me
      | false, true => up
      | true, true =>
          match Qcompare (v - inject_Z lo * pow10 e) (inject_Z hi * pow10 e - v) with
          | Lt => me
          | Gt => up
          | Eq => if Z.even lo then me else up
          end
      | false, false => shortest fuel' (k + 1) v n0
      end
  end.

(** [Number::toString(x)] for a positive finite value. *)
Definition toString_mag (v : Q) : string :=
  let '(s, k, n) := shortest 20 1 v (ilog10 v) in
  let ds := digits s in
  if (k <=? n) && (n <=? 21) then ds ++ zeros (Z.to_nat (n - k))
  else if (0 <? n) && (n <=? 21) then
    substring 0 (Z.to_nat n) ds ++ "."
      ++ substring (Z.to_nat n) (Z.to_nat (k - n)) ds
  else if (-6 <? n) && (n <=? 0) then "0." ++ zeros (Z.to_nat (- n)) ++ ds
  else
    let ex := (if n - 1 <? 0 then "-" else "+") ++ digits (Z.abs (n - 1)) in
    if k =? 1 then ds ++ "e" ++ ex
    else substring 0 1 ds ++ "." ++ substring 1 (Z.to_nat (k - 1)) ds
           ++ "e" ++ ex.

(** [Number::toString(x)], radix 10. *)
Definition toString (x : number) : string :=
  match x with
  | NaN => "NaN"
  | Infinity false => "Infinity"
  | Infinity true => "-Infinity"
  | Zero _ => "0"
  | Fin q => if is_neg x then "-" ++ toString_mag (- q) else toString_mag q
  end.

(** The magnitude [a], below 10^21, with [fractionDigits] decimals: the
    integer [n] for which [n / 10^fractionDigits - a] is nearest to zero,
    the larger one of two, written with the decimal point put in. *)
Definition fixed_digits (a : Q) (fractionDigits : Z) : string :=
  let f := Z.to_nat fractionDigits in
  let n := Qfloor (a * pow10 fractionDigits + (1 # 2)) in
  let m := digits n in
  let m := zeros (S f - String.length m) ++ m in
  let k := String.length m in
  substring 0 (k - f) m
    ++ (if fractionDigits =? 0 then "" else "." ++ substring (k - f) f m).

(** [x.toFixed(fractionDigits)]: a RangeError outside 0..100; the text of
    non-finite numbers and of magnitudes from 10^21 on is that of
    [toString]. *)
Definition toFixed (x : number) (fractionDigits : Z) : completion string :=
  if (fractionDigits <? 0) || (100 <? fractionDigits) then Throw RangeError
  else
    match value x with
    | None => Normal (toString x)
    | Some q =>
        let sign := if Qlt_le_dec q 0 then "-" else "" in
        let a := Qabs q in
        if Qle_bool (pow10 21) a then Normal (sign ++ toString_mag a)
        else Normal (sign ++ fixed_digits a fractionDigits)
    end.

(** Whether a text has a character other than the dash; the placeholders
    of the displays have none. *)
Fixpoint has_non_dash (s : string) : bool :=
  match s with
  | EmptyString => false
  | String c r => negb (Ascii.eqb c "-") || has_non_dash r
  end.

End JSString.

(** ** The page

    The elements of the page that the calculator reads and writes, and
    the variables of the animation. *)

Module Calculator.
Import Number JSString.
Local Open Scope string_scope.

(** The three input fields ([value]). *)
Record inputs : Type := {
  sgpaInput : string;
  sgpaOdd : string;
  sgpaEven : string
}.

(** The calculator pages: the [textContent] of the displays, and whether
    the class [show] is on an error indicator. *)
Record displays : Type := {
  sgpaPercentage : string;
  sgpaError : bool;
  ygpaValue : string;
  ygpaPercentage : string;
  oddError : bool;
  evenError : bool
}.

(** A sphere of the scene: the hue, saturation and lightness last given
    to the colour and to the emissive colour of its material. *)
Record sphere : Type := {
  color : number * number * number;
  emissive : number * number * number
}.

(** The variables that the animation loop reads. *)
Record animation : Type := {
  rotationSpeed : number;
  scaleMultiplier : number;
  spheres : list sphere
}.

(** The results page. *)
Record results : Type := {
  result_sgpa : string;
  result_sgpa_percent : string;
  result_ygpa : string;
  result_ygpa_percent : string;
  performance_bar_width : string;
  congratulations_container : string;
  performance_text : string;
  performance_text_color : string
}.

Record page : Type := {
  fields : inputs;
  shown : displays;
  anim : animation;
  summary : results
}.

Definition sphereCount : number := lit (20 # 1).

(** 0.005 and 0.8 are not binary fractions: the literals denote the
    nearest binary64 values. *)
Definition c0_005 : Q := Eval vm_compute in val (lit (5 # 1000)).
Definition c0_8 : Q := Eval vm_compute in val (lit (8 # 10)).

(** *** Conversion formulas *)

(** [(sgpa - 0.75) * 10] *)
Definition sgpaToPercentage (sgpa : number) : number :=
  fmul (fsub sgpa (lit (75 # 100))) (lit (10 # 1)).

(** [(sgpaOdd + sgpaEven) / 2] *)
Definition calculateYGPA (sgpaOdd sgpaEven : number) : number :=
  fdiv (fadd sgpaOdd sgpaEven) (lit (2 # 1)).

(** [(ygpa - 0.75) * 10] *)
Definition ygpaToPercentage (ygpa : number) : number :=
  fmul (fsub ygpa (lit (75 # 100))) (lit (10 # 1)).

(** [!isNaN(num) && num >= 0 && num <= 10] for [num = parseFloat(value)] *)
Definition isValidGPA (value : string) : bool :=
  let num := parseFloat value in
  negb (isNaN num) && ge num (lit 0) && le num (lit (10 # 1)).

(** A string is truthy when it is not empty. *)
Definition truthy (s : string) : bool :=
  match s with
  | EmptyString => false
  | String _ _ => true
  end.

(** *** SGPA to percentage *)

Definition updateSGPACalculation (p : page) : completion page :=
  let sgpa := sgpaInput (fields p) in
  let d := shown p in
  if negb (truthy sgpa) then
    Normal {| fields := fields p;
              shown := {| sgpaPercentage := "--%";
                          sgpaError := false;
                          ygpaValue := ygpaValue d;
                          ygpaPercentage := ygpaPercentage d;
                          oddError := oddError d;
                          evenError := evenError d |};
              anim := anim p;
              summary := summary p |}
  else if negb (isValidGPA sgpa) then
    Normal {| fields := fields p;
              shown := {| sgpaPercentage := "--%";
                          sgpaError := true;
                          ygpaValue := ygpaValue d;
                          ygpaPercentage := ygpaPercentage d;
                          oddError := oddError d;
                          evenError := evenError d |};
              anim := anim p;
              summary := summary p |}
  else
    let percentage := sgpaToPercentage (parseFloat sgpa) in
    text <- toFixed percentage 2 ;;
    Normal {| fields := fields p;
              shown := {| sgpaPercentage := text ++ "%";
                          sgpaError := false;
                          ygpaValue := ygpaValue d;
                          ygpaPercentage := ygpaPercentage d;
                          oddError := oddError d;
                          evenError := evenError d |};
              anim := {| rotationSpeed :=
                           fadd (lit (5 # 1000)) (fdiv percentage (lit (1000 # 1)));
                         scaleMultiplier :=
                           fadd (lit (8 # 10)) (fdiv percentage (lit (200 # 1)));
                         spheres := spheres (anim p) |};
              summary := summary p |}.

(** *** YGPA *)

(** The colours of the spheres, from the YGPA: sphere [index] takes the
    hue [(ygpa / 10 + index / sphereCount) % 1]. *)
Fixpoint recolor (ygpa : number) (index : Z) (l : list sphere) : list sphere :=
  match l with
  | [] => []
  | _ :: l' =>
      let hue :=
        frem (fadd (fdiv ygpa (lit (10 # 1))) (fdiv (of_Z index) sphereCount))
             (lit 1) in
      {| color := (hue, lit (7 # 10), lit (6 # 10));
         emissive := (hue, lit (5 # 10), lit (3 # 10)) |}
        :: recolor ygpa (index + 1) l'
  end.

Definition updateYGPACalculation (p : page) : completion page :=
  let odd := sgpaOdd (fields p) in
  let even := sgpaEven (fields p) in
  let d := shown p in
  let oddErr := truthy odd && negb (isValidGPA odd) in
  let evenErr := truthy even && negb (isValidGPA even) in
  let hasError := oddErr || evenErr in
  if negb (truthy odd) || negb (truthy even) || hasError then
    Normal {| fields := fields p;
              shown := {| sgpaPercentage := sgpaPercentage d;
                          sgpaError := sgpaError d;
                          ygpaValue := "--";
                          ygpaPercentage := "--%";
                          oddError := oddErr;
                          evenError := evenErr |};
              anim := anim p;
              summary := summary p |}
  else
    let ygpa := calculateYGPA (parseFloat odd) (parseFloat even) in
    let percentage := ygpaToPercentage ygpa in
    ygpaText <- toFixed ygpa 2 ;;
    percentText <- toFixed percentage 2 ;;
    Normal {| fields := fields p;
              shown := {| sgpaPercentage := sgpaPercentage d;
                          sgpaError := sgpaError d;
                          ygpaValue := ygpaText;
                          ygpaPercentage := percentText ++ "%";
                          oddError := oddErr;
                          evenError := evenErr |};
              anim := {| rotationSpeed :=
                           fadd (lit (5 # 1000)) (fdiv percentage (lit (1000 # 1)));
                         scaleMultiplier :=
                           fadd (lit (8 # 10)) (fdiv percentage (lit (200 # 1)));
                         spheres := recolor ygpa 0 (spheres (anim p)) |};
              summary := summary p |}.

(** *** The results page *)

Definition dq : string := String (ascii_of_N 34) "".
Definition nl : string := String (ascii_of_N 10) "".

(** [s.split(' ')]; [cur] holds the piece being read. *)
Fixpoint split_space (s cur : string) : list string :=
  match s with
  | EmptyString => [cur]
  | String c r =>
      if Ascii.eqb c " " then cur :: split_space r ""
      else split_space r (cur ++ String c "")
  end.

Definition emoji_span (e : string) : string :=
  "<span class=" ++ dq ++ "congratulations-emoji" ++ dq ++ ">" ++ e ++ "</span>".

(** The block that [showCongratulations] writes for a message. *)
Definition congratulations (emojis message score : string) : string :=
  nl ++ "        <div class=" ++ dq ++ "congratulations" ++ dq ++ ">"
  ++ nl ++ "            <div>"
  ++ nl ++ "                " ++ String.concat "" (map emoji_span (split_space emojis ""))
  ++ nl ++ "            </div>"
  ++ nl ++ "            <h2>" ++ message ++ "</h2>"
  ++ nl ++ "            <p>Your performance score: <strong>" ++ score ++ "%</strong></p>"
  ++ nl ++ "            <p>Keep working hard to achieve your goals!</p>"
  ++ nl ++ "        </div>"
  ++ nl ++ "    ".

(** The message and the emojis of [showCongratulations], when it shows a
    block at all. *)
Definition congratulations_message (percentage : number) : option (string * string) :=
  if ge percentage (lit (90 # 1)) then
    Some ("🌟 Outstanding Performance! 🌟", "🎉 ⭐ 🏆")
  else if ge percentage (lit (80 # 1)) then
    Some ("🎊 Excellent Work! 🎊", "🎉 ✨ 👏")
  else if ge percentage (lit (70 # 1)) then
    Some ("👍 Great Job! 👍", "😊 💪 👏")
  else if ge percentage (lit (60 # 1)) then
    Some ("📈 Good Effort! Keep Improving 📈", "💫 🚀 🎯")
  else None.

(** The new [innerHTML] of the container of the congratulations. *)
Definition showCongratulations (percentage : number) : completion string :=
  match congratulations_message percentage with
  | Some (message, emojis) =>
      score <- toFixed percentage 2 ;;
      Normal (congratulations emojis message score)
  | None => Normal ""
  end.

(** The new text of the performance line and its colour. *)
Definition updatePerformanceText (percentage : number) : string * string :=
  if ge percentage (lit (90 # 1)) then
    ("⭐ Outstanding - Exceptional performance!", "#00f5ff")
  else if ge percentage (lit (80 # 1)) then
    ("✨ Excellent - Keep it up!", "#7eb3ff")
  else if ge percentage (lit (70 # 1)) then
    ("👍 Good - On the right track!", "#a8e6cf")
  else if ge percentage (lit (60 # 1)) then
    ("📈 Satisfactory - Room for improvement!", "#ffd93d")
  else
    ("💪 Keep pushing forward!", "#ff6b6b").

Definition updateResultsPage (p : page) : completion page :=
  let sgpaValue := sgpaInput (fields p) in
  let oddValue := sgpaOdd (fields p) in
  let evenValue := sgpaEven (fields p) in
  sg <-
    (if truthy sgpaValue then
       sgpaPercent <-
         toFixed (fmul (fsub (StringToNumber sgpaValue) (lit (75 # 100)))
                       (lit (10 # 1))) 2 ;;
       sgpaText <- toFixed (parseFloat sgpaValue) 2 ;;
       Normal (sgpaText, sgpaPercent)
     else Normal ("-", "-")) ;;
  if truthy oddValue && truthy evenValue then
    ygpa <-
      toFixed (fdiv (fadd (parseFloat oddValue) (parseFloat evenValue))
                    (lit (2 # 1))) 2 ;;
    ygpaPercent <-
      toFixed (fmul (fsub (StringToNumber ygpa) (lit (75 # 100)))
                    (lit (10 # 1))) 2 ;;
    let performancePercent := min (parseFloat ygpaPercent) (lit (100 # 1)) in
    block <- showCongratulations (parseFloat ygpaPercent) ;;
    let perf := updatePerformanceText (parseFloat ygpaPercent) in
    Normal {| fields := fields p;
              shown := shown p;
              anim := anim p;
              summary := {| result_sgpa := fst sg;
                            result_sgpa_percent := snd sg;
                            result_ygpa := ygpa;
                            result_ygpa_percent := ygpaPercent;
                            performance_bar_width :=
                              toString performancePercent ++ "%";
                            congratulations_container := block;
                            performance_text := fst perf;
                            performance_text_color := snd perf |} |}
  else
    Normal {| fields := fields p;
              shown := shown p;
              anim := anim p;
              summary := {| result_sgpa := fst sg;
                            result_sgpa_percent := snd sg;
                            result_ygpa := "-";
                            result_ygpa_percent := "-";
                            performance_bar_width := "0%";
                            congratulations_container := "";
                            performance_text := "Ready to calculate...";
                            performance_text_color :=
                              performance_text_color (summary p) |} |}.

(** *** The performance bands of the specification

    The bands by their thresholds on the exact value of the percentage,
    and the message and the line of each band; a percentage that is not
    a number is below every threshold. *)
Inductive band : Type :=
| Outstanding
| Excellent
| Good
| Satisfactory
| Lowest.

Definition band_of (percentage : number) : band :=
  match percentage with
  | NaN | Infinity true => Lowest
  | Infinity false => Outstanding
  | Zero _ | Fin _ =>
      let q := val percentage in
      if Qle_bool (90 # 1) q then Outstanding
      else if Qle_bool (80 # 1) q then Excellent
      else if Qle_bool (70 # 1) q then Good
      else if Qle_bool (60 # 1) q then Satisfactory
      else Lowest
  end.

Definition celebration (b : band) : option (string * string) :=
  match b with
  | Outstanding => Some ("🌟 Outstanding Performance! 🌟", "🎉 ⭐ 🏆")
  | Excellent => Some ("🎊 Excellent Work! 🎊", "🎉 ✨ 👏")
  | Good => Some ("👍 Great Job! 👍", "😊 💪 👏")
  | Satisfactory => Some ("📈 Good Effort! Keep Improving 📈", "💫 🚀 🎯")
  | Lowest => None
  end.

Definition performance_line (b : band) : string * string :=
  match b with
  | Outstanding => ("⭐ Outstanding - Exceptional performance!", "#00f5ff")
  | Excellent => ("✨ Excellent - Keep it up!", "#7eb3ff")
  | Good => ("👍 Good - On the right track!", "#a8e6cf")
  | Satisfactory => ("📈 Satisfactory - Room for improvement!", "#ffd93d")
  | Lowest => ("💪 Keep pushing forward!", "#ff6b6b")
  end.

(** [switchPage(pageName)]: the results page is brought up to date when
    it is the one shown.  Which page and which button of the navigation
    carry the class [active] is not part of this model. *)
Definition switchPage (pageName : string) (p : page) : completion page :=
  if String.eqb pageName "results" then updateResultsPage p else Normal p.

(** *** A page to compute with

    The spheres as the loop at the start of the script makes them,
    sphere [i] with the hue [i / sphereCount], the variables of the
    animation with their first values, and the displays empty of
    results, around the three texts of the fields. *)
Fixpoint make_spheres (count : nat) (i : Z) : list sphere :=
  match count with
  | O => []
  | S count' =>
      let hue := fdiv (of_Z i) sphereCount in
      {| color := (hue, lit (7 # 10), lit (6 # 10));
         emissive := (hue, lit (5 # 10), lit (3 # 10)) |}
        :: make_spheres count' (i + 1)
  end.

Definition page_with (sgpa odd even : string) : page :=
  {| fields := {| sgpaInput := sgpa; sgpaOdd := odd; sgpaEven := even |};
     shown := {| sgpaPercentage := "--%";
                 sgpaError := false;
                 ygpaValue := "--";
                 ygpaPercentage := "--%";
                 oddError := false;
                 evenError := false |};
     anim := {| rotationSpeed := lit (5 # 1000);
                scaleMultiplier := lit 1;
                spheres := make_spheres 20 0 |};
     summary := {| result_sgpa := "-";
                   result_sgpa_percent := "-";
                   result_ygpa := "-";
                   result_ygpa_percent := "-";
                   performance_bar_width := "0%";
                   congratulations_container := "";
                   performance_text := "Ready to calculate...";
                   performance_text_color := "" |} |}.

End Calculator.

(** ** The listeners of the fields

    The script reacts to the event [input] of a field: the browser has
    put the new text into the field, then the listener runs.  [main.js]
    listens to the three fields; its later version listens to the field
    of the semester calculator only. *)

Module Listeners.
Import Number JSString Calculator.
Local Open Scope string_scope.

Inductive field : Type :=
| SGPAField
| OddField
| EvenField.

(** The page after the user has changed the text of a field. *)
Definition enter (f : field) (text : string) (p : page) : page :=
  {| fields :=
       match f with
       | SGPAField => {| sgpaInput := text;
                         sgpaOdd := sgpaOdd (fields p);
                         sgpaEven := sgpaEven (fields p) |}
       | OddField => {| sgpaInput := sgpaInput (fields p);
                        sgpaOdd := text;
                        sgpaEven := sgpaEven (fields p) |}
       | EvenField => {| sgpaInput := sgpaInput (fields p);
                         sgpaOdd := sgpaOdd (fields p);
                         sgpaEven := text |}
       end;
     shown := shown p;
     anim := anim p;
     summary := summary p |}.

(** [sgpaInput.addEventListener('input', updateSGPACalculation)] and
    [sgpaOdd.addEventListener('input', updateYGPACalculation)], the same
    for [sgpaEven]. *)
Definition on_input (f : field) (p : page) : completion page :=
  match f with
  | SGPAField => updateSGPACalculation p
  | OddField | EvenField => updateYGPACalculation p
  end.

(** The later version registers the first of the three only. *)
Definition on_input_later (f : field) (p : page) : completion page :=
  match f with
  | SGPAField => updateSGPACalculation p
  | OddField | EvenField => Normal p
  end.

(** A sequence of changes of the fields, each followed by its listener. *)
Fixpoint run (listener : field -> page -> completion page)
    (changes : list (field * string)) (p : page) : completion page :=
  match changes with
  | [] => Normal p
  | (f, text) :: rest =>
      p' <- listener f (enter f text p) ;;
      run listener rest p'
  end.

(** The displays of the two calculators are up to date when running the
    flows again would leave them as they are. *)
Definition up_to_date (p : page) : Prop :=
  exists p1 p2 : page,
    updateSGPACalculation p = Normal p1 /\ shown p1 = shown p
    /\ updateYGPACalculation p = Normal p2 /\ shown p2 = shown p.

End Listeners.

(** ** Texts of digits

    What a run of decimal digits denotes, and the number that the text
    of [toFixed(2)] is read as. *)

Module Decimals.
Import Number JSString.

Fixpoint all_digits (s : string) : bool :=
  match s with
  | EmptyString => true
  | String c r =>
      match digit_val c with
      | Some _ => all_digits r
      | None => false
      end
  end.

(** The value of the digits of [s], on top of [acc]. *)
Fixpoint digits_value (s : string) (acc : Z) : Z :=
  match s with
  | EmptyString => acc
  | String c r =>
      match digit_val c with
      | Some d => digits_value r (10 * acc + d)
      | None => acc
      end
  end.

(** The magnitude [q] in hundredths, a half rounded up. *)
Definition hundredths (q : Q) : Z := Qfloor (Qabs q * pow10 2 + (1 # 2)).

(** The hundredths with the sign of [q]. *)
Definition signed_hundredths (q : Q) : Z :=
  if Qlt_le_dec q 0 then - hundredths q else hundredths q.

(** The rational [q] rounded to hundredths, away from zero at a half,
    then to binary64. *)
Definition to_hundredths (q : Q) : number :=
  if Qlt_le_dec q 0
  then round64 true (- inject_Z (hundredths q) * pow10 (- 2))
  else round64 false (inject_Z (hundredths q) * pow10 (- 2)).

End Decimals.

(** ** The colours of the spheres

    The hue that the yearly flow gives to a sphere, and the colour and
    the emissive colour of that hue. *)

Module Scene.
Import Number JSString Calculator.

(** [(ygpa / 10 + index / sphereCount) % 1] *)
Definition hue (ygpa : number) (index : Z) : number :=
  frem (fadd (fdiv ygpa (lit (10 # 1))) (fdiv (of_Z index) sphereCount))
       (lit 1).

(** [color.setHSL(h, 0.7, 0.6)] and [emissive.setHSL(h, 0.5, 0.3)] *)
Definition painted (h : number) : sphere :=
  {| color := (h, lit (7 # 10), lit (6 # 10));
     emissive := (h, lit (5 # 10), lit (3 # 10)) |}.

(** The rotation speed and the scale multiplier of a percentage, and the
    percentages that the two flows compute. *)
Definition speed_of (percentage : number) : number :=
  fadd (lit (5 # 1000)) (fdiv percentage (lit (1000 # 1))).

Definition scale_of (percentage : number) : number :=
  fadd (lit (8 # 10)) (fdiv percentage (lit (200 # 1))).

Definition semester_percentage (p : page) : number :=
  sgpaToPercentage (parseFloat (sgpaInput (fields p))).

Definition yearly_grade_point (p : page) : number :=
  calculateYGPA (parseFloat (sgpaOdd (fields p)))
    (parseFloat (sgpaEven (fields p))).

Definition yearly_percentage (p : page) : number :=
  ygpaToPercentage (yearly_grade_point p).

Definition semester_valid (p : page) : bool :=
  isValidGPA (sgpaInput (fields p)).

Definition yearly_valid (p : page) : bool :=
  isValidGPA (sgpaOdd (fields p)) && isValidGPA (sgpaEven (fields p)).

(** The place of a band among the five, from the lowest up. *)
Definition rank (b : band) : nat :=
  match b with
  | Lowest => 0
  | Satisfactory => 1
  | Good => 2
  | Excellent => 3
  | Outstanding => 4
  end.

(** A finite number between two rationals. *)
Definition within (lo hi : Q) (x : number) : Prop :=
  finite x = true /\ (lo <= val x <= hi)%Q.

(** A hue as [setHSL] expects it: a number from 0 up to, but not
    including, 1. *)
Definition hue_in_range (h : number) : Prop :=
  finite h = true /\ (0 <= val h)%Q /\ (val h < 1)%Q.

(** The variables of the animation within the bounds that the valid
    grade points give them, and the hues of the spheres in range. *)
Definition steady (a : animation) : Prop :=
  within (- (25 # 10000)) (976 # 10000) (rotationSpeed a)
  /\ within (7625 # 10000) (12626 # 10000) (scaleMultiplier a)
  /\ Forall (fun s => hue_in_range (fst (fst (color s)))
                      /\ hue_in_range (fst (fst (emissive s))))
        (spheres a).

End Scene.

(** ** Navigation and the menu

    The document as the navigation sees it: the elements in tree order,
    each with its [id], the tokens of its [classList] and its
    [dataset.page].  Selectors match class names as they are written. *)

Module Navigation.
Import Number JSString Calculator.
Local Open Scope string_scope.

Record element : Type := {
  id : string;
  classList : list string;
  dataset_page : option string
}.

(** The tokens of a class list: [contains(token)], [add(token)], which
    does not add a token that is there, and [remove(token)]. *)
Definition has_token (token : string) (l : list string) : bool :=
  existsb (String.eqb token) l.

Definition add_token (token : string) (l : list string) : list string :=
  if has_token token l then l else l ++ [token].

Definition remove_token (token : string) (l : list string) : list string :=
  filter (fun t => negb (String.eqb t token)) l.

(** [classList.contains(token)] *)
Definition contains (e : element) (token : string) : bool :=
  has_token token (classList e).

(** [classList.add(token)] *)
Definition add (token : string) (e : element) : element :=
  {| id := id e;
     classList := add_token token (classList e);
     dataset_page := dataset_page e |}.

(** [classList.remove(token)] *)
Definition remove (token : string) (e : element) : element :=
  {| id := id e;
     classList := remove_token token (classList e);
     dataset_page := dataset_page e |}.

(** [classList.toggle(token)] *)
Definition toggle (token : string) (e : element) : element :=
  if contains e token then remove token e else add token e.

(** [document.getElementById(i)]: the place of the first element with
    that [id], in tree order; [None] stands for [null]. *)
Fixpoint getElementById (d : list element) (i : string) : option nat :=
  match d with
  | [] => None
  | e :: d' =>
      if String.eqb (id e) i then Some O
      else option_map S (getElementById d' i)
  end.

(** The element at a place changed by [f]. *)
Fixpoint update (n : nat) (f : element -> element) (d : list element) :
  list element :=
  match d, n with
  | [], _ => []
  | e :: d', O => f e :: d'
  | e :: d', S n' => e :: update n' f d'
  end.

(** The state of the site: the document, whether it has a [nav]
    element, and the page of the calculator. *)
Record site : Type := {
  doc : list element;
  has_nav : bool;
  calc : page
}.

(** A page name is a string, or [undefined] when it is read from the
    [dataset] of a button without [data-page]. *)
Definition template (pageName : option string) : string :=
  match pageName with
  | Some s => s
  | None => "undefined"
  end.

(** [a === b] *)
Definition strict_eq (a b : option string) : bool :=
  match a, b with
  | Some x, Some y => String.eqb x y
  | None, None => true
  | _, _ => false
  end.

Definition hide_pages (d : list element) : list element :=
  map (fun page => if contains page "page" then remove "active" page else page) d.

(** [`page-${pageName}`] *)
Definition page_id (pageName : option string) : string :=
  "page-" ++ template pageName.

Definition show_target (pageName : option string) (d : list element) :
  list element :=
  match getElementById d (page_id pageName) with
  | Some targetPage => update targetPage (add "active") d
  | None => d
  end.

Definition mark_buttons (pageName : option string) (d : list element) :
  list element :=
  map (fun btn =>
         if contains btn "nav-btn" then
           let btn' := remove "active" btn in
           if strict_eq (dataset_page btn) pageName then add "active" btn'
           else btn'
         else btn) d.

(** The document after [switchPage(pageName)]: the pages are hidden, the
    target is shown, and the buttons are marked. *)
Definition switch_doc (pageName : option string) (d : list element) :
  list element :=
  mark_buttons pageName (show_target pageName (hide_pages d)).

(** [switchPage(pageName)], with the classes of the pages and of the
    buttons of the navigation. *)
Definition switchPage (pageName : option string) (s : site) : completion site :=
  let d := switch_doc pageName (doc s) in
  if strict_eq pageName (Some "results") then
    p <- updateResultsPage (calc s) ;;
    Normal {| doc := d; has_nav := has_nav s; calc := p |}
  else Normal {| doc := d; has_nav := has_nav s; calc := calc s |}.

(** What [switchPage] makes of one element; [target] tells whether it
    is the element that [getElementById] finds. *)
Definition switched (pageName : option string) (target : bool) (e : element) :
  element :=
  let e1 := if contains e "page" then remove "active" e else e in
  let e2 := if target then add "active" e1 else e1 in
  if contains e2 "nav-btn" then
    let btn' := remove "active" e2 in
    if strict_eq (dataset_page e2) pageName then add "active" btn' else btn'
  else e2.

(** Whether place [n] is the one found. *)
Definition found (target : option nat) (n : nat) : bool :=
  match target with
  | Some k => Nat.eqb k n
  | None => false
  end.

(** What a listener does: it returns, or it stops at a TypeError because
    it reads a property of [null], or at what the calculator throws. *)
Inductive outcome : Type :=
| Returns (s : site)
| TypeError
| Throws (e : exception).

(** The listeners of the clicks: on a button of the navigation, on the
    hamburger, and on the document, where [inside] tells whether the
    [nav] element contains the target of the click. *)
Inductive click : Type :=
| NavButton (btn : nat)
| Hamburger
| Document (inside : bool).

Definition active (d : list element) (n : nat) : bool :=
  match nth_error d n with
  | Some e => contains e "active"
  | None => false
  end.

(** The click on a button: the page is switched and an open menu is
    closed. *)
Definition nav_button_click (btn : element) (s : site) : outcome :=
  match switchPage (dataset_page btn) s with
  | Throw e => Throws e
  | Normal s' =>
      match getElementById (doc s') "hamburger" with
      | Some hamburger =>
          if active (doc s') hamburger then
            let d := update hamburger (remove "active") (doc s') in
            match getElementById (doc s') "nav-links" with
            | Some navLinks =>
                Returns {| doc := update navLinks (remove "active") d;
                           has_nav := has_nav s';
                           calc := calc s' |}
            | None => TypeError
            end
          else Returns s'
      | None => Returns s'
      end
  end.

(** The click on the hamburger opens or closes the menu. *)
Definition hamburger_click (hamburger : nat) (s : site) : outcome :=
  let d := update hamburger (toggle "active") (doc s) in
  match getElementById (doc s) "nav-links" with
  | Some navLinks =>
      Returns {| doc := update navLinks (toggle "active") d;
                 has_nav := has_nav s;
                 calc := calc s |}
  | None => TypeError
  end.

(** The click anywhere: outside of the navigation it closes the menu. *)
Definition document_click (hamburger : nat) (inside : bool) (s : site) :
  outcome :=
  if has_nav s then
    if negb inside then
      let d := update hamburger (remove "active") (doc s) in
      match getElementById (doc s) "nav-links" with
      | Some navLinks =>
          Returns {| doc := update navLinks (remove "active") d;
                     has_nav := has_nav s;
                     calc := calc s |}
      | None => TypeError
      end
    else Returns s
  else TypeError.

(** The listener of a click, if the script has registered one: a button
    has one when it is of the class [nav-btn], the hamburger and the
    document when there is a hamburger. *)
Definition fire (c : click) (s : site) : outcome :=
  match c with
  | NavButton n =>
      match nth_error (doc s) n with
      | Some btn =>
          if contains btn "nav-btn" then nav_button_click btn s else Returns s
      | None => Returns s
      end
  | Hamburger =>
      match getElementById (doc s) "hamburger" with
      | Some hamburger => hamburger_click hamburger s
      | None => Returns s
      end
  | Document inside =>
      match getElementById (doc s) "hamburger" with
      | Some hamburger => document_click hamburger inside s
      | None => Returns s
      end
  end.

(** The menu is open for an element when it has the class [active]; the
    hamburger and the links of the navigation agree when both are open
    or both are closed. *)
Definition menu (s : site) : option (bool * bool) :=
  match getElementById (doc s) "hamburger",
        getElementById (doc s) "nav-links" with
  | Some hamburger, Some navLinks =>
      Some (active (doc s) hamburger, active (doc s) navLinks)
  | _, _ => None
  end.

(** An element that the navigation does not treat as a page or as one
    of its buttons. *)
Definition plain (e : element) : bool :=
  negb (contains e "page") && negb (contains e "nav-btn").

(** The menu of a document: the places of the hamburger and of the
    links, and the two elements, both plain. *)
Record menu_at (d : list element) (hb nl : nat) (h n : element) : Prop := {
  at_hamburger : getElementById d "hamburger" = Some hb;
  at_links : getElementById d "nav-links" = Some nl;
  el_hamburger : nth_error d hb = Some h;
  el_links : nth_error d nl = Some n;
  plain_hamburger : plain h = true;
  plain_links : plain n = true
}.

(** A site with a menu and a [nav] element. *)
Definition has_menu (s : site) : Prop :=
  has_nav s = true /\ exists hb nl h n, menu_at (doc s) hb nl h n.

(** Whether a click is on a button of the navigation. *)
Definition is_button (c : click) (s : site) : bool :=
  match c with
  | NavButton b =>
      match nth_error (doc s) b with
      | Some btn => contains btn "nav-btn"
      | None => false
      end
  | _ => false
  end.

(** What a listener makes of the menu: [button] tells whether a click
    on a button was on one. *)
Definition after (c : click) (button : bool) (m : bool * bool) : bool * bool :=
  match c with
  | NavButton _ => if button && fst m then (false, false) else m
  | Hamburger => (negb (fst m), negb (snd m))
  | Document inside => if inside then m else (false, false)
  end.

(** A site to compute with: the hamburger, the links, three pages and
    their buttons, around a page of the calculator. *)
Definition site_with (p : page) : site :=
  {| doc :=
       [ {| id := "hamburger"; classList := ["hamburger"];
            dataset_page := None |};
         {| id := "nav-links"; classList := ["nav-links"];
            dataset_page := None |};
         {| id := "page-sgpa"; classList := ["page"; "active"];
            dataset_page := None |};
         {| id := "page-ygpa"; classList := ["page"]; dataset_page := None |};
         {| id := "page-results"; classList := ["page"];
            dataset_page := None |};
         {| id := ""; classList := ["nav-btn"; "active"];
            dataset_page := Some "sgpa" |};
         {| id := ""; classList := ["nav-btn"]; dataset_page := Some "ygpa" |};
         {| id := ""; classList := ["nav-btn"];
            dataset_page := Some "results" |} ];
     has_nav := true;
     calc := p |}.

Fixpoint fire_all (cs : list click) (s : site) : outcome :=
  match cs with
  | [] => Returns s
  | c :: rest =>
      match fire c s with
      | Returns s' => fire_all rest s'
      | stop => stop
      end
  end.

End Navigation.

(** ** The animation loop

    The motion of the spheres: the angle on the orbit, the position and
    the rotation of each.  ECMAScript leaves the values of [Math.cos]
    and [Math.sin] to the implementation, so the two are parameters of
    the model. *)

Module Animation.
Import Number JSString Calculator Listeners.

Record motion : Type := {
  angle : number;
  position : number * number * number;
  rotation : number * number
}.

(** [Math.PI] *)
Definition PI : number := lit (3141592653589793 # 1000000000000000).

Section Trigonometry.
Variables cos sin : number -> number.

(** The sphere [index] as the loop at the start of the script places it;
    a new mesh has the rotation zero. *)
Definition place (index : Z) : motion :=
  let angle := fmul (fmul (fdiv (of_Z index) sphereCount) PI) (lit (2 # 1)) in
  let radius := lit (4 # 1) in
  {| angle := angle;
     position := (fmul (cos angle) radius, fmul (sin angle) radius,
                  fmul (sin (of_Z index)) (lit (2 # 1)));
     rotation := (Zero false, Zero false) |}.

(** The spheres [index], [index + 1], ... as that loop places them. *)
Fixpoint place_from (count : nat) (index : Z) : list motion :=
  match count with
  | O => []
  | S count' => place index :: place_from count' (index + 1)
  end.

(** What a frame does to the sphere [index]. *)
Definition move (a : animation) (index : Z) (m : motion) : motion :=
  let angle := fadd (angle m) (rotationSpeed a) in
  let radius := fmul (lit (4 # 1)) (scaleMultiplier a) in
  {| angle := angle;
     position := (fmul (cos angle) radius, fmul (sin angle) radius,
                  fmul (sin (fadd (fmul angle (lit (2 # 1))) (of_Z index)))
                       (lit (2 # 1)));
     rotation := (fadd (fst (rotation m)) (lit (1 # 100)),
                  fadd (snd (rotation m)) (lit (1 # 100))) |}.

Fixpoint animate_from (a : animation) (index : Z) (l : list motion) :
  list motion :=
  match l with
  | [] => []
  | m :: l' => move a index m :: animate_from a (index + 1) l'
  end.

(** [animate()]: one frame. *)
Definition animate (a : animation) (l : list motion) : list motion :=
  animate_from a 0 l.

(** The page of the calculator together with the motion of the spheres;
    a frame of the animation and a change of a field, with the
    listeners of [main.js]. *)
Record world : Type := {
  calculator : page;
  motions : list motion
}.

Inductive event : Type :=
| Frame
| Change (f : field) (text : string).

Definition step (e : event) (w : world) : completion world :=
  match e with
  | Frame =>
      Normal {| calculator := calculator w;
                motions := animate (anim (calculator w)) (motions w) |}
  | Change f text =>
      p <- on_input f (enter f text (calculator w)) ;;
      Normal {| calculator := p; motions := motions w |}
  end.

(** The page with empty fields and the 20 spheres where the script
    places them. *)
Definition start : world :=
  {| calculator := page_with "" "" ""; motions := place_from 20 0 |}.

Fixpoint play (es : list event) (w : world) : completion world :=
  match es with
  | [] => Normal w
  | e :: rest => w' <- step e w ;; play rest w'
  end.

End Trigonometry.

(** The largest finite binary64 value. *)
Definition max_value : Q := inject_Z (2 ^ 1024 - 2 ^ 971).

(** A finite number of the range of binary64. *)
Definition bounded (x : number) : Prop :=
  finite x = true /\ (- max_value <= val x <= max_value)%Q.

(** The angle and the two rotations of a sphere are such numbers. *)
Definition sound (m : motion) : Prop :=
  bounded (angle m) /\ bounded (fst (rotation m)) /\ bounded (snd (rotation m)).

End Animation.

(** * Properties *)

(** ** Rounding to binary64 *)

Module NumberFacts.
Import Number.
Local Open Scope Q_scope.

Lemma pow2_pos (e : Z) : 0 < pow2 e.
Proof. apply Qpower_0_lt. reflexivity. Qed.

Lemma pow2_le (a b : Z) : (a <= b)%Z -> pow2 a <= pow2 b.
Proof. intros H. apply Qpower_le_compat_l; [exact H | discriminate]. Qed.

Lemma pow2_lt (a b : Z) : (a < b)%Z -> pow2 a < pow2 b.
Proof. intros H. apply Qpower_lt_compat_l; [exact H | reflexivity]. Qed.

Lemma pow2_add (a b : Z) : pow2 (a + b) == pow2 a * pow2 b.
Proof. apply Qpower_plus. discriminate. Qed.

Lemma pow2_Z (n : Z) : (0 <= n)%Z -> inject_Z (2 ^ n) == pow2 n.
Proof. intros H. unfold pow2, two. rewrite Zpower_Qpower by exact H. reflexivity. Qed.

(** [ilog2] is the binary logarithm, rounded down. *)
Lemma ilog2_spec (x : Q) :
  0 < x -> pow2 (ilog2 x) <= x /\ x < pow2 (ilog2 x + 1).
Proof.
  intros Hx. destruct x as [n d]. unfold ilog2. cbn [Qnum Qden].
  assert (Hn : (0 < n)%Z).
  { unfold Qlt in Hx. cbn in Hx. lia. }
  set (a := Z.log2 n). set (b := Z.log2 (Zpos d)).
  assert (Ha : (0 <= a)%Z) by apply Z.log2_nonneg.
  assert (Hb : (0 <= b)%Z) by apply Z.log2_nonneg.
  destruct (Z.log2_spec n Hn) as [Ha1 Ha2]. fold a in Ha1, Ha2.
  destruct (Z.log2_spec (Zpos d) (eq_refl : (0 < Zpos d)%Z)) as [Hb1 Hb2].
  fold b in Hb1, Hb2.
  (* n / d as a quotient of integers *)
  assert (Hq : n # d == inject_Z n / inject_Z (Zpos d)).
  { rewrite (Qmake_Qdiv n d). reflexivity. }
  assert (Hd0 : 0 < inject_Z (Zpos d)) by (unfold Qlt; cbn; lia).
  assert (Hlo : pow2 (a - b - 1) < n # d).
  { rewrite Hq. apply Qlt_shift_div_l; [exact Hd0|].
    apply Qlt_le_trans with (pow2 (a - b - 1) * pow2 (b + 1)).
    - apply Qmult_lt_l; [apply pow2_pos|].
      rewrite <- pow2_Z by lia. rewrite <- Zlt_Qlt. exact Hb2.
    - rewrite <- pow2_add. replace (a - b - 1 + (b + 1))%Z with a by lia.
      rewrite <- pow2_Z by lia. rewrite <- Zle_Qle. exact Ha1. }
  assert (Hhi : n # d < pow2 (a - b + 1)).
  { rewrite Hq. apply Qlt_shift_div_r; [exact Hd0|].
    apply Qlt_le_trans with (pow2 (a - b + 1) * pow2 b).
    - rewrite <- pow2_add. replace (a - b + 1 + b)%Z with (a + 1)%Z by lia.
      rewrite <- pow2_Z by lia. rewrite <- Zlt_Qlt.
      replace (a + 1)%Z with (Z.succ a) by lia. exact Ha2.
    - apply Qmult_le_l; [apply pow2_pos|].
      rewrite <- pow2_Z by lia. rewrite <- Zle_Qle. exact Hb1. }
  destruct (Qle_bool (pow2 (a - b)) (n # d)) eqn:E.
  - apply Qle_bool_iff in E. split; assumption.
  - assert (E' : n # d < pow2 (a - b)).
    { apply Qnot_le_lt. intros H. apply Qle_bool_iff in H. congruence. }
    split.
    + apply Qlt_le_weak. exact Hlo.
    + replace (a - b - 1 + 1)%Z with (a - b)%Z by lia. exact E'.
Qed.

Lemma ilog2_unique (x : Q) (k : Z) :
  pow2 k <= x -> x < pow2 (k + 1) -> ilog2 x = k.
Proof.
  intros H1 H2.
  assert (Hx : 0 < x) by (eapply Qlt_le_trans; [apply pow2_pos | exact H1]).
  destruct (ilog2_spec x Hx) as [H3 H4].
  assert (A : (ilog2 x < k + 1)%Z).
  { apply Qpower_lt_compat_l_inv with (q := two); [|reflexivity].
    eapply Qle_lt_trans; [exact H3 | exact H2]. }
  assert (B : (k < ilog2 x + 1)%Z).
  { apply Qpower_lt_compat_l_inv with (q := two); [|reflexivity].
    eapply Qle_lt_trans; [exact H1 | exact H4]. }
  lia.
Qed.

Lemma ilog2_mono (x y : Q) : 0 < x -> x <= y -> (ilog2 x <= ilog2 y)%Z.
Proof.
  intros Hx Hxy.
  assert (Hy : 0 < y) by (eapply Qlt_le_trans; eassumption).
  destruct (ilog2_spec x Hx) as [H1 _].
  destruct (ilog2_spec y Hy) as [_ H2].
  assert (A : (ilog2 x < ilog2 y + 1)%Z).
  { apply Qpower_lt_compat_l_inv with (q := two); [|reflexivity].
    eapply Qle_lt_trans; [exact H1|]. eapply Qle_lt_trans; eassumption. }
  lia.
Qed.

(** [rne] stays between the floor and the floor plus one, keeps the
    integers and is monotone. *)
Lemma rne_floor (x : Q) : rne x = Qfloor x \/ rne x = (Qfloor x + 1)%Z.
Proof.
  unfold rne. destruct (x - inject_Z (Qfloor x) ?= 1 # 2); auto.
  destruct (Z.even (Qfloor x)); auto.
Qed.

Lemma rne_Z (z : Z) : rne (inject_Z z) = z.
Proof.
  unfold rne. rewrite Qfloor_Z.
  destruct (inject_Z z - inject_Z z ?= 1 # 2) eqn:C; [apply Qeq_alt in C | reflexivity | apply Qgt_alt in C]; lra.
Qed.

Lemma Qfloor_lt (x y : Q) : (Qfloor x < Qfloor y)%Z -> (Qfloor x + 1 <= Qfloor y)%Z.
Proof. lia. Qed.

Lemma rne_mono (x y : Q) : x <= y -> (rne x <= rne y)%Z.
Proof.
  intros Hxy.
  pose proof (Qfloor_resp_le x y Hxy) as Hf.
  destruct (Z.eq_dec (Qfloor x) (Qfloor y)) as [E | N].
  - unfold rne. rewrite <- E.
    destruct (x - inject_Z (Qfloor x) ?= 1 # 2) eqn:Cx;
      destruct (y - inject_Z (Qfloor x) ?= 1 # 2) eqn:Cy;
      try destruct (Z.even (Qfloor x)); try lia; exfalso;
      repeat match goal with
             | H : (_ ?= _) = Eq |- _ => apply Qeq_alt in H
             | H : (_ ?= _) = Lt |- _ => apply Qlt_alt in H
             | H : (_ ?= _) = Gt |- _ => apply Qgt_alt in H
             end; lra.
  - destruct (rne_floor x) as [Hx | Hx]; destruct (rne_floor y) as [Hy | Hy]; lia.
Qed.

Lemma rne_le_Z (x : Q) (n : Z) : x <= inject_Z n -> (rne x <= n)%Z.
Proof. intros H. rewrite <- (rne_Z n). apply rne_mono. exact H. Qed.

Lemma rne_ge_Z (x : Q) (n : Z) : inject_Z n <= x -> (n <= rne x)%Z.
Proof. intros H. rewrite <- (rne_Z n). apply rne_mono. exact H. Qed.

Lemma cexp_le (k : Z) : (k - 52 <= cexp k)%Z /\ (emin <= cexp k)%Z.
Proof. unfold cexp, prec, emin. lia. Qed.

Lemma round_mag_nonneg (x : Q) : 0 <= x -> 0 <= round_mag x.
Proof.
  intros Hx. unfold round_mag.
  set (e := cexp (ilog2 x)).
  apply Qmult_le_0_compat; [|apply Qlt_le_weak, pow2_pos].
  change 0 with (inject_Z 0). rewrite <- Zle_Qle. apply rne_ge_Z.
  apply Qle_shift_div_l; [apply pow2_pos|].
  change (inject_Z 0) with 0. rewrite Qmult_0_l. exact Hx.
Qed.

(** Rounding a magnitude is monotone. *)
Lemma round_mag_mono (x y : Q) : 0 < x -> x <= y -> round_mag x <= round_mag y.
Proof.
  intros Hx Hxy.
  assert (Hy : 0 < y) by (eapply Qlt_le_trans; eassumption).
  pose proof (ilog2_mono x y Hx Hxy) as Hk.
  destruct (ilog2_spec x Hx) as [_ Hx2].
  destruct (ilog2_spec y Hy) as [Hy1 _].
  unfold round_mag.
  set (kx := ilog2 x) in *. set (ky := ilog2 y) in *.
  destruct (Z.eq_dec (cexp kx) (cexp ky)) as [E | N].
  - rewrite <- E. apply Qmult_le_compat_r; [|apply Qlt_le_weak, pow2_pos].
    rewrite <- Zle_Qle. apply rne_mono.
    apply Qmult_le_compat_r; [exact Hxy|].
    apply Qlt_le_weak, Qinv_lt_0_compat, pow2_pos.
  - assert (Hc : (cexp kx < cexp ky)%Z) by (unfold cexp in *; lia).
    assert (Hky : cexp ky = (ky - 52)%Z) by (unfold cexp, prec, emin in *; lia).
    assert (Hkx : (kx + 1 <= ky)%Z) by (unfold cexp, prec, emin in *; lia).
    assert (Hex : (kx - 52 <= cexp kx)%Z) by apply cexp_le.
    (* the rounded [x] is at most 2^(kx+1), the rounded [y] at least 2^ky *)
    apply Qle_trans with (pow2 (Z.max (kx + 1) (cexp kx))).
    + set (ex := cexp kx) in *.
      set (t := (Z.max (kx + 1) ex - ex)%Z).
      assert (Ht : (0 <= t)%Z) by (unfold t; lia).
      apply Qle_trans with (inject_Z (2 ^ t) * pow2 ex).
      * apply Qmult_le_compat_r; [|apply Qlt_le_weak, pow2_pos].
        rewrite <- Zle_Qle. apply rne_le_Z.
        apply Qle_shift_div_r; [apply pow2_pos|].
        rewrite pow2_Z by lia. rewrite <- pow2_add.
        apply Qle_trans with (pow2 (kx + 1)); [apply Qlt_le_weak; exact Hx2|].
        apply pow2_le. unfold t. lia.
      * rewrite pow2_Z by lia. rewrite <- pow2_add.
        replace (t + ex)%Z with (Z.max (kx + 1) ex) by (unfold t; lia).
        apply Qle_refl.
    + apply Qle_trans with (pow2 ky); [apply pow2_le; lia|].
      rewrite Hky.
      apply Qle_trans with (inject_Z (2 ^ 52) * pow2 (ky - 52)).
      * rewrite pow2_Z by lia. rewrite <- pow2_add.
        replace (52 + (ky - 52))%Z with ky by lia. apply Qle_refl.
      * apply Qmult_le_compat_r; [|apply Qlt_le_weak, pow2_pos].
        rewrite <- Zle_Qle. apply rne_ge_Z.
        apply Qle_shift_div_l; [apply pow2_pos|].
        rewrite pow2_Z by lia. rewrite <- pow2_add.
        replace (52 + (ky - 52))%Z with ky by lia. exact Hy1.
Qed.

(** *** The order of the numbers *)

Lemma Qcompare_le (p q : Q) :
  p <= q -> match p ?= q with Gt => false | _ => true end = true.
Proof. intros H. destruct (Qcompare_spec p q); auto. lra. Qed.

Lemma le_Fin (p q : Q) : le (Fin p) (Fin q) = true <-> p <= q.
Proof.
  unfold le, compare.
  destruct (Qcompare_spec p q); split; intros; auto; try lra; discriminate.
Qed.

Lemma le_not_NaN (x y : number) : le x y = true -> x <> NaN /\ y <> NaN.
Proof.
  destruct x as [|[]|[]|p], y as [|[]|[]|q]; cbn; intros H; split; congruence.
Qed.

Lemma le_neg_infinity (x : number) : x <> NaN -> le (Infinity true) x = true.
Proof. destruct x as [|[]|[]|p]; cbn; congruence. Qed.

Lemma le_pos_infinity (x : number) : x <> NaN -> le x (Infinity false) = true.
Proof. destruct x as [|[]|[]|p]; cbn; congruence. Qed.

Lemma le_finite (x y : number) :
  finite x = true -> finite y = true -> (le x y = true <-> val x <= val y).
Proof.
  intros Fx Fy.
  destruct x as [|[]|[]|p]; try discriminate Fx;
    destruct y as [|[]|[]|q]; try discriminate Fy;
    unfold le, compare, val;
    try (split; intros; [apply Qle_refl | reflexivity]);
    match goal with
    | |- context [Qcompare ?a ?b] => destruct (Qcompare_spec a b)
    end; split; intros; auto; try lra; discriminate.
Qed.

(** *** Rounding is monotone *)

Lemma of_mag_not_NaN (s : bool) (v : Q) : of_mag s v <> NaN.
Proof.
  unfold of_mag. destruct (Qle_bool _ _); [discriminate|].
  destruct (Qeq_bool _ _); discriminate.
Qed.

Lemma round64_not_NaN (z : bool) (x : Q) : round64 z x <> NaN.
Proof.
  unfold round64, round64'. destruct (Qnum (Qred x)); try discriminate;
    apply of_mag_not_NaN.
Qed.

(** What [of_mag] gives: an infinity from [2^1024] on, else its argument. *)
Lemma of_mag_cases (s : bool) (v : Q) :
  0 <= v ->
  (pow2 emax <= v /\ of_mag s v = Infinity s)
  \/ (v < pow2 emax /\ finite (of_mag s v) = true
      /\ val (of_mag s v) == (if s then - v else v)).
Proof.
  intros Hv. unfold of_mag.
  destruct (Qle_bool (pow2 emax) v) eqn:E.
  - left. apply Qle_bool_iff in E. auto.
  - right. assert (E' : v < pow2 emax).
    { apply Qnot_le_lt. intros H. apply Qle_bool_iff in H. congruence. }
    split; [exact E'|].
    destruct (Qeq_bool v 0) eqn:Z.
    + apply Qeq_bool_iff in Z. cbn. split; [reflexivity|].
      destruct s; rewrite Z; reflexivity.
    + cbn. split; [reflexivity|]. apply Qred_correct.
Qed.

Lemma le_of_mag (s t : bool) (v w : Q) :
  0 <= v -> 0 <= w ->
  (if s then - v else v) <= (if t then - w else w) ->
  le (of_mag s v) (of_mag t w) = true.
Proof.
  intros Hv Hw H.
  destruct (of_mag_cases s v Hv) as [[Iv Ev] | [Iv [Fv Ev]]];
    destruct (of_mag_cases t w Hw) as [[Iw Ew] | [Iw [Fw Ew]]].
  - rewrite Ev, Ew. pose proof (pow2_pos emax).
    destruct s, t; cbn; try reflexivity. exfalso. lra.
  - rewrite Ev. pose proof (pow2_pos emax). destruct s.
    + apply le_neg_infinity, of_mag_not_NaN.
    + exfalso. destruct t; lra.
  - rewrite Ew. pose proof (pow2_pos emax). destruct t.
    + exfalso. destruct s; lra.
    + apply le_pos_infinity, of_mag_not_NaN.
  - apply le_finite; auto. rewrite Ev, Ew. exact H.
Qed.

Lemma le_zero_of_mag (z : bool) (w : Q) :
  0 <= w -> le (Zero z) (of_mag false w) = true.
Proof.
  intros Hw.
  destruct (of_mag_cases false w Hw) as [[Iw Ew] | [Iw [Fw Ew]]].
  - rewrite Ew. reflexivity.
  - apply le_finite; auto. rewrite Ew. exact Hw.
Qed.

Lemma le_of_mag_zero (z : bool) (v : Q) :
  0 <= v -> le (of_mag true v) (Zero z) = true.
Proof.
  intros Hv.
  destruct (of_mag_cases true v Hv) as [[Iv Ev] | [Iv [Fv Ev]]].
  - rewrite Ev. reflexivity.
  - apply le_finite; auto. rewrite Ev. cbn [val]. lra.
Qed.

Lemma Qmake_sign (n : Z) (d : positive) :
  (n = 0%Z -> n # d == 0) /\ ((0 < n)%Z -> 0 < n # d)
  /\ ((n < 0)%Z -> 0 < - (n # d)).
Proof.
  repeat split; intros H.
  - subst. reflexivity.
  - unfold Qlt. cbn. lia.
  - unfold Qlt. cbn. lia.
Qed.

Lemma round64'_mono (z1 z2 : bool) (x y : Q) :
  x <= y -> le (round64' z1 x) (round64' z2 y) = true.
Proof.
  intros H. unfold round64'.
  destruct x as [nx dx], y as [ny dy]. cbn [Qnum].
  destruct (Qmake_sign nx dx) as [X0 [X1 X2]].
  destruct (Qmake_sign ny dy) as [Y0 [Y1 Y2]].
  destruct nx as [|px|px], ny as [|py|py];
    try specialize (X0 eq_refl); try specialize (Y0 eq_refl);
    try specialize (X1 eq_refl); try specialize (Y1 eq_refl);
    try specialize (X2 eq_refl); try specialize (Y2 eq_refl);
    try (exfalso; lra).
  - reflexivity.
  - apply le_zero_of_mag, round_mag_nonneg. lra.
  - apply le_of_mag; try (apply round_mag_nonneg; lra).
    apply round_mag_mono; assumption.
  - apply le_of_mag_zero, round_mag_nonneg. lra.
  - apply le_of_mag; try (apply round_mag_nonneg; lra).
    pose proof (round_mag_nonneg (- (Z.neg px # dx)) ltac:(lra)).
    pose proof (round_mag_nonneg (Z.pos py # dy) ltac:(lra)). lra.
  - apply le_of_mag; try (apply round_mag_nonneg; lra).
    apply Qopp_le_compat. apply round_mag_mono; [assumption | lra].
Qed.

(** The number of an exact result is monotone in that result. *)
Lemma round64_mono (z1 z2 : bool) (x y : Q) :
  x <= y -> le (round64 z1 x) (round64 z2 y) = true.
Proof.
  intros H. unfold round64. apply round64'_mono.
  rewrite !Qred_correct. exact H.
Qed.

(** It depends on the value of the result only. *)
Lemma round64_eq (z : bool) (x y : Q) : x == y -> round64 z x = round64 z y.
Proof. intros H. unfold round64. rewrite (Qred_complete x y H). reflexivity. Qed.

Lemma round64_zero (z : bool) (x : Q) : x == 0 -> round64 z x = Zero z.
Proof. intros H. rewrite (round64_eq z x 0 H). reflexivity. Qed.

(** *** Addition and division *)

Lemma fadd_comm (x y : number) : fadd x y = fadd y x.
Proof.
  destruct x as [|s|s|p], y as [|t|t|q]; cbn; try reflexivity.
  - destruct s, t; reflexivity.
  - rewrite andb_comm. reflexivity.
  - apply round64_eq. apply Qplus_comm.
Qed.

Lemma is_neg_pos (d : Q) : 0 < d -> is_neg (Fin d) = false.
Proof.
  intros H. destruct d as [n e]. unfold Qlt in H. cbn in H. cbn.
  destruct n; try reflexivity. lia.
Qed.

(** An operation that rounds a monotone function of a finite argument,
    and keeps the infinities, keeps the order. *)
Section Lift.
Variable op : number -> number.
Variable f : Q -> Q.
Hypothesis op_finite :
  forall u, finite u = true -> exists z, op u = round64 z (f (val u)).
Hypothesis op_infinity : forall s, op (Infinity s) = Infinity s.
Hypothesis f_mono : forall a b, a <= b -> f a <= f b.

Lemma lift_not_NaN (u : number) : u <> NaN -> op u <> NaN.
Proof.
  intros Hu. destruct (finite u) eqn:F.
  - destruct (op_finite u F) as [z E]. rewrite E. apply round64_not_NaN.
  - destruct u as [|s|s|p]; try discriminate F;
      [congruence | rewrite op_infinity; discriminate].
Qed.

Lemma lift_mono (x y : number) : le x y = true -> le (op x) (op y) = true.
Proof.
  intros H. destruct (le_not_NaN x y H) as [Nx Ny].
  destruct (finite x) eqn:Fx; destruct (finite y) eqn:Fy.
  - destruct (op_finite x Fx) as [zx Ex]. destruct (op_finite y Fy) as [zy Ey].
    rewrite Ex, Ey. apply round64_mono, f_mono, le_finite; assumption.
  - destruct y as [|[]|[]|q]; try discriminate Fy; try congruence.
    + destruct x as [|[]|[]|p]; discriminate.
    + rewrite op_infinity. apply le_pos_infinity, lift_not_NaN, Nx.
  - destruct x as [|[]|[]|p]; try discriminate Fx; try congruence.
    + rewrite op_infinity. apply le_neg_infinity, lift_not_NaN, Ny.
    + destruct y as [|[]|[]|q]; discriminate.
  - destruct x as [|[]|[]|p]; try discriminate Fx; try congruence;
      destruct y as [|[]|[]|q]; try discriminate Fy; try congruence;
      try discriminate H; rewrite !op_infinity; reflexivity.
Qed.
End Lift.

(** Dividing by a positive number keeps the order. *)
Lemma fdiv_mono (d : Q) (x y : number) :
  0 < d -> le x y = true -> le (fdiv x (Fin d)) (fdiv y (Fin d)) = true.
Proof.
  intros Hd H.
  refine (lift_mono (fun u => fdiv u (Fin d)) (fun a => a / d) _ _ _ x y H).
  - intros [|s|s|p] F; try discriminate F.
    + exists (xorb s (is_neg (Fin d))). cbn [fdiv val].
      symmetry. apply round64_zero. unfold Qdiv. apply Qmult_0_l.
    + eexists. reflexivity.
  - intros s.
    change (fdiv (Infinity s) (Fin d)) with (Infinity (xorb s (is_neg (Fin d)))).
    rewrite (is_neg_pos d Hd). destruct s; reflexivity.
  - intros a b Hab. apply Qmult_le_compat_r; [exact Hab|].
    apply Qlt_le_weak, Qinv_lt_0_compat, Hd.
Qed.

(** Multiplying by a positive number keeps the order. *)
Lemma fmul_mono (c : Q) (x y : number) :
  0 < c -> le x y = true -> le (fmul x (Fin c)) (fmul y (Fin c)) = true.
Proof.
  intros Hc H.
  refine (lift_mono (fun u => fmul u (Fin c)) (fun a => a * c) _ _ _ x y H).
  - intros [|s|s|p] F; try discriminate F.
    + exists (xorb s (is_neg (Fin c))). cbn [fmul val].
      symmetry. apply round64_zero. apply Qmult_0_l.
    + eexists. reflexivity.
  - intros s.
    change (fmul (Infinity s) (Fin c)) with (Infinity (xorb s (is_neg (Fin c)))).
    rewrite (is_neg_pos c Hc). destruct s; reflexivity.
  - intros a b Hab. apply Qmult_le_compat_r; [exact Hab|].
    apply Qlt_le_weak, Hc.
Qed.

(** Adding a number on the left keeps the order. *)
Lemma fadd_mono (c : Q) (x y : number) :
  round64 false c = Fin c -> le x y = true ->
  le (fadd (Fin c) x) (fadd (Fin c) y) = true.
Proof.
  intros Hc H.
  refine (lift_mono (fun u => fadd (Fin c) u) (fun a => c + a) _ _ _ x y H).
  - intros [|s|s|p] F; try discriminate F.
    + exists false. cbn [fadd val]. rewrite <- Hc. apply round64_eq. lra.
    + eexists. reflexivity.
  - reflexivity.
  - intros a b Hab. apply Qplus_le_r. exact Hab.
Qed.

(** *** Exact results

    A result that is itself a binary64 value is not changed by the
    rounding. *)

Lemma rne_eq_Z (x : Q) (z : Z) : x == inject_Z z -> rne x = z.
Proof.
  intros H.
  assert (A : (rne x <= z)%Z) by (apply rne_le_Z; rewrite H; apply Qle_refl).
  assert (B : (z <= rne x)%Z) by (apply rne_ge_Z; rewrite H; apply Qle_refl).
  lia.
Qed.

Lemma round_mag_exact (x : Q) (m e : Z) :
  (0 < m < 2 ^ 53)%Z -> (emin <= e)%Z -> x == inject_Z m * pow2 e ->
  round_mag x == x.
Proof.
  intros [Hm1 Hm2] He Hx.
  set (l := Z.log2 m).
  assert (Hl0 : (0 <= l)%Z) by apply Z.log2_nonneg.
  assert (Hl : (l < 53)%Z) by (apply Z.log2_lt_pow2; assumption).
  destruct (Z.log2_spec m Hm1) as [L1 L2]. fold l in L1, L2.
  assert (K : ilog2 x = (l + e)%Z).
  { apply ilog2_unique; rewrite Hx.
    - rewrite pow2_add. apply Qmult_le_compat_r; [|apply Qlt_le_weak, pow2_pos].
      rewrite <- pow2_Z by lia. rewrite <- Zle_Qle. exact L1.
    - replace (l + e + 1)%Z with (Z.succ l + e)%Z by lia.
      rewrite pow2_add. apply Qmult_lt_r; [apply pow2_pos|].
      rewrite <- pow2_Z by lia. rewrite <- Zlt_Qlt. exact L2. }
  unfold round_mag. rewrite K.
  set (c := cexp (l + e)).
  assert (Hc : (c <= e)%Z) by (unfold c, cexp, prec, emin in *; lia).
  assert (D : x / pow2 c == inject_Z (m * 2 ^ (e - c))).
  { rewrite Hx. rewrite inject_Z_mult. rewrite pow2_Z by lia.
    replace e with (e - c + c)%Z at 1 by lia. rewrite pow2_add.
    pose proof (pow2_pos c). field. lra. }
  rewrite (rne_eq_Z _ _ D). rewrite Hx.
  rewrite inject_Z_mult. rewrite pow2_Z by lia.
  rewrite <- Qmult_assoc. rewrite <- pow2_add.
  replace (e - c + c)%Z with e by lia. reflexivity.
Qed.

Lemma of_mag_exact (s : bool) (v : Q) :
  0 < v -> v < pow2 emax -> of_mag s v = Fin (Qred (if s then - v else v)).
Proof.
  intros H1 H2. unfold of_mag.
  destruct (Qle_bool (pow2 emax) v) eqn:E.
  - apply Qle_bool_iff in E. lra.
  - destruct (Qeq_bool v 0) eqn:Z; [|reflexivity].
    apply Qeq_bool_iff in Z. lra.
Qed.

Lemma round64_exact (z : bool) (x : Q) (m e : Z) :
  (0 < Z.abs m < 2 ^ 53)%Z -> (emin <= e <= emax - 53)%Z ->
  x == inject_Z m * pow2 e ->
  round64 z x = Fin (Qred x).
Proof.
  intros Hm He Hx.
  assert (B : inject_Z (Z.abs m) * pow2 e < pow2 emax).
  { apply Qlt_le_trans with (inject_Z (2 ^ 53) * pow2 e).
    - apply Qmult_lt_r; [apply pow2_pos|]. rewrite <- Zlt_Qlt. lia.
    - rewrite pow2_Z by lia. rewrite <- pow2_add. apply pow2_le. lia. }
  assert (P : 0 < inject_Z (Z.abs m) * pow2 e).
  { apply Qmult_lt_0_compat; [|apply pow2_pos].
    change 0 with (inject_Z 0). rewrite <- Zlt_Qlt. lia. }
  unfold round64, round64'.
  pose proof (Qred_correct x) as R. set (y := Qred x) in *.
  assert (Hy : y == inject_Z m * pow2 e) by (rewrite R; exact Hx).
  destruct (Qmake_sign (Qnum y) (Qden y)) as [Y0 [Y1 Y2]].
  replace (Qnum y # Qden y) with y in * by (destruct y; reflexivity).
  destruct (Z.abs_spec m) as [[Mp Ma] | [Mn Ma]]; rewrite Ma in *.
  - assert (Py : 0 < y) by (rewrite Hy; exact P).
    destruct (Qnum y) eqn:N; try (specialize (Y0 eq_refl); lra);
      try (specialize (Y2 eq_refl); lra).
    pose proof (round_mag_exact y m e ltac:(lia) ltac:(lia) Hy) as X.
    rewrite of_mag_exact by (rewrite X, Hy; assumption).
    f_equal. transitivity (Qred y); [apply Qred_complete; exact X|].
    unfold y. apply Qred_complete, Qred_correct.
  - assert (Hy' : - y == inject_Z (- m) * pow2 e).
    { rewrite Hy. rewrite inject_Z_opp. ring. }
    assert (Py : 0 < - y) by (rewrite Hy'; exact P).
    destruct (Qnum y) eqn:N; try (specialize (Y0 eq_refl); lra);
      try (specialize (Y1 eq_refl); lra).
    pose proof (round_mag_exact (- y) (- m) e ltac:(lia) ltac:(lia) Hy') as X.
    rewrite of_mag_exact by (rewrite X, Hy'; assumption).
    f_equal. transitivity (Qred y); [apply Qred_complete; rewrite X; ring|].
    unfold y. apply Qred_complete, Qred_correct.
Qed.

(** A multiple [n * 2^(-j)] with fewer than 53 bits in [n] is kept. *)
Lemma round64_grid (z : bool) (x : Q) (n j : Z) :
  (Z.abs n < 2 ^ 53)%Z -> (0 <= j <= 1074)%Z ->
  x == inject_Z n * pow2 (- j) ->
  finite (round64 z x) = true /\ val (round64 z x) == x.
Proof.
  intros Hn Hj Hx.
  destruct (Z.eq_dec n 0) as [-> | N].
  - assert (X0 : x == 0) by (rewrite Hx; ring).
    rewrite (round64_zero z x X0). split; [reflexivity|].
    cbn [val]. symmetry. exact X0.
  - rewrite (round64_exact z x n (- j)); unfold emin, emax; try lia; try exact Hx.
    split; [reflexivity | apply Qred_correct].
Qed.

Lemma fadd_exact (a b : number) (n j : Z) :
  finite a = true -> finite b = true ->
  (Z.abs n < 2 ^ 53)%Z -> (0 <= j <= 1074)%Z ->
  val a + val b == inject_Z n * pow2 (- j) ->
  finite (fadd a b) = true /\ val (fadd a b) == val a + val b.
Proof.
  intros Fa Fb Hn Hj H.
  destruct a as [|s|s|p]; try discriminate Fa;
    destruct b as [|t|t|q]; try discriminate Fb; cbn [fadd val] in *.
  - split; [reflexivity | ring].
  - split; [reflexivity | ring].
  - split; [reflexivity | ring].
  - apply (round64_grid false (p + q) n j); assumption.
Qed.


Lemma fdiv_exact (a : number) (c : Q) (n j : Z) :
  finite a = true ->
  (Z.abs n < 2 ^ 53)%Z -> (0 <= j <= 1074)%Z ->
  val a / c == inject_Z n * pow2 (- j) ->
  finite (fdiv a (Fin c)) = true /\ val (fdiv a (Fin c)) == val a / c.
Proof.
  intros Fa Hn Hj H.
  destruct a as [|s|s|p]; try discriminate Fa; cbn [fdiv val] in *.
  - split; [reflexivity |]. unfold Qdiv. ring.
  - apply (round64_grid _ (p / c) n j); assumption.
Qed.

(** *** The results are binary64 values *)

Lemma Qred_idem (x : Q) : Qred (Qred x) = Qred x.
Proof. apply Qred_complete, Qred_correct. Qed.

Lemma round_mag_binary64 (x : Q) :
  0 < x -> 0 < round_mag x -> round_mag x < pow2 emax ->
  exists m e : Z,
    (0 < m < 2 ^ prec)%Z /\ (emin <= e <= emax - prec)%Z
    /\ round_mag x == inject_Z m * pow2 e.
Proof.
  intros Hx Hpos Hmax.
  destruct (ilog2_spec x Hx) as [K1 K2].
  unfold round_mag in *. set (k := ilog2 x) in *. set (c := cexp k) in *.
  set (M := rne (x / pow2 c)) in *.
  assert (Hc : (k - 52 <= c)%Z /\ (emin <= c)%Z) by apply cexp_le.
  assert (M0 : (0 < M)%Z).
  { apply Z.nle_gt. intros H. apply (Qlt_not_le _ _ Hpos).
    rewrite <- (Qmult_0_l (pow2 c)).
    apply Qmult_le_compat_r; [|apply Qlt_le_weak, pow2_pos].
    change 0 with (inject_Z 0). rewrite <- Zle_Qle. exact H. }
  assert (Mle : (M <= 2 ^ 53)%Z).
  { unfold M. apply rne_le_Z. apply Qle_shift_div_r; [apply pow2_pos|].
    rewrite pow2_Z by lia. rewrite <- pow2_add.
    apply Qle_trans with (pow2 (k + 1)); [apply Qlt_le_weak, K2|].
    apply pow2_le. lia. }
  assert (Bound : forall n : Z,
             (0 <= n)%Z -> inject_Z (2 ^ n) <= inject_Z M ->
             (n + c < emax)%Z).
  { intros n Hn H.
    apply Qpower_lt_compat_l_inv with (q := two); [|reflexivity].
    fold (pow2 (n + c)). fold (pow2 emax).
    eapply Qle_lt_trans; [|exact Hmax].
    rewrite pow2_add. rewrite <- pow2_Z by exact Hn.
    apply Qmult_le_compat_r; [exact H | apply Qlt_le_weak, pow2_pos]. }
  assert (C1 : (c < emax)%Z).
  { apply (Bound 0%Z); [lia|]. rewrite <- Zle_Qle. change (2 ^ 0)%Z with 1%Z. lia. }
  destruct (Z.eq_dec M (2 ^ 53)) as [E | N].
  - assert (C2 : (53 + c < emax)%Z).
    { apply (Bound 53%Z); [lia|]. rewrite <- Zle_Qle. lia. }
    exists (2 ^ 52)%Z, (c + 1)%Z. unfold prec, emin, emax in *.
    split; [lia|]. split; [lia|].
    rewrite E. rewrite !pow2_Z by lia. rewrite <- !pow2_add.
    replace (52 + (c + 1))%Z with (53 + c)%Z by lia. reflexivity.
  - exists M, c. unfold prec, emin, emax in *.
    split; [lia|]. split; [|reflexivity].
    split; [lia|].
    (* below 2^1024 the exponent stays below 972 *)
    destruct (Z_le_gt_dec c 971) as [L | G]; [exact L|]. exfalso.
    assert (Kc : c = (k - 52)%Z) by (unfold c, cexp, prec, emin in *; lia).
    assert (M52 : (2 ^ 52 <= M)%Z).
    { unfold M. apply rne_ge_Z. apply Qle_shift_div_l; [apply pow2_pos|].
      rewrite pow2_Z by lia. rewrite <- pow2_add. rewrite Kc.
      replace (52 + (k - 52))%Z with k by lia. exact K1. }
    assert (C3 : (52 + c < 1024)%Z).
    { apply (Bound 52%Z); [lia|]. rewrite <- Zle_Qle. exact M52. }
    lia.
Qed.

Lemma of_mag_binary64 (s : bool) (x : Q) :
  0 < x -> binary64 (of_mag s (round_mag x)).
Proof.
  intros Hx. unfold of_mag.
  destruct (Qle_bool (pow2 emax) (round_mag x)) eqn:E; [exact I|].
  destruct (Qeq_bool (round_mag x) 0) eqn:Z; [exact I|].
  assert (E' : round_mag x < pow2 emax).
  { apply Qnot_le_lt. intros H. apply Qle_bool_iff in H. congruence. }
  assert (P : 0 < round_mag x).
  { pose proof (round_mag_nonneg x (Qlt_le_weak _ _ Hx)) as N.
    destruct (Qlt_le_dec 0 (round_mag x)) as [L | L]; [exact L|].
    assert (Z' : round_mag x == 0) by lra.
    apply Qeq_bool_iff in Z'. congruence. }
  destruct (round_mag_binary64 x Hx P E') as [m [e [Hm [He V]]]].
  split; [apply Qred_idem|].
  destruct s.
  - exists (- m)%Z, e. split; [lia|]. split; [exact He|].
    rewrite Qred_correct, V, inject_Z_opp. ring.
  - exists m, e. split; [lia|]. split; [exact He|].
    rewrite Qred_correct. exact V.
Qed.

(** Every rounded result is a binary64 value. *)
Lemma round64_binary64 (z : bool) (x : Q) : binary64 (round64 z x).
Proof.
  unfold round64, round64'. set (y := Qred x).
  destruct (Qmake_sign (Qnum y) (Qden y)) as [_ [Y1 Y2]].
  replace (Qnum y # Qden y) with y in * by (destruct y; reflexivity).
  destruct (Qnum y) eqn:N.
  - exact I.
  - apply of_mag_binary64, Y1. reflexivity.
  - apply of_mag_binary64, Y2. reflexivity.
Qed.

(** A binary64 value is not changed by the rounding. *)
Lemma round64_idem (z : bool) (q : Q) :
  binary64 (Fin q) -> round64 z q = Fin q.
Proof.
  intros [R [m [e [Hm [He V]]]]].
  rewrite (round64_exact z q m e Hm He V). rewrite R. reflexivity.
Qed.

Lemma fneg_binary64 (x : number) : binary64 x -> binary64 (fneg x).
Proof.
  destruct x as [|s|s|q]; try exact (fun H => H).
  intros [R [m [e [Hm [He V]]]]]. split; [apply Qred_idem|].
  exists (- m)%Z, e. split; [lia|]. split; [exact He|].
  rewrite Qred_correct, V, inject_Z_opp. ring.
Qed.

(** The operations keep to binary64 values. *)
Lemma fadd_binary64 (x y : number) :
  binary64 x -> binary64 y -> binary64 (fadd x y).
Proof.
  intros Hx Hy.
  destruct x as [|s|s|p], y as [|t|t|q]; cbn [fadd]; try exact I;
    try assumption.
  - destruct (Bool.eqb s t); exact I.
  - apply round64_binary64.
Qed.

Lemma fsub_binary64 (x y : number) :
  binary64 x -> binary64 y -> binary64 (fsub x y).
Proof. intros Hx Hy. apply fadd_binary64; [exact Hx | apply fneg_binary64, Hy]. Qed.

Lemma fmul_binary64 (x y : number) : binary64 (fmul x y).
Proof.
  destruct x as [|s|s|p], y as [|t|t|q]; cbn [fmul]; try exact I.
  apply round64_binary64.
Qed.

Lemma fdiv_binary64 (x y : number) : binary64 (fdiv x y).
Proof.
  destruct x as [|s|s|p], y as [|t|t|q]; cbn [fdiv]; try exact I.
  apply round64_binary64.
Qed.

(** *** Agreement with the reference arithmetic *)

Example operations_agree_with_reference :
  forallb (fun x => forallb (Reference.agrees x) Reference.samples)
    Reference.samples = true.
Proof. vm_compute. reflexivity. Qed.

End NumberFacts.

(** ** Reading a number from a text *)

Module JSStringFacts.
Import Number JSString.
Local Open Scope string_scope.
Local Open Scope Z_scope.

(** What follows a character that no numeric literal has is not read:
    neither by the white space before the literal nor by the literal. *)
Section Inert.
Variable c : ascii.
Variable t : string.
Hypothesis c_inert : inert c = true.

Lemma inert_facts :
  digit_val c = None /\ ws1 c = false /\ (code c <? 128)%N = true
  /\ not_in c ".eE+-Infinity" = true.
Proof.
  unfold inert in c_inert.
  destruct (digit_val c); [discriminate c_inert|].
  destruct (ws1 c); [discriminate c_inert|].
  destruct (code c <? 128)%N; [|discriminate c_inert].
  destruct (not_in c ".eE+-Infinity"); [|discriminate c_inert].
  repeat split.
Qed.

Lemma scan_digits_app (s : string) (acc cnt : Z) :
  scan_digits (s ++ String c t) acc cnt
  = let '(v, n, r) := scan_digits s acc cnt in (v, n, r ++ String c t).
Proof.
  destruct inert_facts as [D _].
  revert acc cnt. induction s as [|a s IH]; intros acc cnt; cbn [append scan_digits].
  - rewrite D. reflexivity.
  - destruct (digit_val a); [apply IH | reflexivity].
Qed.

Lemma inert_code (n : N) :
  (128 <= n)%N ->
  (code c =? n)%N = false /\ (n <=? code c)%N = false.
Proof.
  destruct inert_facts as [_ [_ [L _]]]. apply N.ltb_lt in L.
  intros H. split; [apply N.eqb_neq | apply N.leb_gt]; lia.
Qed.

Ltac inert_false :=
  rewrite ?(proj1 (inert_code 128 ltac:(lia))),
    ?(proj2 (inert_code 128 ltac:(lia))),
    ?(proj1 (inert_code 129 ltac:(lia))),
    ?(proj1 (inert_code 154 ltac:(lia))),
    ?(proj1 (inert_code 159 ltac:(lia))),
    ?(proj1 (inert_code 160 ltac:(lia))),
    ?(proj1 (inert_code 168 ltac:(lia))),
    ?(proj1 (inert_code 169 ltac:(lia))),
    ?(proj1 (inert_code 175 ltac:(lia))),
    ?(proj1 (inert_code 187 ltac:(lia))),
    ?(proj1 (inert_code 191 ltac:(lia))),
    ?(proj1 (inert_code 194 ltac:(lia))),
    ?(proj1 (inert_code 225 ltac:(lia))),
    ?(proj1 (inert_code 226 ltac:(lia))),
    ?(proj1 (inert_code 227 ltac:(lia))),
    ?(proj1 (inert_code 239 ltac:(lia)));
  repeat first [rewrite andb_false_r | rewrite andb_false_l
               | rewrite orb_false_r | rewrite orb_false_l];
  try reflexivity.

Lemma inert_ws2 (a : ascii) : ws2 a c = false /\ ws2 c a = false.
Proof. unfold ws2. split; inert_false. Qed.

Lemma inert_ws3 (a b : ascii) :
  ws3 a b c = false /\ ws3 a c b = false /\ ws3 c a b = false.
Proof. unfold ws3. cbv zeta. repeat split; inert_false. Qed.

Lemma trim_start_app_fuel (n : nat) (s : string) :
  (String.length s <= n)%nat ->
  trim_start (s ++ String c t) = trim_start s ++ String c t.
Proof.
  destruct inert_facts as [_ [W _]].
  revert s. induction n as [|n IH]; intros s Hn.
  - destruct s; [|cbn in Hn; lia].
    cbn [append trim_start]. rewrite W.
    destruct t as [|c2 [|c3 r3]]; try reflexivity.
    + rewrite (proj2 (inert_ws2 c2)). reflexivity.
    + rewrite (proj2 (inert_ws2 c2)).
      rewrite (proj2 (proj2 (inert_ws3 c2 c3))). reflexivity.
  - destruct s as [|c1 [|c2 [|c3 r3]]]; cbn [String.length] in Hn.
    + apply (IH ""). cbn. lia.
    + cbn [append trim_start]. destruct (ws1 c1).
      * apply (IH ""). cbn. lia.
      * rewrite (proj1 (inert_ws2 c1)).
        destruct t as [|d r]; [reflexivity|].
        rewrite (proj1 (proj2 (inert_ws3 c1 d))). reflexivity.
    + cbn [append trim_start]. destruct (ws1 c1).
      * apply (IH (String c2 "")). cbn. lia.
      * destruct (ws2 c1 c2).
        -- apply (IH ""). cbn. lia.
        -- rewrite (proj1 (inert_ws3 c1 c2)). reflexivity.
    + cbn [append trim_start]. destruct (ws1 c1).
      * apply (IH (String c2 (String c3 r3))). cbn. lia.
      * destruct (ws2 c1 c2).
        -- apply (IH (String c3 r3)). cbn. lia.
        -- destruct (ws3 c1 c2 c3); [|reflexivity].
           apply (IH r3). lia.
Qed.

Lemma trim_start_app (s : string) :
  trim_start (s ++ String c t) = trim_start s ++ String c t.
Proof. apply (trim_start_app_fuel (String.length s)). lia. Qed.

Lemma strip_prefix_app (p s : string) :
  not_in c p = true ->
  strip_prefix p (s ++ String c t)
  = option_map (fun r => r ++ String c t) (strip_prefix p s).
Proof.
  revert s. induction p as [|a p IH]; intros s N; [reflexivity|].
  cbn [not_in] in N. apply andb_true_iff in N. destruct N as [N1 N2].
  destruct s as [|b s]; cbn [append strip_prefix].
  - apply negb_true_iff in N1. rewrite N1. reflexivity.
  - destruct (Ascii.eqb a b); [apply IH, N2 | reflexivity].
Qed.

Lemma inert_chars :
  Ascii.eqb c "." = false /\ Ascii.eqb c "e" = false
  /\ Ascii.eqb c "E" = false /\ Ascii.eqb c "+" = false
  /\ Ascii.eqb c "-" = false /\ not_in c "Infinity" = true.
Proof.
  destruct inert_facts as [_ [_ [_ N]]]. cbn [not_in] in N.
  repeat match type of N with
         | _ && _ = true =>
             let A := fresh "A" in
             apply andb_true_iff in N; destruct N as [A N];
             try (apply negb_true_iff in A; rewrite Ascii.eqb_sym in A)
         end.
  cbn [not_in]. rewrite (Ascii.eqb_sym "I" c), (Ascii.eqb_sym "n" c),
    (Ascii.eqb_sym "f" c), (Ascii.eqb_sym "i" c), (Ascii.eqb_sym "t" c),
    (Ascii.eqb_sym "y" c).
  repeat match goal with
         | H : Ascii.eqb c _ = false |- _ => rewrite H; clear H
         end.
  repeat split.
Qed.

Lemma scan_sign_app (s : string) :
  scan_sign (s ++ String c t)
  = let '(neg, r) := scan_sign s in (neg, r ++ String c t).
Proof.
  destruct inert_chars as [_ [_ [_ [P [M _]]]]].
  destruct s as [|a s]; cbn [append scan_sign].
  - rewrite M, P. reflexivity.
  - destruct (Ascii.eqb a "-"); [reflexivity|].
    destruct (Ascii.eqb a "+"); reflexivity.
Qed.

Lemma scan_exponent_app (s : string) :
  scan_exponent (s ++ String c t)
  = let '(e, r) := scan_exponent s in (e, r ++ String c t).
Proof.
  destruct inert_chars as [_ [E1 [E2 _]]].
  destruct s as [|a s]; cbn [append scan_exponent].
  - rewrite E1, E2. reflexivity.
  - destruct (Ascii.eqb a "e" || Ascii.eqb a "E"); [|reflexivity].
    rewrite scan_sign_app. destruct (scan_sign s) as [neg r1].
    rewrite scan_digits_app. destruct (scan_digits r1 0 0) as [[v n] r2].
    destruct (n =? 0); reflexivity.
Qed.

Lemma scan_unsigned_app (neg : bool) (s : string) :
  scan_unsigned neg (s ++ String c t)
  = option_map (fun lr => (fst lr, snd lr ++ String c t)) (scan_unsigned neg s).
Proof.
  destruct inert_chars as [D [E1 [E2 [_ [_ I]]]]].
  unfold scan_unsigned. rewrite (strip_prefix_app _ _ I).
  destruct (strip_prefix "Infinity" s) as [r|]; [reflexivity|].
  cbn [option_map]. rewrite scan_digits_app.
  destruct (scan_digits s 0 0) as [[ip n1] r1].
  destruct r1 as [|d r]; cbn [append].
  - rewrite D. destruct ((n1 =? 0) && (0 =? 0)); [reflexivity|].
    cbn [scan_exponent]. rewrite E1, E2. reflexivity.
  - destruct (Ascii.eqb d ".").
    + rewrite scan_digits_app. destruct (scan_digits r ip 0) as [[m n2] r2].
      destruct ((n1 =? 0) && (n2 =? 0)) eqn:Z.
      * change (String d (r ++ String c t)) with (String d r ++ String c t).
        cbn [Z.eqb andb]. rewrite andb_true_r.
        apply andb_true_iff in Z. destruct Z as [-> _]. reflexivity.
      * rewrite Z. rewrite scan_exponent_app.
        destruct (scan_exponent r2) as [e r3]. reflexivity.
    + destruct ((n1 =? 0) && (0 =? 0)); [reflexivity|].
      change (String d (r ++ String c t)) with (String d r ++ String c t).
      rewrite scan_exponent_app.
      destruct (scan_exponent (String d r)) as [e r3]. reflexivity.
Qed.

Lemma scan_literal_app (s : string) :
  scan_literal (s ++ String c t)
  = option_map (fun lr => (fst lr, snd lr ++ String c t)) (scan_literal s).
Proof.
  unfold scan_literal. rewrite scan_sign_app.
  destruct (scan_sign s) as [neg r]. apply scan_unsigned_app.
Qed.

(** [parseFloat] reads the same number from a text and from the text
    followed by such a character and anything. *)
Lemma parseFloat_app (s : string) :
  parseFloat (s ++ String c t) = parseFloat s.
Proof.
  unfold parseFloat. rewrite trim_start_app, scan_literal_app.
  destruct (scan_literal (trim_start s)) as [[l r]|]; reflexivity.
Qed.

End Inert.
End JSStringFacts.

(** ** The model at work

    Values that JavaScript is known to give. *)

Module Examples.
Import Number JSString Calculator.
Local Open Scope string_scope.

Example sum_of_tenths :
  fadd (lit (1 # 10)) (lit (2 # 10)) = StringToNumber "0.30000000000000004"
  /\ fadd (lit (1 # 10)) (lit (2 # 10)) <> lit (3 # 10).
Proof. split; [vm_compute; reflexivity | vm_compute; discriminate]. Qed.

Example parseFloat_reads_a_prefix :
  map parseFloat ["10"; "7abc"; "  7.5  "; ".5"; "5."; "1e3"; "1e"; "-0";
                  "0x10"; "Infinity"; "abc"; ""; "."; "+-7"]
  = [Fin (10 # 1); Fin (7 # 1); Fin (15 # 2); Fin (1 # 2); Fin (5 # 1);
     Fin (1000 # 1); Fin (1 # 1); Zero true; Zero false; Infinity false;
     NaN; NaN; NaN; NaN].
Proof. vm_compute. reflexivity. Qed.

Example StringToNumber_reads_the_whole :
  map StringToNumber ["10"; "7abc"; "  7.5  "; "1e"; "0x10"; "0b101"; "";
                      " "; "12 3"; "-0x10"; "Infinity"]
  = [Fin (10 # 1); NaN; Fin (15 # 2); NaN; Fin (16 # 1); Fin (5 # 1);
     Zero false; Zero false; NaN; NaN; Infinity false].
Proof. vm_compute. reflexivity. Qed.

Example toFixed_rounds_the_binary_value :
  map (fun s => toFixed (parseFloat s) 2)
    ["1.005"; "8.125"; "1.45"; "10"; "-0.1"; "-0.001"; "0.005"; "999.995";
     "1e21"; "123456789012345680000"; "abc"; "-Infinity"]
  = map Normal
      ["1.00"; "8.13"; "1.45"; "10.00"; "-0.10"; "-0.00"; "0.01"; "1000.00";
       "1e+21"; "123456789012345683968.00"; "NaN"; "-Infinity"].
Proof. vm_compute. reflexivity. Qed.

Example toFixed_checks_the_digits :
  toFixed (lit (5 # 2)) 0 = Normal "3"
  /\ toFixed (lit (5 # 2)) 101 = Throw RangeError
  /\ toFixed (lit (5 # 2)) (-1) = Throw RangeError.
Proof.
  split; [vm_compute; reflexivity|].
  split; vm_compute; reflexivity.
Qed.

Example toString_is_shortest :
  map (fun s => toString (parseFloat s))
    ["0.1"; "0.30000000000000004"; "72.50"; "100"; "1e21"; "0.000001";
     "0.0000001"; "123.456"; "-7.5"; "1.7976931348623157e308"; "5e-324"]
  = ["0.1"; "0.30000000000000004"; "72.5"; "100"; "1e+21"; "0.000001";
     "1e-7"; "123.456"; "-7.5"; "1.7976931348623157e+308"; "5e-324"].
Proof. vm_compute. reflexivity. Qed.

Example semester_flow_at_8_2 :
  exists pg' : page,
    updateSGPACalculation (page_with "8.2" "" "") = Normal pg'
    /\ sgpaPercentage (shown pg') = "74.50%"
    /\ sgpaError (shown pg') = false.
Proof. eexists. split; [vm_compute; reflexivity | split; reflexivity]. Qed.

Example results_page_at_9_5_and_9_9 :
  exists pg' : page,
    updateResultsPage (page_with "" "9.5" "9.9") = Normal pg'
    /\ result_ygpa (summary pg') = "9.70"
    /\ result_ygpa_percent (summary pg') = "89.50"
    /\ performance_bar_width (summary pg') = "89.5%"
    /\ performance_text (summary pg') = "✨ Excellent - Keep it up!"
    /\ performance_text_color (summary pg') = "#7eb3ff".
Proof. eexists. split; [vm_compute; reflexivity | repeat split]. Qed.

End Examples.

(** ** The calculator *)

Module CalculatorFacts.
Import Number JSString Calculator NumberFacts.
Local Open Scope string_scope.

(** The literals of the source, as binary64 values. *)
Lemma lit_0 : lit 0 = Zero false.
Proof. reflexivity. Qed.

Lemma lit_10 : lit (10 # 1) = Fin (10 # 1).
Proof. vm_compute. reflexivity. Qed.

Lemma lit_0_75 : lit (75 # 100) = Fin (3 # 4).
Proof. vm_compute. reflexivity. Qed.

Lemma lit_2 : lit (2 # 1) = Fin (2 # 1).
Proof. vm_compute. reflexivity. Qed.

Lemma lit_1000 : lit (1000 # 1) = Fin (1000 # 1).
Proof. vm_compute. reflexivity. Qed.

Lemma lit_200 : lit (200 # 1) = Fin (200 # 1).
Proof. vm_compute. reflexivity. Qed.

Lemma lit_0_005 : lit (5 # 1000) = Fin c0_005.
Proof. vm_compute. reflexivity. Qed.

Lemma lit_0_8 : lit (8 # 10) = Fin c0_8.
Proof. vm_compute. reflexivity. Qed.

Lemma round64_c0_005 : round64 false c0_005 = Fin c0_005.
Proof. vm_compute. reflexivity. Qed.

Lemma round64_c0_8 : round64 false c0_8 = Fin c0_8.
Proof. vm_compute. reflexivity. Qed.

(** [toFixed] throws for a count of digits outside 0..100 only. *)
Lemma toFixed_Normal (x : number) (f : Z) :
  (0 <= f <= 100)%Z -> exists s, toFixed x f = Normal s.
Proof.
  intros Hf. unfold toFixed.
  replace ((f <? 0)%Z || (100 <? f)%Z) with false
    by (symmetry; apply orb_false_iff; split; apply Z.ltb_ge; lia).
  destruct (value x) as [q|]; [|eauto].
  destruct (Qle_bool (pow10 21) (Qabs q)); eauto.
Qed.

Lemma toFixed_2 (x : number) : exists s, toFixed x 2 = Normal s.
Proof. apply toFixed_Normal. lia. Qed.

(** The empty string is not a valid grade point. *)
Lemma isValidGPA_truthy (s : string) : isValidGPA s = true -> truthy s = true.
Proof. destruct s; [vm_compute; discriminate | reflexivity]. Qed.

(** The validity check, on the parsed number. *)
Lemma in_range_iff (x : number) :
  negb (isNaN x) && ge x (lit 0) && le x (lit (10 # 1)) = true
  <-> exists q : Q, value x = Some q /\ (0 <= q <= 10 # 1)%Q.
Proof.
  rewrite lit_0, lit_10.
  destruct x as [|[]|s|q]; cbn [isNaN negb andb value]; unfold ge, le, compare.
  - split; [discriminate | intros [q [E _]]; discriminate E].
  - split; [discriminate | intros [q [E _]]; discriminate E].
  - split; [discriminate | intros [q [E _]]; discriminate E].
  - split; [intros _ | reflexivity].
    exists 0%Q. split; [reflexivity | split; [apply Qle_refl | discriminate]].
  - destruct (Qcompare_spec q 0) as [E0 | E0 | E0];
      destruct (Qcompare_spec q (10 # 1)) as [E1 | E1 | E1]; cbn [andb];
      split; try discriminate; try reflexivity;
      try (intros _; exists q; split; [reflexivity | lra]);
      intros [q' [E [H1 H2]]]; injection E as <-; lra.
Qed.

Lemma isValidGPA_iff (raw : string) :
  isValidGPA raw = true
  <-> exists q : Q, value (parseFloat raw) = Some q /\ (0 <= q <= 10 # 1)%Q.
Proof. unfold isValidGPA. apply in_range_iff. Qed.

(** *** The formulas on binary fractions

    On grade points that are multiples of [2^(-46)] no operation of the
    formulas rounds. *)



Lemma ygpa_exact (a b : number) (na nb j : Z) :
  finite a = true -> finite b = true ->
  (Z.abs (na + nb) < 2 ^ 53)%Z -> (0 <= j < 1074)%Z ->
  (val a == inject_Z na * pow2 (- j))%Q ->
  (val b == inject_Z nb * pow2 (- j))%Q ->
  finite (calculateYGPA a b) = true
  /\ (val (calculateYGPA a b) == (val a + val b) / (2 # 1))%Q.
Proof.
  intros Fa Fb Hn Hj Ha Hb. unfold calculateYGPA. rewrite lit_2.
  destruct (fadd_exact a b (na + nb) j Fa Fb) as [F1 V1]; try lia.
  { rewrite Ha, Hb, inject_Z_plus. ring. }
  destruct (fdiv_exact (fadd a b) (2 # 1) (na + nb) (j + 1) F1) as [F2 V2];
    try lia.
  { rewrite V1, Ha, Hb, inject_Z_plus.
    replace (- (j + 1))%Z with (- j + - 1)%Z by lia. rewrite pow2_add.
    change (pow2 (- 1)) with (1 # 2)%Q. field. }
  split; [exact F2|]. rewrite V2, V1. reflexivity.
Qed.

(** *** The formulas keep the order *)

Lemma percentage_mono (g1 g2 : number) :
  le g1 g2 = true -> le (sgpaToPercentage g1) (sgpaToPercentage g2) = true.
Proof.
  intros H. unfold sgpaToPercentage, fsub. rewrite lit_0_75, lit_10.
  change (fneg (Fin (3 # 4))) with (Fin (- 3 # 4)).
  rewrite (fadd_comm g1), (fadd_comm g2).
  apply fmul_mono; [reflexivity|].
  apply fadd_mono; [vm_compute; reflexivity | exact H].
Qed.

Lemma rotationSpeed_mono (p1 p2 : number) :
  le p1 p2 = true ->
  le (fadd (lit (5 # 1000)) (fdiv p1 (lit (1000 # 1))))
     (fadd (lit (5 # 1000)) (fdiv p2 (lit (1000 # 1)))) = true.
Proof.
  intros H. rewrite lit_0_005, lit_1000.
  apply fadd_mono; [exact round64_c0_005|].
  apply fdiv_mono; [reflexivity | exact H].
Qed.

Lemma scaleMultiplier_mono (p1 p2 : number) :
  le p1 p2 = true ->
  le (fadd (lit (8 # 10)) (fdiv p1 (lit (200 # 1))))
     (fadd (lit (8 # 10)) (fdiv p2 (lit (200 # 1)))) = true.
Proof.
  intros H. rewrite lit_0_8, lit_200.
  apply fadd_mono; [exact round64_c0_8|].
  apply fdiv_mono; [reflexivity | exact H].
Qed.

(** *** The texts of [toFixed] are no placeholders *)

Lemma has_non_dash_app (a b : string) :
  has_non_dash (a ++ b) = has_non_dash a || has_non_dash b.
Proof.
  induction a as [|c a IH]; cbn [append has_non_dash]; [reflexivity|].
  rewrite IH. apply orb_assoc.
Qed.

Lemma has_non_dash_digits (n : Z) : has_non_dash (digits n) = true.
Proof.
  unfold digits. destruct (N.to_uint (Z.to_N n)); reflexivity.
Qed.

Lemma has_non_dash_toString_mag (v : Q) : has_non_dash (toString_mag v) = true.
Proof.
  unfold toString_mag.
  destruct (shortest 20 1 v (ilog10 v)) as [[s k] n].
  repeat match goal with
         | |- context [if ?b then _ else _] => destruct b
         end;
    rewrite ?has_non_dash_app, ?has_non_dash_digits;
    cbn [has_non_dash Ascii.eqb negb orb];
    rewrite ?orb_true_r; reflexivity.
Qed.

Lemma has_non_dash_fixed_digits (a : Q) : has_non_dash (fixed_digits a 2) = true.
Proof.
  unfold fixed_digits. change (2 =? 0)%Z with false. cbv iota zeta.
  rewrite !has_non_dash_app. change (has_non_dash ".") with true.
  rewrite orb_true_r. reflexivity.
Qed.

Lemma toFixed_has_non_dash (x : number) (s : string) :
  toFixed x 2 = Normal s -> has_non_dash s = true.
Proof.
  unfold toFixed. change ((2 <? 0)%Z || (100 <? 2)%Z) with false. cbv iota.
  destruct (value x) as [q|] eqn:V.
  - cbv zeta.
    destruct (Qle_bool (pow10 21) (Qabs q)); intros [= <-];
      rewrite has_non_dash_app.
    + rewrite has_non_dash_toString_mag. apply orb_true_r.
    + rewrite has_non_dash_fixed_digits. apply orb_true_r.
  - intros [= <-].
    destruct x as [|[]|z|q]; try discriminate V; reflexivity.
Qed.

Lemma placeholder_dashes (s : string) :
  has_non_dash s = true -> s <> "--" /\ s ++ "%" <> "--%" /\ s <> "-".
Proof.
  intros H. repeat split; intros E.
  - rewrite E in H. discriminate H.
  - destruct s as [|a s]; cbn in E; [discriminate E|].
    injection E as Ea E.
    destruct s as [|b s]; cbn in E; [discriminate E|].
    injection E as Eb E.
    destruct s as [|c s]; cbn in E.
    + subst. discriminate H.
    + injection E as Ec E. destruct s; discriminate E.
  - rewrite E in H. discriminate H.
Qed.

(** *** The gate of the yearly flow *)

Lemma truthy_empty (s : string) : truthy s = false -> s = "".
Proof. destruct s; [reflexivity | discriminate]. Qed.

Lemma ygpa_gate (odd even : string) :
  negb (truthy odd) || negb (truthy even)
  || (truthy odd && negb (isValidGPA odd) || truthy even && negb (isValidGPA even))
  = negb (isValidGPA odd && isValidGPA even).
Proof.
  pose proof (isValidGPA_truthy odd) as To.
  pose proof (isValidGPA_truthy even) as Te.
  destruct (isValidGPA odd); destruct (isValidGPA even);
    try rewrite (To eq_refl); try rewrite (Te eq_refl);
    destruct (truthy odd); destruct (truthy even); reflexivity.
Qed.

(** *** The thresholds of the bands *)

Lemma Qcompare_ge (v c : Q) :
  match Qcompare v c with Lt => false | _ => true end = Qle_bool c v.
Proof.
  destruct (Qcompare_spec v c) as [E | E | E];
    destruct (Qle_bool c v) eqn:B; try reflexivity; exfalso.
  - assert (B' : (c <= v)%Q) by lra. apply Qle_bool_iff in B'. congruence.
  - apply Qle_bool_iff in B. lra.
  - assert (B' : (c <= v)%Q) by lra. apply Qle_bool_iff in B'. congruence.
Qed.

Lemma ge_threshold (p : number) (c : Q) :
  finite p = true -> ge p (Fin c) = Qle_bool c (val p).
Proof.
  intros F. destruct p as [|s|s|q]; try discriminate F;
    unfold ge, compare, val; rewrite <- Qcompare_ge;
    match goal with
    | |- context [Qcompare ?a ?b] => destruct (Qcompare a b)
    end; reflexivity.
Qed.

Lemma lit_thresholds :
  lit (90 # 1) = Fin (90 # 1) /\ lit (80 # 1) = Fin (80 # 1)
  /\ lit (70 # 1) = Fin (70 # 1) /\ lit (60 # 1) = Fin (60 # 1).
Proof.
  split; [vm_compute; reflexivity|].
  split; [vm_compute; reflexivity|].
  split; vm_compute; reflexivity.
Qed.

Lemma updatePerformanceText_band (p : number) :
  updatePerformanceText p = performance_line (band_of p).
Proof.
  unfold updatePerformanceText, band_of.
  destruct lit_thresholds as [-> [-> [-> ->]]].
  destruct p as [|[]|s|q]; try reflexivity;
    rewrite !ge_threshold by reflexivity;
    repeat match goal with
           | |- context [Qle_bool ?a ?b] => destruct (Qle_bool a b)
           end; reflexivity.
Qed.

Lemma congratulations_message_band (p : number) :
  congratulations_message p = celebration (band_of p).
Proof.
  unfold congratulations_message, band_of.
  destruct lit_thresholds as [-> [-> [-> ->]]].
  destruct p as [|[]|s|q]; try reflexivity;
    rewrite !ge_threshold by reflexivity;
    repeat match goal with
           | |- context [Qle_bool ?a ?b] => destruct (Qle_bool a b)
           end; reflexivity.
Qed.

(** *** The flows *)

(** A flow goes through [toFixed] with two digits, which returns. *)
Tactic Notation "toFixed_returns" "as" ident(t) ident(E) :=
  match goal with
  | |- context [bind (toFixed ?x 2) _] =>
      destruct (toFixed_2 x) as [t E]; rewrite E;
      match goal with
      | |- context [bind (Normal t) ?k] =>
          change (bind (Normal t) k) with (k t); cbv beta
      end
  end.

Lemma showCongratulations_returns (percentage : number) :
  exists block : string,
    showCongratulations percentage = Normal block
    /\ (band_of percentage = Lowest -> block = "").
Proof.
  unfold showCongratulations. rewrite congratulations_message_band.
  destruct (celebration (band_of percentage)) as [[message emojis]|] eqn:C.
  - toFixed_returns as score Es. eexists. split; [reflexivity|].
    intros L. rewrite L in C. discriminate C.
  - eexists. split; reflexivity.
Qed.

(** What the semester flow shows. *)
Lemma updateSGPACalculation_shows (pg : page) :
  exists pg' : page,
    updateSGPACalculation pg = Normal pg'
    /\ if isValidGPA (sgpaInput (fields pg))
       then
         exists text : string,
           toFixed (sgpaToPercentage (parseFloat (sgpaInput (fields pg)))) 2
           = Normal text
           /\ sgpaPercentage (shown pg') = text ++ "%"
           /\ sgpaError (shown pg') = false
           /\ rotationSpeed (anim pg')
              = fadd (lit (5 # 1000))
                  (fdiv (sgpaToPercentage (parseFloat (sgpaInput (fields pg))))
                     (lit (1000 # 1)))
           /\ scaleMultiplier (anim pg')
              = fadd (lit (8 # 10))
                  (fdiv (sgpaToPercentage (parseFloat (sgpaInput (fields pg))))
                     (lit (200 # 1)))
       else
         sgpaPercentage (shown pg') = "--%"
         /\ sgpaError (shown pg') = truthy (sgpaInput (fields pg))
         /\ anim pg' = anim pg.
Proof.
  unfold updateSGPACalculation. cbv zeta.
  destruct (isValidGPA (sgpaInput (fields pg))) eqn:V.
  - rewrite (isValidGPA_truthy _ V). change (negb true) with false. cbv iota.
    toFixed_returns as text Et.
    eexists. split; [reflexivity|]. exists text. repeat split.
  - change (negb false) with true.
    destruct (truthy (sgpaInput (fields pg)));
      [change (negb true) with false | change (negb false) with true];
      cbv iota; eexists; (split; [reflexivity|]); repeat split.
Qed.

(** What the yearly flow shows. *)
Lemma updateYGPACalculation_shows (pg : page) :
  exists pg' : page,
    updateYGPACalculation pg = Normal pg'
    /\ if isValidGPA (sgpaOdd (fields pg)) && isValidGPA (sgpaEven (fields pg))
       then
         exists ygpaText percentText : string,
           toFixed
             (calculateYGPA (parseFloat (sgpaOdd (fields pg)))
                (parseFloat (sgpaEven (fields pg)))) 2
           = Normal ygpaText
           /\ toFixed
                (ygpaToPercentage
                   (calculateYGPA (parseFloat (sgpaOdd (fields pg)))
                      (parseFloat (sgpaEven (fields pg))))) 2
              = Normal percentText
           /\ ygpaValue (shown pg') = ygpaText
           /\ ygpaPercentage (shown pg') = percentText ++ "%"
           /\ rotationSpeed (anim pg')
              = fadd (lit (5 # 1000))
                  (fdiv
                     (ygpaToPercentage
                        (calculateYGPA (parseFloat (sgpaOdd (fields pg)))
                           (parseFloat (sgpaEven (fields pg)))))
                     (lit (1000 # 1)))
           /\ scaleMultiplier (anim pg')
              = fadd (lit (8 # 10))
                  (fdiv
                     (ygpaToPercentage
                        (calculateYGPA (parseFloat (sgpaOdd (fields pg)))
                           (parseFloat (sgpaEven (fields pg)))))
                     (lit (200 # 1)))
       else
         ygpaValue (shown pg') = "--"
         /\ ygpaPercentage (shown pg') = "--%"
         /\ anim pg' = anim pg.
Proof.
  unfold updateYGPACalculation. cbv zeta. rewrite ygpa_gate.
  destruct (isValidGPA (sgpaOdd (fields pg))
            && isValidGPA (sgpaEven (fields pg))) eqn:V.
  - change (negb true) with false. cbv iota.
    toFixed_returns as ygpaText Ey. toFixed_returns as percentText Ep.
    eexists. split; [reflexivity|]. exists ygpaText, percentText.
    repeat split.
  - change (negb false) with true. cbv iota.
    eexists. split; [reflexivity|]. repeat split.
Qed.

(** What the results page shows, line by line. *)
Lemma updateResultsPage_shows (pg : page) :
  exists pg' : page,
    updateResultsPage pg = Normal pg'
    /\ (if truthy (sgpaInput (fields pg))
        then toFixed (parseFloat (sgpaInput (fields pg))) 2
             = Normal (result_sgpa (summary pg'))
             /\ toFixed
                  (fmul (fsub (StringToNumber (sgpaInput (fields pg)))
                           (lit (75 # 100))) (lit (10 # 1))) 2
                = Normal (result_sgpa_percent (summary pg'))
        else result_sgpa (summary pg') = "-"
             /\ result_sgpa_percent (summary pg') = "-")
    /\ (if truthy (sgpaOdd (fields pg)) && truthy (sgpaEven (fields pg))
        then toFixed
               (fdiv (fadd (parseFloat (sgpaOdd (fields pg)))
                        (parseFloat (sgpaEven (fields pg)))) (lit (2 # 1))) 2
             = Normal (result_ygpa (summary pg'))
             /\ toFixed
                  (fmul (fsub (StringToNumber (result_ygpa (summary pg')))
                           (lit (75 # 100))) (lit (10 # 1))) 2
                = Normal (result_ygpa_percent (summary pg'))
             /\ (performance_text (summary pg'),
                 performance_text_color (summary pg'))
                = performance_line
                    (band_of (parseFloat (result_ygpa_percent (summary pg'))))
             /\ (band_of (parseFloat (result_ygpa_percent (summary pg')))
                 = Lowest ->
                 congratulations_container (summary pg') = "")
        else result_ygpa (summary pg') = "-"
             /\ result_ygpa_percent (summary pg') = "-").
Proof.
  unfold updateResultsPage. cbv zeta.
  assert (S : exists sg : string * string,
             (if truthy (sgpaInput (fields pg)) then
                sgpaPercent <-
                  toFixed
                    (fmul (fsub (StringToNumber (sgpaInput (fields pg)))
                             (lit (75 # 100))) (lit (10 # 1))) 2 ;;
                sgpaText <- toFixed (parseFloat (sgpaInput (fields pg))) 2 ;;
                Normal (sgpaText, sgpaPercent)
              else Normal ("-", "-")) = Normal sg
             /\ if truthy (sgpaInput (fields pg))
                then toFixed (parseFloat (sgpaInput (fields pg))) 2
                     = Normal (fst sg)
                     /\ toFixed
                          (fmul (fsub (StringToNumber (sgpaInput (fields pg)))
                                   (lit (75 # 100))) (lit (10 # 1))) 2
                        = Normal (snd sg)
                else fst sg = "-" /\ snd sg = "-").
  { destruct (truthy (sgpaInput (fields pg))).
    - toFixed_returns as sgpaPercent Ep. toFixed_returns as sgpaText Et.
      eexists. split; [reflexivity|]. split; reflexivity.
    - eexists. split; [reflexivity|]. split; reflexivity. }
  destruct S as [sg [-> Rs]].
  change (bind (Normal sg) ?k) with (k sg). cbv beta.
  destruct (truthy (sgpaOdd (fields pg)) && truthy (sgpaEven (fields pg))).
  - toFixed_returns as ygpa Ey. toFixed_returns as ygpaPercent Ep.
    destruct (showCongratulations_returns (parseFloat ygpaPercent))
      as [block [-> L]].
    change (bind (Normal block) ?k) with (k block). cbv beta.
    rewrite updatePerformanceText_band.
    eexists. split; [reflexivity|].
    cbv beta iota delta [summary result_sgpa result_sgpa_percent result_ygpa
                           result_ygpa_percent performance_text
                           performance_text_color congratulations_container].
    split; [exact Rs|]. split; [reflexivity|]. split; [exact Ep|].
    split; [|exact L].
    destruct (performance_line (band_of (parseFloat ygpaPercent))); reflexivity.
  - eexists. split; [reflexivity|].
    cbv beta iota delta [summary result_sgpa result_sgpa_percent result_ygpa
                           result_ygpa_percent].
    split; [exact Rs|]. split; reflexivity.
Qed.

End CalculatorFacts.

(** ** The order of the numbers, the error of the percentage and the
    congratulations *)

Module OrderFacts.
Import Number NumberFacts.
Local Open Scope Q_scope.

Lemma ge_le (x y : number) : ge x y = le y x.
Proof.
  destruct x as [|s|s|p], y as [|t|t|q]; unfold ge, le, compare;
    try reflexivity; try (destruct s; reflexivity);
    try (destruct t; reflexivity); try (destruct s, t; reflexivity).
  - rewrite <- (Qcompare_antisym q 0). destruct (q ?= 0); reflexivity.
  - rewrite <- (Qcompare_antisym 0 p). destruct (0 ?= p); reflexivity.
  - rewrite <- (Qcompare_antisym q p). destruct (q ?= p); reflexivity.
Qed.

Lemma le_refl (x : number) : x <> NaN -> le x x = true.
Proof.
  destruct x as [|[]|s|q]; intros H; try reflexivity; [contradiction|].
  apply le_Fin, Qle_refl.
Qed.

Lemma le_infinity_l (s : bool) (y : number) :
  le (Infinity s) y = true -> s = true \/ y = Infinity false.
Proof.
  destruct y as [|[]|t|q]; destruct s; unfold le, compare; intros H;
    try discriminate H; auto.
Qed.

Lemma le_infinity_r (x : number) (t : bool) :
  le x (Infinity t) = true -> t = false \/ x = Infinity true.
Proof.
  destruct x as [|[]|s|q]; destruct t; unfold le, compare; intros H;
    try discriminate H; auto.
Qed.

Lemma le_trans (x y z : number) :
  le x y = true -> le y z = true -> le x z = true.
Proof.
  intros Hxy Hyz.
  destruct (le_not_NaN _ _ Hxy) as [Nx Ny].
  destruct (le_not_NaN _ _ Hyz) as [_ Nz].
  destruct (finite x) eqn:Fx.
  - destruct (finite z) eqn:Fz.
    + destruct (finite y) eqn:Fy.
      * apply le_finite; [exact Fx | exact Fz |].
        apply (le_finite x y Fx Fy) in Hxy. apply (le_finite y z Fy Fz) in Hyz.
        lra.
      * destruct y as [| [] | |]; try discriminate Fy; [contradiction | |].
        -- destruct (le_infinity_r _ _ Hxy) as [E | E]; [discriminate E|].
           subst x. discriminate Fx.
        -- destruct (le_infinity_l _ _ Hyz) as [E | E]; [discriminate E|].
           subst z. discriminate Fz.
    + destruct z as [| [] | |]; try discriminate Fz; [contradiction | |].
      * destruct (le_infinity_r _ _ Hyz) as [E | E]; [discriminate E|]. subst y.
        destruct (le_infinity_r _ _ Hxy) as [E | E]; [discriminate E|]. subst x.
        discriminate Fx.
      * apply le_pos_infinity, Nx.
  - destruct x as [| [] | |]; try discriminate Fx; [contradiction | |].
    + apply le_neg_infinity, Nz.
    + destruct (le_infinity_l _ _ Hxy) as [E | E]; [discriminate E|]. subst y.
      destruct (le_infinity_l _ _ Hyz) as [E | E]; [discriminate E|]. subst z.
      reflexivity.
Qed.

(** A number between two finite numbers is finite, and so is its value. *)
Lemma le_between (a x b : number) :
  finite a = true -> finite b = true ->
  le a x = true -> le x b = true ->
  finite x = true /\ val a <= val x <= val b.
Proof.
  intros Fa Fb H1 H2.
  assert (Fx : finite x = true).
  { destruct x as [|[]|s|q]; try reflexivity.
    - destruct (le_not_NaN _ _ H1) as [_ N]. contradiction.
    - destruct (le_infinity_r _ _ H1) as [E | E]; [discriminate E|].
      subst a. discriminate Fa.
    - destruct (le_infinity_l _ _ H2) as [E | E]; [discriminate E|].
      subst b. discriminate Fb. }
  split; [exact Fx|].
  apply (le_finite a x Fa Fx) in H1. apply (le_finite x b Fx Fb) in H2.
  split; assumption.
Qed.

End OrderFacts.

Module PercentageFacts.
Import Number JSString Calculator NumberFacts CalculatorFacts OrderFacts.
Local Open Scope Q_scope.




End PercentageFacts.

Module CongratulationsFacts.
Import Number JSString Calculator NumberFacts JSStringFacts CalculatorFacts.
Local Open Scope string_scope.




End CongratulationsFacts.

(** ** The properties of the specification *)

Import Number JSString Calculator NumberFacts JSStringFacts CalculatorFacts.
Import PercentageFacts CongratulationsFacts.
Local Open Scope string_scope.

(** C2. [isValidGPA] holds of a text exactly when [parseFloat] reads a
    finite number from it and that number lies in the closed interval
    from 0 to 10.  The empty text and text that is no number are not
    valid, and of the texts [10], [10.01], [-0.1] and [abc] only the
    first is valid. *)
Theorem isValidGPA_finite_in_range :
  (forall raw : string,
     isValidGPA raw = true
     <-> exists q : Q, value (parseFloat raw) = Some q /\ (0 <= q <= 10 # 1)%Q)
  /\ isValidGPA "" = false
  /\ isValidGPA "10" = true
  /\ isValidGPA "10.01" = false
  /\ isValidGPA "-0.1" = false
  /\ isValidGPA "abc" = false.
Proof.
  split; [exact isValidGPA_iff|].
  split; [vm_compute; reflexivity|].
  split; [vm_compute; reflexivity|].
  split; [vm_compute; reflexivity|].
  split; vm_compute; reflexivity.
Qed.

(** C9. Validity is decided by the longest leading part of the text that
    is a decimal literal, whatever follows it: the text [7abc], and
    [7abc] followed by anything, is valid although as a whole it is not
    a number; a text followed by a character that no numeric literal has,
    and by anything after it, is as valid as the text itself. *)
Theorem isValidGPA_decided_by_prefix :
  (exists raw : string, isValidGPA raw = true /\ StringToNumber raw = NaN)
  /\ (forall tail : string, isValidGPA ("7abc" ++ tail) = true)
  /\ (forall (raw : string) (l : literal) (rest : string),
        scan_literal (trim_start raw) = Some (l, rest) ->
        (isValidGPA raw = true
         <-> exists q : Q,
               value (literal_value l) = Some q /\ (0 <= q <= 10 # 1)%Q))
  /\ (forall (raw : string) (c : ascii) (tail : string),
        inert c = true ->
        parseFloat (raw ++ String c tail) = parseFloat raw
        /\ isValidGPA (raw ++ String c tail) = isValidGPA raw).
Proof.
  split; [|split; [|split]].
  - exists "7abc". split; vm_compute; reflexivity.
  - intros tail. vm_compute. reflexivity.
  - intros raw l rest H. rewrite isValidGPA_iff.
    unfold parseFloat. rewrite H. reflexivity.
  - intros raw c tail I. unfold isValidGPA.
    rewrite (parseFloat_app c tail I raw). split; reflexivity.
Qed.

Lemma isValidGPA_decided_by_prefix_witness :
  (isValidGPA "7abc" = true
   <-> exists q : Q,
         value (literal_value (LitDecimal false 7 0)) = Some q
         /\ (0 <= q <= 10 # 1)%Q)
  /\ parseFloat ("7" ++ String "a" "bc") = parseFloat "7"
  /\ isValidGPA ("7" ++ String "a" "bc") = isValidGPA "7".
Proof.
  destruct isValidGPA_decided_by_prefix as [_ [_ [P A]]].
  split.
  - apply (P "7abc" _ "abc"). reflexivity.
  - apply (A "7" "a"%char "bc"). reflexivity.
Defined.




(** C7. The yearly grade point is the mean [(a + b) / 2] of the two
    semester grade points, in binary64 arithmetic, and does not depend
    on their order; the mean of 8 and 9 is 8.5, whose percentage is
    77.5; and when [a] and [b] are multiples of one power of two whose
    sum has less than 53 bits, it is the exact rational mean. *)
Theorem calculateYGPA_mean :
  (forall a b : number, calculateYGPA a b = fdiv (fadd a b) (lit (2 # 1)))
  /\ (forall a b : number, calculateYGPA a b = calculateYGPA b a)
  /\ calculateYGPA (lit (8 # 1)) (lit (9 # 1)) = Fin (17 # 2)
  /\ sgpaToPercentage (Fin (17 # 2)) = Fin (155 # 2)
  /\ ygpaToPercentage (Fin (17 # 2)) = Fin (155 # 2)
  /\ (forall (a b : number) (na nb j : Z),
        finite a = true -> finite b = true ->
        (Z.abs (na + nb) < 2 ^ 53)%Z -> (0 <= j < 1074)%Z ->
        (val a == inject_Z na * pow2 (- j))%Q ->
        (val b == inject_Z nb * pow2 (- j))%Q ->
        finite (calculateYGPA a b) = true
        /\ (val (calculateYGPA a b) == (val a + val b) / (2 # 1))%Q).
Proof.
  split; [reflexivity|].
  split; [intros a b; unfold calculateYGPA; rewrite (fadd_comm a b); reflexivity|].
  split; [vm_compute; reflexivity|].
  split; [vm_compute; reflexivity|].
  split; [vm_compute; reflexivity|].
  intros a b na nb j Fa Fb Hn Hj Ha Hb.
  apply (ygpa_exact a b na nb j); assumption.
Qed.

Lemma calculateYGPA_mean_witness :
  finite (calculateYGPA (lit (8 # 1)) (lit (9 # 1))) = true
  /\ (val (calculateYGPA (lit (8 # 1)) (lit (9 # 1)))
      == (val (lit (8 # 1)) + val (lit (9 # 1))) / (2 # 1))%Q.
Proof.
  apply (proj2 (proj2 (proj2 (proj2 (proj2 calculateYGPA_mean))))
           (lit (8 # 1)) (lit (9 # 1)) 8%Z 9%Z 0%Z).
  - vm_compute. reflexivity.
  - vm_compute. reflexivity.
  - vm_compute. reflexivity.
  - lia.
  - vm_compute. reflexivity.
  - vm_compute. reflexivity.
Defined.

(** C5. When the semester flow or the yearly flow computes a percentage
    [p], it sets the rotation speed to [0.005 + p / 1000] and the scale
    multiplier to [0.8 + p / 200]; neither of the two decreases when [p]
    grows. *)
Theorem animation_parameters_follow_percentage :
  (forall pg : page,
     isValidGPA (sgpaInput (fields pg)) = true ->
     exists pg' : page,
       updateSGPACalculation pg = Normal pg'
       /\ rotationSpeed (anim pg')
          = fadd (lit (5 # 1000))
              (fdiv (sgpaToPercentage (parseFloat (sgpaInput (fields pg))))
                 (lit (1000 # 1)))
       /\ scaleMultiplier (anim pg')
          = fadd (lit (8 # 10))
              (fdiv (sgpaToPercentage (parseFloat (sgpaInput (fields pg))))
                 (lit (200 # 1))))
  /\ (forall pg : page,
        isValidGPA (sgpaOdd (fields pg)) = true ->
        isValidGPA (sgpaEven (fields pg)) = true ->
        exists pg' : page,
          updateYGPACalculation pg = Normal pg'
          /\ rotationSpeed (anim pg')
             = fadd (lit (5 # 1000))
                 (fdiv
                    (ygpaToPercentage
                       (calculateYGPA (parseFloat (sgpaOdd (fields pg)))
                          (parseFloat (sgpaEven (fields pg)))))
                    (lit (1000 # 1)))
          /\ scaleMultiplier (anim pg')
             = fadd (lit (8 # 10))
                 (fdiv
                    (ygpaToPercentage
                       (calculateYGPA (parseFloat (sgpaOdd (fields pg)))
                          (parseFloat (sgpaEven (fields pg)))))
                    (lit (200 # 1))))
  /\ (forall p1 p2 : number,
        le p1 p2 = true ->
        le (fadd (lit (5 # 1000)) (fdiv p1 (lit (1000 # 1))))
           (fadd (lit (5 # 1000)) (fdiv p2 (lit (1000 # 1)))) = true
        /\ le (fadd (lit (8 # 10)) (fdiv p1 (lit (200 # 1))))
              (fadd (lit (8 # 10)) (fdiv p2 (lit (200 # 1)))) = true).
Proof.
  split; [|split].
  - intros pg V. destruct (updateSGPACalculation_shows pg) as [pg' [E R]].
    rewrite V in R. destruct R as [text [_ [_ [_ [R1 R2]]]]].
    exists pg'. auto.
  - intros pg Vo Ve. destruct (updateYGPACalculation_shows pg) as [pg' [E R]].
    rewrite Vo, Ve in R. cbv beta iota delta [andb] in R.
    destruct R as [ygpaText [percentText [_ [_ [_ [_ [R1 R2]]]]]]].
    exists pg'. auto.
  - intros p1 p2 H. split.
    + apply rotationSpeed_mono, H.
    + apply scaleMultiplier_mono, H.
Qed.

Lemma animation_parameters_follow_percentage_witness :
  (exists pg' : page,
     updateSGPACalculation (page_with "8.5" "" "") = Normal pg'
     /\ rotationSpeed (anim pg')
        = fadd (lit (5 # 1000))
            (fdiv (sgpaToPercentage (parseFloat "8.5")) (lit (1000 # 1)))
     /\ scaleMultiplier (anim pg')
        = fadd (lit (8 # 10))
            (fdiv (sgpaToPercentage (parseFloat "8.5")) (lit (200 # 1))))
  /\ (exists pg' : page,
        updateYGPACalculation (page_with "" "8" "9") = Normal pg'
        /\ rotationSpeed (anim pg')
           = fadd (lit (5 # 1000))
               (fdiv
                  (ygpaToPercentage
                     (calculateYGPA (parseFloat "8") (parseFloat "9")))
                  (lit (1000 # 1)))
        /\ scaleMultiplier (anim pg')
           = fadd (lit (8 # 10))
               (fdiv
                  (ygpaToPercentage
                     (calculateYGPA (parseFloat "8") (parseFloat "9")))
                  (lit (200 # 1))))
  /\ le (fadd (lit (5 # 1000)) (fdiv (lit (60 # 1)) (lit (1000 # 1))))
        (fadd (lit (5 # 1000)) (fdiv (lit (70 # 1)) (lit (1000 # 1)))) = true
  /\ le (fadd (lit (8 # 10)) (fdiv (lit (60 # 1)) (lit (200 # 1))))
        (fadd (lit (8 # 10)) (fdiv (lit (70 # 1)) (lit (200 # 1)))) = true.
Proof.
  destruct animation_parameters_follow_percentage as [S [Y M]].
  split; [|split].
  - apply (S (page_with "8.5" "" "")). vm_compute. reflexivity.
  - apply (Y (page_with "" "8" "9")); vm_compute; reflexivity.
  - apply (M (lit (60 # 1)) (lit (70 # 1))). vm_compute. reflexivity.
Defined.

(** C4. The yearly flow computes and shows the yearly grade point and
    its percentage exactly when both texts are valid grade points, and
    the texts it shows then are not the placeholders.  Otherwise it
    shows the placeholders and leaves the rotation speed and the scale
    multiplier, and the colours of the spheres, as they were.  With the
    odd text [7] and the even text empty the placeholders are shown. *)
Theorem yearly_result_needs_both_valid :
  (forall pg : page,
     exists pg' : page,
       updateYGPACalculation pg = Normal pg'
       /\ if isValidGPA (sgpaOdd (fields pg)) && isValidGPA (sgpaEven (fields pg))
          then
            exists ygpaText percentText : string,
              toFixed
                (calculateYGPA (parseFloat (sgpaOdd (fields pg)))
                   (parseFloat (sgpaEven (fields pg)))) 2 = Normal ygpaText
              /\ toFixed
                   (ygpaToPercentage
                      (calculateYGPA (parseFloat (sgpaOdd (fields pg)))
                         (parseFloat (sgpaEven (fields pg))))) 2
                 = Normal percentText
              /\ ygpaValue (shown pg') = ygpaText
              /\ ygpaPercentage (shown pg') = percentText ++ "%"
              /\ ygpaValue (shown pg') <> "--"
              /\ ygpaPercentage (shown pg') <> "--%"
          else
            ygpaValue (shown pg') = "--"
            /\ ygpaPercentage (shown pg') = "--%"
            /\ rotationSpeed (anim pg') = rotationSpeed (anim pg)
            /\ scaleMultiplier (anim pg') = scaleMultiplier (anim pg)
            /\ anim pg' = anim pg)
  /\ (forall pg pg' : page,
        sgpaOdd (fields pg) = "7" -> sgpaEven (fields pg) = "" ->
        updateYGPACalculation pg = Normal pg' ->
        ygpaValue (shown pg') = "--"
        /\ ygpaPercentage (shown pg') = "--%"
        /\ anim pg' = anim pg).
Proof.
  assert (G : forall pg : page,
             exists pg' : page,
               updateYGPACalculation pg = Normal pg'
               /\ if isValidGPA (sgpaOdd (fields pg))
                     && isValidGPA (sgpaEven (fields pg))
                  then
                    exists ygpaText percentText : string,
                      toFixed
                        (calculateYGPA (parseFloat (sgpaOdd (fields pg)))
                           (parseFloat (sgpaEven (fields pg)))) 2
                      = Normal ygpaText
                      /\ toFixed
                           (ygpaToPercentage
                              (calculateYGPA (parseFloat (sgpaOdd (fields pg)))
                                 (parseFloat (sgpaEven (fields pg))))) 2
                         = Normal percentText
                      /\ ygpaValue (shown pg') = ygpaText
                      /\ ygpaPercentage (shown pg') = percentText ++ "%"
                      /\ ygpaValue (shown pg') <> "--"
                      /\ ygpaPercentage (shown pg') <> "--%"
                  else
                    ygpaValue (shown pg') = "--"
                    /\ ygpaPercentage (shown pg') = "--%"
                    /\ rotationSpeed (anim pg') = rotationSpeed (anim pg)
                    /\ scaleMultiplier (anim pg') = scaleMultiplier (anim pg)
                    /\ anim pg' = anim pg).
  { intros pg. destruct (updateYGPACalculation_shows pg) as [pg' [E R]].
    exists pg'. split; [exact E|].
    destruct (isValidGPA (sgpaOdd (fields pg))
              && isValidGPA (sgpaEven (fields pg))).
    - destruct R as [t [u [Et [Eu [Rt [Ru _]]]]]]. exists t, u.
      destruct (placeholder_dashes t (toFixed_has_non_dash _ _ Et)) as [T1 _].
      destruct (placeholder_dashes u (toFixed_has_non_dash _ _ Eu))
        as [_ [U2 _]].
      rewrite Rt, Ru. auto 10.
    - destruct R as [R1 [R2 R3]]. rewrite R3. auto. }
  split; [exact G|].
  intros pg pg' Ho He H. destruct (G pg) as [pg2 [E R]].
  rewrite Ho, He in R. rewrite E in H. injection H as <-.
  replace (isValidGPA "7" && isValidGPA "") with false in R
    by (vm_compute; reflexivity).
  destruct R as [R1 [R2 [_ [_ R3]]]]. auto.
Qed.

Lemma yearly_result_needs_both_valid_witness :
  exists pg' : page,
    updateYGPACalculation (page_with "" "7" "") = Normal pg'
    /\ ygpaValue (shown pg') = "--"
    /\ ygpaPercentage (shown pg') = "--%"
    /\ anim pg' = anim (page_with "" "7" "").
Proof.
  destruct (proj1 yearly_result_needs_both_valid (page_with "" "7" ""))
    as [pg' [E _]].
  exists pg'. split; [exact E|].
  apply (proj2 yearly_result_needs_both_valid (page_with "" "7" "") pg');
    [reflexivity | reflexivity | exact E].
Defined.




(** C8. No flow throws, whatever the texts of the fields: the flows of
    the two calculators and the results page return a page, and
    [toFixed] with two digits returns a text.  The conversions pass NaN
    on.  The validator answers every text, and text that is no number is
    answered [false]: the semester flow then shows the placeholder and
    the error indicator, and leaves the animation as it was. *)
Theorem flows_never_throw :
  (forall pg : page, exists pg' : page, updateSGPACalculation pg = Normal pg')
  /\ (forall pg : page, exists pg' : page, updateYGPACalculation pg = Normal pg')
  /\ (forall pg : page, exists pg' : page, updateResultsPage pg = Normal pg')
  /\ (forall (pageName : string) (pg : page),
        exists pg' : page, switchPage pageName pg = Normal pg')
  /\ (forall (x : number), exists s : string, toFixed x 2 = Normal s)
  /\ (sgpaToPercentage NaN = NaN /\ ygpaToPercentage NaN = NaN
      /\ forall a : number, calculateYGPA NaN a = NaN /\ calculateYGPA a NaN = NaN)
  /\ (forall raw : string,
        scan_literal (trim_start raw) = None ->
        parseFloat raw = NaN /\ isValidGPA raw = false)
  /\ (forall pg : page,
        isValidGPA (sgpaInput (fields pg)) = false ->
        exists pg' : page,
          updateSGPACalculation pg = Normal pg'
          /\ sgpaPercentage (shown pg') = "--%"
          /\ sgpaError (shown pg') = truthy (sgpaInput (fields pg))
          /\ anim pg' = anim pg).
Proof.
  split; [intros pg; destruct (updateSGPACalculation_shows pg) as [pg' [E _]]; eauto|].
  split; [intros pg; destruct (updateYGPACalculation_shows pg) as [pg' [E _]]; eauto|].
  split; [intros pg; destruct (updateResultsPage_shows pg) as [pg' [E _]]; eauto|].
  split.
  { intros pageName pg. unfold switchPage.
    destruct (String.eqb pageName "results"); [|eauto].
    destruct (updateResultsPage_shows pg) as [pg' [E _]]; eauto. }
  split; [exact toFixed_2|].
  split.
  { split; [reflexivity|]. split; [reflexivity|].
    intros a. split; [reflexivity|]. destruct a; reflexivity. }
  split.
  { intros raw H. unfold isValidGPA, parseFloat. rewrite H. split; reflexivity. }
  intros pg V. destruct (updateSGPACalculation_shows pg) as [pg' [E R]].
  rewrite V in R. exists pg'. auto.
Qed.

Lemma flows_never_throw_witness :
  (parseFloat "abc" = NaN /\ isValidGPA "abc" = false)
  /\ exists pg' : page,
       updateSGPACalculation (page_with "abc" "" "") = Normal pg'
       /\ sgpaPercentage (shown pg') = "--%"
       /\ sgpaError (shown pg') = truthy "abc"
       /\ anim pg' = anim (page_with "abc" "" "").
Proof.
  destruct flows_never_throw as [_ [_ [_ [_ [_ [_ [P S]]]]]]].
  split.
  - apply P. vm_compute. reflexivity.
  - apply (S (page_with "abc" "" "")). vm_compute. reflexivity.
Defined.

(** C10. The results page takes the yearly percentage from the yearly
    grade point as shown, rounded to two decimals: it is
    [(round2 ((odd + even) / 2) - 0.75) * 10], with two decimals.  The
    yearly flow takes it from the mean itself.  For the valid texts
    [8.001] and [8.003] the results page shows 72.50 and the yearly flow
    72.52. *)
Theorem results_percentage_from_rounded_ygpa :
  (forall pg : page,
     truthy (sgpaOdd (fields pg)) = true ->
     truthy (sgpaEven (fields pg)) = true ->
     exists (pg' : page) (ygpa : string) (ygpaPercent : string),
       updateResultsPage pg = Normal pg'
       /\ toFixed
            (fdiv (fadd (parseFloat (sgpaOdd (fields pg)))
                     (parseFloat (sgpaEven (fields pg)))) (lit (2 # 1))) 2
          = Normal ygpa
       /\ toFixed
            (fmul (fsub (StringToNumber ygpa) (lit (75 # 100))) (lit (10 # 1))) 2
          = Normal ygpaPercent
       /\ result_ygpa (summary pg') = ygpa
       /\ result_ygpa_percent (summary pg') = ygpaPercent)
  /\ (forall pg : page,
        isValidGPA (sgpaOdd (fields pg)) = true ->
        isValidGPA (sgpaEven (fields pg)) = true ->
        exists (pg' : page) (percentText : string),
          updateYGPACalculation pg = Normal pg'
          /\ toFixed
               (ygpaToPercentage
                  (calculateYGPA (parseFloat (sgpaOdd (fields pg)))
                     (parseFloat (sgpaEven (fields pg))))) 2
             = Normal percentText
          /\ ygpaPercentage (shown pg') = percentText ++ "%")
  /\ (exists pg pg1 pg2 : page,
        isValidGPA (sgpaOdd (fields pg)) = true
        /\ isValidGPA (sgpaEven (fields pg)) = true
        /\ updateYGPACalculation pg = Normal pg1
        /\ updateResultsPage pg = Normal pg2
        /\ ygpaValue (shown pg1) = "8.00"
        /\ result_ygpa (summary pg2) = "8.00"
        /\ ygpaPercentage (shown pg1) = "72.52%"
        /\ result_ygpa_percent (summary pg2) = "72.50").
Proof.
  split; [|split].
  - intros pg To Te. destruct (updateResultsPage_shows pg) as [pg' [E [_ R]]].
    rewrite To, Te in R. cbv beta iota delta [andb] in R.
    destruct R as [R1 [R2 _]].
    exists pg', (result_ygpa (summary pg')), (result_ygpa_percent (summary pg')).
    auto.
  - intros pg Vo Ve.
    destruct (updateYGPACalculation_shows pg) as [pg' [E R]].
    rewrite Vo, Ve in R. cbv beta iota delta [andb] in R.
    destruct R as [t [u [_ [Eu [_ [P _]]]]]].
    exists pg', u. auto.
  - exists (page_with "" "8.001" "8.003").
    destruct (updateYGPACalculation (page_with "" "8.001" "8.003"))
      as [pg1|e] eqn:E1; [|vm_compute in E1; discriminate E1].
    destruct (updateResultsPage (page_with "" "8.001" "8.003"))
      as [pg2|e] eqn:E2; [|vm_compute in E2; discriminate E2].
    exists pg1, pg2.
    vm_compute in E1. injection E1 as <-.
    vm_compute in E2. injection E2 as <-.
    split; [vm_compute; reflexivity|].
    split; [vm_compute; reflexivity|].
    repeat split.
Qed.

Lemma results_percentage_from_rounded_ygpa_witness :
  (exists (pg' : page) (ygpa : string) (ygpaPercent : string),
     updateResultsPage (page_with "" "8.001" "8.003") = Normal pg'
     /\ toFixed
          (fdiv (fadd (parseFloat "8.001") (parseFloat "8.003")) (lit (2 # 1))) 2
        = Normal ygpa
     /\ toFixed
          (fmul (fsub (StringToNumber ygpa) (lit (75 # 100))) (lit (10 # 1))) 2
        = Normal ygpaPercent
     /\ result_ygpa (summary pg') = ygpa
     /\ result_ygpa_percent (summary pg') = ygpaPercent)
  /\ exists (pg' : page) (percentText : string),
       updateYGPACalculation (page_with "" "8.001" "8.003") = Normal pg'
       /\ toFixed
            (ygpaToPercentage
               (calculateYGPA (parseFloat "8.001") (parseFloat "8.003"))) 2
          = Normal percentText
       /\ ygpaPercentage (shown pg') = percentText ++ "%".
Proof.
  destruct results_percentage_from_rounded_ygpa as [R [Y _]].
  split.
  - apply (R (page_with "" "8.001" "8.003")); reflexivity.
  - apply (Y (page_with "" "8.001" "8.003")); vm_compute; reflexivity.
Defined.

(** C1. The results page reads the three texts anew, but what it asks of
    a text is that it is not empty, not that it is a valid grade point:
    its semester line is the placeholder exactly when the text is empty,
    its yearly line exactly when one of the two texts is.  So the text
    [11], which is not valid and for which the semester flow shows the
    placeholder and the error indicator, stands on the results page as
    11.00 with the percentage 102.50; the text [abc] stands there as
    NaN; and the texts [11] and [12] give the yearly grade point 11.50
    with the percentage 107.50, where the yearly flow shows the
    placeholders. *)
Theorem results_page_shows_invalid_text :
  (forall pg : page,
     exists pg' : page,
       updateResultsPage pg = Normal pg'
       /\ (result_sgpa (summary pg') = "-" <-> sgpaInput (fields pg) = "")
       /\ (result_ygpa (summary pg') = "-"
           <-> sgpaOdd (fields pg) = "" \/ sgpaEven (fields pg) = ""))
  /\ isValidGPA "11" = false
  /\ (exists pg' : page,
        updateSGPACalculation (page_with "11" "" "") = Normal pg'
        /\ sgpaPercentage (shown pg') = "--%"
        /\ sgpaError (shown pg') = true)
  /\ (exists pg' : page,
        updateResultsPage (page_with "11" "" "") = Normal pg'
        /\ result_sgpa (summary pg') = "11.00"
        /\ result_sgpa_percent (summary pg') = "102.50")
  /\ isValidGPA "abc" = false
  /\ (exists pg' : page,
        updateResultsPage (page_with "abc" "" "") = Normal pg'
        /\ result_sgpa (summary pg') = "NaN"
        /\ result_sgpa_percent (summary pg') = "NaN")
  /\ isValidGPA "12" = false
  /\ (exists pg' : page,
        updateYGPACalculation (page_with "" "11" "12") = Normal pg'
        /\ ygpaValue (shown pg') = "--"
        /\ ygpaPercentage (shown pg') = "--%")
  /\ (exists pg' : page,
        updateResultsPage (page_with "" "11" "12") = Normal pg'
        /\ result_ygpa (summary pg') = "11.50"
        /\ result_ygpa_percent (summary pg') = "107.50").
Proof.
  split.
  { intros pg. destruct (updateResultsPage_shows pg) as [pg' [E [S Y]]].
    exists pg'. split; [exact E|]. split.
    - destruct (truthy (sgpaInput (fields pg))) eqn:T.
      + destruct S as [S _].
        destruct (placeholder_dashes _ (toFixed_has_non_dash _ _ S)) as [_ [_ N]].
        split; [intros H; contradiction|].
        intros H. rewrite H in T. discriminate T.
      + destruct S as [S _]. apply truthy_empty in T. tauto.
    - destruct (truthy (sgpaOdd (fields pg))) eqn:To;
        destruct (truthy (sgpaEven (fields pg))) eqn:Te;
        cbv beta iota delta [andb] in Y; destruct Y as [Y _].
      + destruct (placeholder_dashes _ (toFixed_has_non_dash _ _ Y)) as [_ [_ N]].
        split; [intros H; contradiction|].
        intros [H | H]; [rewrite H in To; discriminate To
                        | rewrite H in Te; discriminate Te].
      + apply truthy_empty in Te. tauto.
      + apply truthy_empty in To. tauto.
      + apply truthy_empty in To. tauto. }
  split; [vm_compute; reflexivity|].
  split; [eexists; split; [vm_compute; reflexivity | split; reflexivity]|].
  split; [eexists; split; [vm_compute; reflexivity | split; reflexivity]|].
  split; [vm_compute; reflexivity|].
  split; [eexists; split; [vm_compute; reflexivity | split; reflexivity]|].
  split; [vm_compute; reflexivity|].
  split; [eexists; split; [vm_compute; reflexivity | split; reflexivity]|].
  eexists; split; [vm_compute; reflexivity | split; reflexivity].
Qed.

(** * Further properties of the code *)

(** ** Lemmas *)

Local Open Scope Z_scope.

Module RangeFacts.
Import Number JSString Calculator NumberFacts JSStringFacts CalculatorFacts.
Import OrderFacts.
Local Open Scope Q_scope.

(** What [parseFloat] returns is a binary64 value. *)
Lemma parseFloat_binary64 (s : string) : binary64 (parseFloat s).
Proof.
  unfold parseFloat. destruct (scan_literal (trim_start s)) as [[l r]|]; [|exact I].
  destruct l as [neg | neg m e]; [exact I|]. apply round64_binary64.
Qed.

(** A valid text is read as a number from 0 to 10. *)
Lemma isValidGPA_between (s : string) :
  isValidGPA s = true ->
  le (lit 0) (parseFloat s) = true /\ le (parseFloat s) (lit (10 # 1)) = true.
Proof.
  unfold isValidGPA. cbv zeta. intros H.
  apply andb_true_iff in H. destruct H as [H H2].
  apply andb_true_iff in H. destruct H as [_ H1].
  rewrite ge_le in H1. split; assumption.
Qed.

(** Addition keeps the order, in its second argument and in both. *)
Lemma fadd_mono_r (a x y : number) :
  binary64 a -> finite a = true -> le x y = true ->
  le (fadd a x) (fadd a y) = true.
Proof.
  intros B F H. destruct a as [|s|s|c]; try discriminate F.
  - destruct x as [|u|u|p], y as [|v|v|q]; cbn [fadd]; exact H.
  - apply fadd_mono; [apply round64_idem, B | exact H].
Qed.

Lemma fadd_mono_both (a b c d : number) :
  binary64 a -> finite a = true -> binary64 d -> finite d = true ->
  le a c = true -> le b d = true -> le (fadd a b) (fadd c d) = true.
Proof.
  intros Ba Fa Bd Fd H1 H2.
  apply le_trans with (fadd a d).
  - apply fadd_mono_r; assumption.
  - rewrite (fadd_comm a d), (fadd_comm c d). apply fadd_mono_r; assumption.
Qed.

Lemma calculateYGPA_mono (a b c d : number) :
  binary64 a -> finite a = true -> binary64 d -> finite d = true ->
  le a c = true -> le b d = true ->
  le (calculateYGPA a b) (calculateYGPA c d) = true.
Proof.
  intros Ba Fa Bd Fd H1 H2. unfold calculateYGPA. rewrite lit_2.
  apply fdiv_mono; [reflexivity|]. apply fadd_mono_both; assumption.
Qed.

(** The mean of a number and itself is the number, short of overflow. *)
Lemma calculateYGPA_same (a : number) :
  binary64 a -> le (lit 0) a = true -> le a (lit (10 # 1)) = true ->
  calculateYGPA a a = a.
Proof.
  intros B H0 H10. rewrite lit_0 in H0. rewrite lit_10 in H10.
  destruct (le_between (Zero false) a (Fin (10 # 1)) eq_refl eq_refl H0 H10)
    as [F [V0 V10]].
  unfold calculateYGPA. rewrite lit_2.
  destruct a as [|s|s|q]; try discriminate F.
  - cbn [fadd fdiv is_neg]. destruct s; reflexivity.
  - cbn [val] in V0, V10. destruct B as [R [m [e [Hm [He V]]]]].
    assert (Q0 : 0 < q).
    { destruct (Qlt_le_dec 0 q) as [L | L]; [exact L|].
      assert (Z0 : q == 0) by lra. rewrite V in Z0.
      apply Qmult_integral in Z0. destruct Z0 as [Z0 | Z0].
      - unfold Qeq in Z0. cbn in Z0. lia.
      - pose proof (pow2_pos e). lra. }
    assert (M0 : (0 < m)%Z).
    { apply Z.nle_gt. intros M. apply (Qlt_not_le _ _ Q0). rewrite V.
      rewrite <- (Qmult_0_l (pow2 e)).
      apply Qmult_le_compat_r; [|apply Qlt_le_weak, pow2_pos].
      change 0 with (inject_Z 0). rewrite <- Zle_Qle. exact M. }
    assert (E4 : (e < 4)%Z).
    { apply Z.nle_gt. intros E.
      assert (pow2 4 <= q).
      { rewrite V. apply Qle_trans with (inject_Z 1 * pow2 e).
        - change (inject_Z 1) with 1. rewrite Qmult_1_l. apply pow2_le, E.
        - apply Qmult_le_compat_r; [|apply Qlt_le_weak, pow2_pos].
          rewrite <- Zle_Qle. lia. }
      change (pow2 4) with (16 # 1) in H. lra. }
    cbn [fadd].
    assert (S : round64 false (q + q) = Fin (Qred (q + q))).
    { apply (round64_exact false (q + q) m (e + 1)).
      - exact Hm.
      - unfold emin, emax in *. lia.
      - rewrite V, pow2_add. change (pow2 1) with (2 # 1). ring. }
    rewrite S. cbn [fdiv].
    rewrite (round64_eq _ (Qred (q + q) / (2 # 1)) q).
    + apply round64_idem. split; [exact R|]. exists m, e. auto.
    + rewrite Qred_correct. field.
Qed.

(** The yearly grade point of two valid texts lies between the two
    grade points read. *)
Lemma calculateYGPA_between (a b : number) :
  binary64 a -> binary64 b ->
  le (lit 0) a = true -> le a b = true -> le b (lit (10 # 1)) = true ->
  le a (calculateYGPA a b) = true /\ le (calculateYGPA a b) b = true.
Proof.
  intros Ba Bb H0 Hab H10.
  assert (A10 : le a (lit (10 # 1)) = true) by (eapply le_trans; eassumption).
  assert (B0 : le (lit 0) b = true) by (eapply le_trans; eassumption).
  rewrite lit_0 in H0, B0. rewrite lit_10 in H10, A10.
  destruct (le_between (Zero false) a (Fin (10 # 1)) eq_refl eq_refl H0 A10)
    as [Fa _].
  destruct (le_between (Zero false) b (Fin (10 # 1)) eq_refl eq_refl B0 H10)
    as [Fb _].
  assert (Na : a <> NaN) by (intros ->; discriminate Fa).
  assert (Nb : b <> NaN) by (intros ->; discriminate Fb).
  rewrite <- lit_0 in H0, B0. rewrite <- lit_10 in H10, A10.
  split.
  - rewrite <- (calculateYGPA_same a Ba H0 A10) at 1.
    apply calculateYGPA_mono; try assumption. apply le_refl, Na.
  - rewrite <- (calculateYGPA_same b Bb B0 H10) at 2.
    apply calculateYGPA_mono; try assumption. apply le_refl, Nb.
Qed.

End RangeFacts.

Module AnimationFacts.
Import Number JSString Calculator NumberFacts JSStringFacts CalculatorFacts.
Import OrderFacts RangeFacts.
Local Open Scope Q_scope.

(** The percentage of a grade point from 0 to 10 is from -7.5 to 92.5. *)
Lemma percentage_range (g : number) :
  le (lit 0) g = true -> le g (lit (10 # 1)) = true ->
  le (Fin (- 15 # 2)) (sgpaToPercentage g) = true
  /\ le (sgpaToPercentage g) (Fin (185 # 2)) = true.
Proof.
  intros H0 H10. split.
  - replace (Fin (- 15 # 2)) with (sgpaToPercentage (lit 0))
      by (vm_compute; reflexivity).
    apply percentage_mono, H0.
  - replace (Fin (185 # 2)) with (sgpaToPercentage (lit (10 # 1)))
      by (vm_compute; reflexivity).
    apply percentage_mono, H10.
Qed.

(** The rotation speed and the scale multiplier of such a percentage. *)
Lemma animation_range (p : number) :
  le (Fin (- 15 # 2)) p = true -> le p (Fin (185 # 2)) = true ->
  let speed := fadd (lit (5 # 1000)) (fdiv p (lit (1000 # 1))) in
  let scale := fadd (lit (8 # 10)) (fdiv p (lit (200 # 1))) in
  finite speed = true /\ - (25 # 10000) <= val speed <= 976 # 10000
  /\ finite scale = true /\ 7625 # 10000 <= val scale <= 12626 # 10000.
Proof.
  intros Hl Hu speed scale.
  pose proof (rotationSpeed_mono _ _ Hl) as S1.
  pose proof (rotationSpeed_mono _ _ Hu) as S2.
  pose proof (scaleMultiplier_mono _ _ Hl) as M1.
  pose proof (scaleMultiplier_mono _ _ Hu) as M2.
  fold speed in S1, S2. fold scale in M1, M2.
  set (s1 := fadd (lit (5 # 1000)) (fdiv (Fin (- 15 # 2)) (lit (1000 # 1)))) in *.
  set (s2 := fadd (lit (5 # 1000)) (fdiv (Fin (185 # 2)) (lit (1000 # 1)))) in *.
  set (m1 := fadd (lit (8 # 10)) (fdiv (Fin (- 15 # 2)) (lit (200 # 1)))) in *.
  set (m2 := fadd (lit (8 # 10)) (fdiv (Fin (185 # 2)) (lit (200 # 1)))) in *.
  assert (F1 : finite s1 = true) by (vm_compute; reflexivity).
  assert (F2 : finite s2 = true) by (vm_compute; reflexivity).
  assert (G1 : finite m1 = true) by (vm_compute; reflexivity).
  assert (G2 : finite m2 = true) by (vm_compute; reflexivity).
  destruct (le_between s1 speed s2 F1 F2 S1 S2) as [Fs [Vs1 Vs2]].
  destruct (le_between m1 scale m2 G1 G2 M1 M2) as [Fm [Vm1 Vm2]].
  assert (B1 : - (25 # 10000) <= val s1)
    by (apply Qle_bool_imp_le; vm_compute; reflexivity).
  assert (B2 : val s2 <= 976 # 10000)
    by (apply Qle_bool_imp_le; vm_compute; reflexivity).
  assert (B3 : 7625 # 10000 <= val m1)
    by (apply Qle_bool_imp_le; vm_compute; reflexivity).
  assert (B4 : val m2 <= 12626 # 10000)
    by (apply Qle_bool_imp_le; vm_compute; reflexivity).
  clearbody s1 s2 m1 m2 speed scale.
  repeat split; try assumption; lra.
Qed.

End AnimationFacts.

Module HueFacts.
Import Number JSString Calculator NumberFacts JSStringFacts CalculatorFacts.
Import OrderFacts RangeFacts.
Local Open Scope Q_scope.

Lemma lit_1 : lit 1 = Fin 1.
Proof. vm_compute. reflexivity. Qed.

Lemma binary64_nonzero (q : Q) : binary64 (Fin q) -> ~ q == 0.
Proof.
  intros [_ [m [e [Hm [_ V]]]]] Z. rewrite V in Z.
  apply Qmult_integral in Z. destruct Z as [Z | Z].
  - unfold Qeq in Z. cbn in Z. lia.
  - pose proof (pow2_pos e). lra.
Qed.

(** The floor of a multiple of a negative power of two. *)
Lemma Qfloor_grid (m j : Z) :
  (0 <= j)%Z -> Qfloor (inject_Z m * pow2 (- j)) = (m / 2 ^ j)%Z.
Proof.
  intros Hj.
  assert (P : (0 < 2 ^ j)%Z) by (apply Z.pow_pos_nonneg; lia).
  assert (E : inject_Z m * pow2 (- j) == m # Z.to_pos (2 ^ j)).
  { rewrite (Qmake_Qdiv m (Z.to_pos (2 ^ j))). rewrite Z2Pos.id by exact P.
    rewrite pow2_Z by exact Hj.
    assert (U : pow2 (- j) * pow2 j == 1).
    { rewrite <- pow2_add. replace (- j + j)%Z with 0%Z by lia. reflexivity. }
    pose proof (pow2_pos j) as N.
    apply (Qmult_inj_r _ _ (pow2 j)); [lra|].
    setoid_replace (inject_Z m * pow2 (- j) * pow2 j)
      with (inject_Z m * (pow2 (- j) * pow2 j)) by ring.
    rewrite U. field. lra. }
  rewrite (Qfloor_comp _ _ E). unfold Qfloor. rewrite Z2Pos.id by exact P.
  reflexivity.
Qed.

(** The remainder of a non-negative binary64 number by 1 is its
    fractional part, without rounding. *)
Lemma frem_one (x : number) :
  binary64 x -> finite x = true -> 0 <= val x ->
  finite (frem x (Fin 1)) = true
  /\ val (frem x (Fin 1)) == val x - inject_Z (Qfloor (val x)).
Proof.
  intros B F P. destruct x as [|s|s|p]; try discriminate F.
  - cbn [frem finite val]. split; reflexivity.
  - cbn [val] in *. cbn [frem].
    assert (T : Qtrunc (p / 1) = Qfloor p).
    { unfold Qtrunc.
      assert (E : p / 1 == p) by (field).
      rewrite (Qfloor_comp _ _ E).
      assert (L : Qle_bool 0 (p / 1) = true) by (apply Qle_bool_iff; lra).
      rewrite L. reflexivity. }
    rewrite T.
    destruct B as [_ [m [e [Hm [He V]]]]].
    destruct (Z_le_gt_dec 0 e) as [E | E].
    + (* an integer *)
      assert (I : p == inject_Z (m * 2 ^ e)).
      { rewrite V, inject_Z_mult, pow2_Z by exact E. reflexivity. }
      assert (Fl : Qfloor p = (m * 2 ^ e)%Z).
      { rewrite (Qfloor_comp _ _ I). apply Qfloor_Z. }
      rewrite Fl.
      destruct (round64_grid (is_neg (Fin p))
                  (p - 1 * inject_Z (m * 2 ^ e)) 0 0) as [F2 V2];
        [cbn; lia | lia | rewrite I; ring |].
      split; [exact F2|]. rewrite V2. ring.
    + assert (Fl : Qfloor p = (m / 2 ^ (- e))%Z).
      { rewrite (Qfloor_comp _ _ V).
        replace e with (- (- e))%Z at 1 by lia. apply Qfloor_grid. lia. }
      rewrite Fl.
      assert (P2 : (0 < 2 ^ (- e))%Z) by (apply Z.pow_pos_nonneg; lia).
      destruct (round64_grid (is_neg (Fin p))
                  (p - 1 * inject_Z (m / 2 ^ (- e))) (m mod 2 ^ (- e)) (- e))
        as [F2 V2].
      * assert (M0 : (0 <= m)%Z).
        { apply Z.nlt_ge. intros M. apply (Qle_not_lt _ _ P). rewrite V.
          setoid_replace 0 with (0 * pow2 e) by ring.
          apply Qmult_lt_compat_r; [apply pow2_pos|].
          change 0 with (inject_Z 0). rewrite <- Zlt_Qlt. exact M. }
        pose proof (Z.mod_pos_bound m (2 ^ (- e)) P2).
        pose proof (Z.mod_le m (2 ^ (- e)) M0 P2).
        unfold prec in Hm. lia.
      * unfold emin, emax, prec in He. lia.
      * rewrite V. rewrite Z.opp_involutive.
        rewrite (Z.div_mod m (2 ^ (- e))) at 1 by lia.
        rewrite inject_Z_plus, inject_Z_mult.
        rewrite (pow2_Z (- e)) by lia.
        assert (U : pow2 (- e) * pow2 e == 1).
        { rewrite <- pow2_add. replace (- e + e)%Z with 0%Z by lia. reflexivity. }
        setoid_replace
          ((pow2 (- e) * inject_Z (m / 2 ^ (- e)) + inject_Z (m mod 2 ^ (- e)))
           * pow2 e - 1 * inject_Z (m / 2 ^ (- e)))
          with (inject_Z (m / 2 ^ (- e)) * (pow2 (- e) * pow2 e)
                + inject_Z (m mod 2 ^ (- e)) * pow2 e
                - inject_Z (m / 2 ^ (- e))) by ring.
        rewrite U. ring.
      * split; [exact F2|]. rewrite V2. ring.
Qed.

Lemma frem_one_range (x : number) :
  binary64 x -> finite x = true -> 0 <= val x ->
  finite (frem x (Fin 1)) = true
  /\ 0 <= val (frem x (Fin 1)) /\ val (frem x (Fin 1)) < 1.
Proof.
  intros B F P. destruct (frem_one x B F P) as [F2 V2].
  split; [exact F2|]. rewrite V2.
  pose proof (Qfloor_le (val x)). pose proof (Qlt_floor (val x)).
  rewrite inject_Z_plus in H0. change (inject_Z 1) with 1 in H0.
  split; lra.
Qed.

End HueFacts.

Module SceneFacts.
Import Number JSString Calculator NumberFacts JSStringFacts CalculatorFacts.
Import OrderFacts RangeFacts HueFacts Scene.
Local Open Scope Q_scope.

Lemma recolor_length (ygpa : number) (l : list sphere) (i : Z) :
  List.length (recolor ygpa i l) = List.length l.
Proof.
  revert i. induction l as [|s l IH]; intros i; cbn [recolor List.length];
    [reflexivity | rewrite IH; reflexivity].
Qed.

(** Sphere [k] of the list takes the hue of its index; what its colours
    were does not matter. *)
Lemma recolor_nth (ygpa : number) (l : list sphere) (i : Z) (k : nat) :
  nth_error (recolor ygpa i l) k
  = option_map (fun _ => painted (hue ygpa (i + Z.of_nat k))) (nth_error l k).
Proof.
  revert i k. induction l as [|s l IH]; intros i k.
  - destruct k; reflexivity.
  - destruct k as [|k]; cbn [recolor nth_error option_map].
    + replace (i + Z.of_nat 0)%Z with i by lia. reflexivity.
    + rewrite IH. replace (i + 1 + Z.of_nat k)%Z with (i + Z.of_nat (S k))%Z by lia.
      reflexivity.
Qed.

Lemma recolor_again (y1 y2 : number) (l : list sphere) (i : Z) :
  recolor y2 i (recolor y1 i l) = recolor y2 i l.
Proof.
  revert i. induction l as [|s l IH]; intros i; cbn [recolor];
    [reflexivity | rewrite IH; reflexivity].
Qed.

(** The hue of a yearly grade point from 0 to 10 is a number from 0 up
    to, but not including, 1. *)
Lemma hue_range (ygpa : number) (index : Z) :
  le (lit 0) ygpa = true -> le ygpa (lit (10 # 1)) = true ->
  (0 <= index <= 2 ^ 53)%Z ->
  finite (hue ygpa index) = true
  /\ 0 <= val (hue ygpa index) /\ val (hue ygpa index) < 1.
Proof.
  intros H0 H10 Hi. unfold hue. rewrite lit_1.
  set (a := fdiv ygpa (lit (10 # 1))).
  set (b := fdiv (of_Z index) sphereCount).
  assert (A1 : le (Zero false) a = true).
  { replace (Zero false) with (fdiv (lit 0) (lit (10 # 1)))
      by (vm_compute; reflexivity).
    unfold a. rewrite lit_10. apply fdiv_mono; [reflexivity | exact H0]. }
  assert (A2 : le a (Fin 1) = true).
  { replace (Fin 1) with (fdiv (lit (10 # 1)) (lit (10 # 1)))
      by (vm_compute; reflexivity).
    unfold a. rewrite lit_10 in H10 |- *.
    apply fdiv_mono; [reflexivity | exact H10]. }
  assert (S20 : sphereCount = Fin (20 # 1)) by (vm_compute; reflexivity).
  set (top := fdiv (of_Z (2 ^ 53)) sphereCount).
  assert (B1 : le (Zero false) b = true).
  { replace (Zero false) with (fdiv (of_Z 0) sphereCount)
      by (vm_compute; reflexivity).
    unfold b. rewrite S20. apply fdiv_mono; [reflexivity|].
    apply round64_mono. rewrite <- Zle_Qle. lia. }
  assert (B2 : le b top = true).
  { unfold b, top. rewrite S20. apply fdiv_mono; [reflexivity|].
    apply round64_mono. rewrite <- Zle_Qle. lia. }
  assert (Ft : finite top = true) by (vm_compute; reflexivity).
  destruct (le_between (Zero false) a (Fin 1) eq_refl eq_refl A1 A2) as [Fa _].
  destruct (le_between (Zero false) b top eq_refl Ft B1 B2) as [Fb _].
  assert (S1 : le (fadd (Zero false) (Zero false)) (fadd a b) = true).
  { exact (fadd_mono_both (Zero false) (Zero false) a b I eq_refl
             (fdiv_binary64 _ _) Fb A1 B1). }
  assert (S2 : le (fadd a b) (fadd (Fin 1) top) = true).
  { exact (fadd_mono_both a b (Fin 1) top (fdiv_binary64 _ _) Fa
             (fdiv_binary64 _ _) Ft A2 B2). }
  assert (Fs : finite (fadd (Fin 1) top) = true) by (vm_compute; reflexivity).
  destruct (le_between (fadd (Zero false) (Zero false)) (fadd a b)
              (fadd (Fin 1) top) eq_refl Fs S1 S2) as [F [V _]].
  apply frem_one_range; [apply fadd_binary64; apply fdiv_binary64 | exact F | exact V].
Qed.

End SceneFacts.

Module FlowFacts.
Import Number JSString Calculator NumberFacts JSStringFacts CalculatorFacts.
Import OrderFacts RangeFacts HueFacts Scene SceneFacts Listeners.
Local Open Scope string_scope.

Lemma Normal_inj (A : Type) (a b : A) : Normal a = Normal b -> a = b.
Proof. intros H. injection H as H. exact H. Qed.

Ltac returned := let H := fresh in intros H; apply Normal_inj in H; subst.

(** What a flow leaves as it was. *)
Lemma updateSGPACalculation_frame (p p' : page) :
  updateSGPACalculation p = Normal p' ->
  fields p' = fields p /\ summary p' = summary p
  /\ ygpaValue (shown p') = ygpaValue (shown p)
  /\ ygpaPercentage (shown p') = ygpaPercentage (shown p)
  /\ oddError (shown p') = oddError (shown p)
  /\ evenError (shown p') = evenError (shown p)
  /\ spheres (anim p') = spheres (anim p).
Proof.
  unfold updateSGPACalculation. cbv zeta.
  destruct (negb (truthy (sgpaInput (fields p)))).
  - returned. repeat split.
  - destruct (negb (isValidGPA (sgpaInput (fields p)))).
    + returned. repeat split.
    + toFixed_returns as text Et. returned. repeat split.
Qed.

Lemma updateYGPACalculation_frame (p p' : page) :
  updateYGPACalculation p = Normal p' ->
  fields p' = fields p /\ summary p' = summary p
  /\ sgpaPercentage (shown p') = sgpaPercentage (shown p)
  /\ sgpaError (shown p') = sgpaError (shown p)
  /\ List.length (spheres (anim p')) = List.length (spheres (anim p)).
Proof.
  unfold updateYGPACalculation. cbv zeta.
  match goal with
  | |- context [if ?b then _ else _] => destruct b
  end.
  - returned. repeat split.
  - toFixed_returns as ygpaText Ey. toFixed_returns as percentText Ep.
    returned. repeat split. apply recolor_length.
Qed.

Lemma updateResultsPage_frame (p p' : page) :
  updateResultsPage p = Normal p' ->
  fields p' = fields p /\ shown p' = shown p /\ anim p' = anim p.
Proof.
  unfold updateResultsPage. cbv zeta.
  destruct (truthy (sgpaInput (fields p))).
  - toFixed_returns as sgpaPercent Ep. toFixed_returns as sgpaText Et.
    change (bind (Normal ?a) ?k) with (k a). cbv beta.
    destruct (truthy (sgpaOdd (fields p)) && truthy (sgpaEven (fields p))).
    + toFixed_returns as ygpa Ey. toFixed_returns as ygpaPercent Eq.
      destruct (showCongratulations_returns (parseFloat ygpaPercent))
        as [block [-> _]].
      returned. repeat split.
    + returned. repeat split.
  - change (bind (Normal ?a) ?k) with (k a). cbv beta.
    destruct (truthy (sgpaOdd (fields p)) && truthy (sgpaEven (fields p))).
    + toFixed_returns as ygpa Ey. toFixed_returns as ygpaPercent Eq.
      destruct (showCongratulations_returns (parseFloat ygpaPercent))
        as [block [-> _]].
      returned. repeat split.
    + returned. repeat split.
Qed.

(** Run on its own result, a flow changes nothing. *)
Lemma updateSGPACalculation_again (p p' : page) :
  updateSGPACalculation p = Normal p' -> updateSGPACalculation p' = Normal p'.
Proof.
  unfold updateSGPACalculation. cbv zeta.
  destruct (negb (truthy (sgpaInput (fields p)))) eqn:T.
  - returned. cbn [fields shown anim summary]. rewrite T. reflexivity.
  - destruct (negb (isValidGPA (sgpaInput (fields p)))) eqn:V.
    + returned. cbn [fields shown anim summary]. rewrite T, V. reflexivity.
    + toFixed_returns as text E.
      returned. cbn [fields shown anim summary]. rewrite T, V, E.
      reflexivity.
Qed.

Lemma updateYGPACalculation_again (p p' : page) :
  updateYGPACalculation p = Normal p' -> updateYGPACalculation p' = Normal p'.
Proof.
  unfold updateYGPACalculation. cbv zeta.
  match goal with
  | |- context [if ?b then _ else _] => destruct b eqn:G
  end.
  - returned. cbn [fields shown anim summary]. rewrite G. reflexivity.
  - destruct (toFixed_2 (calculateYGPA (parseFloat (sgpaOdd (fields p)))
                           (parseFloat (sgpaEven (fields p))))) as [t Et].
    destruct (toFixed_2 (ygpaToPercentage
                           (calculateYGPA (parseFloat (sgpaOdd (fields p)))
                              (parseFloat (sgpaEven (fields p)))))) as [u Eu].
    rewrite Et, Eu.
    change (bind (Normal ?a) ?k) with (k a). cbv beta.
    change (bind (Normal ?a) ?k) with (k a). cbv beta.
    returned. cbn [fields shown anim summary]. rewrite G, Et, Eu.
    change (bind (Normal ?a) ?k) with (k a). cbv beta.
    change (bind (Normal ?a) ?k) with (k a). cbv beta.
    cbn [spheres]. rewrite recolor_again. reflexivity.
Qed.

End FlowFacts.

Module ListenerFacts.
Import Number JSString Calculator NumberFacts JSStringFacts CalculatorFacts.
Import OrderFacts RangeFacts AnimationFacts HueFacts Scene SceneFacts Listeners FlowFacts.
Local Open Scope string_scope.

(** The results page reads the texts of the fields; of what it shows it
    keeps the colour of the performance line when there is no yearly
    result. *)
Lemma updateResultsPage_congr (p q : page) :
  fields p = fields q -> shown p = shown q -> anim p = anim q ->
  (truthy (sgpaOdd (fields p)) && truthy (sgpaEven (fields p)) = false ->
   performance_text_color (summary p) = performance_text_color (summary q)) ->
  updateResultsPage p = updateResultsPage q.
Proof.
  intros Ff Fs Fa Fc. unfold updateResultsPage. cbv zeta.
  rewrite <- Ff, <- Fs, <- Fa.
  destruct (truthy (sgpaOdd (fields p)) && truthy (sgpaEven (fields p))).
  - reflexivity.
  - rewrite (Fc eq_refl). reflexivity.
Qed.

Lemma updateResultsPage_keeps_colour (p p' : page) :
  updateResultsPage p = Normal p' ->
  truthy (sgpaOdd (fields p)) && truthy (sgpaEven (fields p)) = false ->
  performance_text_color (summary p') = performance_text_color (summary p).
Proof.
  unfold updateResultsPage. cbv zeta. intros H B. revert H. rewrite B.
  destruct (truthy (sgpaInput (fields p))).
  - toFixed_returns as sgpaPercent Ep. toFixed_returns as sgpaText Et.
    change (bind (Normal ?a) ?k) with (k a). cbv beta.
    returned. reflexivity.
  - change (bind (Normal ?a) ?k) with (k a). cbv beta.
    returned. reflexivity.
Qed.

Lemma updateResultsPage_again (p p' : page) :
  updateResultsPage p = Normal p' -> updateResultsPage p' = Normal p'.
Proof.
  intros H. destruct (updateResultsPage_frame p p' H) as [Ff [Fs Fa]].
  rewrite <- H. apply updateResultsPage_congr; try assumption.
  rewrite Ff. apply updateResultsPage_keeps_colour, H.
Qed.

Lemma displays_ext (d1 d2 : displays) :
  sgpaPercentage d1 = sgpaPercentage d2 -> sgpaError d1 = sgpaError d2 ->
  ygpaValue d1 = ygpaValue d2 -> ygpaPercentage d1 = ygpaPercentage d2 ->
  oddError d1 = oddError d2 -> evenError d1 = evenError d2 -> d1 = d2.
Proof.
  destruct d1, d2. cbn. intros -> -> -> -> -> ->. reflexivity.
Qed.

(** The displays that a flow writes are a function of the texts it
    reads. *)
Lemma semester_display_of_text (p q p1 q1 : page) :
  sgpaInput (fields p) = sgpaInput (fields q) ->
  updateSGPACalculation p = Normal p1 -> updateSGPACalculation q = Normal q1 ->
  sgpaPercentage (shown p1) = sgpaPercentage (shown q1)
  /\ sgpaError (shown p1) = sgpaError (shown q1).
Proof.
  intros E. unfold updateSGPACalculation. cbv zeta. rewrite <- E.
  destruct (negb (truthy (sgpaInput (fields p)))).
  - do 2 returned. split; reflexivity.
  - destruct (negb (isValidGPA (sgpaInput (fields p)))).
    + do 2 returned. split; reflexivity.
    + toFixed_returns as text Et. do 2 returned. split; reflexivity.
Qed.

Lemma yearly_display_of_texts (p q p1 q1 : page) :
  sgpaOdd (fields p) = sgpaOdd (fields q) ->
  sgpaEven (fields p) = sgpaEven (fields q) ->
  updateYGPACalculation p = Normal p1 -> updateYGPACalculation q = Normal q1 ->
  ygpaValue (shown p1) = ygpaValue (shown q1)
  /\ ygpaPercentage (shown p1) = ygpaPercentage (shown q1)
  /\ oddError (shown p1) = oddError (shown q1)
  /\ evenError (shown p1) = evenError (shown q1).
Proof.
  intros Eo Ee. unfold updateYGPACalculation. cbv zeta. rewrite <- Eo, <- Ee.
  match goal with
  | |- context [if ?b then _ else _] => destruct b
  end.
  - do 2 returned. repeat split.
  - toFixed_returns as t Et. toFixed_returns as u Eu.
    do 2 returned. repeat split.
Qed.

(** A change of a field followed by its listener keeps the displays up
    to date. *)
Lemma up_to_date_on_input (f : field) (text : string) (p : page) :
  up_to_date p ->
  exists p' : page, on_input f (enter f text p) = Normal p' /\ up_to_date p'.
Proof.
  intros [p1 [p2 [S1 [D1 [Y1 D2]]]]].
  set (q := enter f text p).
  assert (Qs : shown q = shown p) by reflexivity.
  destruct f; cbn [on_input].
  - destruct (updateSGPACalculation_shows q) as [p' [E _]].
    exists p'. split; [exact E|].
    destruct (updateSGPACalculation_frame q p' E) as [Ff [_ [F1 [F2 [F3 [F4 _]]]]]].
    destruct (updateYGPACalculation_shows p') as [y [Ey _]].
    exists p', y. split; [apply (updateSGPACalculation_again q), E|].
    split; [reflexivity|]. split; [exact Ey|].
    destruct (updateYGPACalculation_frame p' y Ey) as [_ [_ [G1 [G2 _]]]].
    destruct (yearly_display_of_texts p' p y p2) as [H1 [H2 [H3 H4]]];
      try assumption; try (rewrite Ff; reflexivity).
    apply displays_ext; try assumption.
    + rewrite H1, D2, <- Qs. symmetry. exact F1.
    + rewrite H2, D2, <- Qs. symmetry. exact F2.
    + rewrite H3, D2, <- Qs. symmetry. exact F3.
    + rewrite H4, D2, <- Qs. symmetry. exact F4.
  - destruct (updateYGPACalculation_shows q) as [p' [E _]].
    exists p'. split; [exact E|].
    destruct (updateYGPACalculation_frame q p' E) as [Ff [_ [F1 [F2 _]]]].
    destruct (updateSGPACalculation_shows p') as [x [Ex _]].
    exists x, p'. split; [exact Ex|].
    split; [|split; [apply (updateYGPACalculation_again q), E | reflexivity]].
    destruct (updateSGPACalculation_frame p' x Ex) as [_ [_ [G1 [G2 [G3 [G4 _]]]]]].
    destruct (semester_display_of_text p' p x p1) as [H1 H2];
      try assumption; try (rewrite Ff; reflexivity).
    apply displays_ext; try assumption.
    + rewrite H1, D1, <- Qs. symmetry. exact F1.
    + rewrite H2, D1, <- Qs. symmetry. exact F2.
  - destruct (updateYGPACalculation_shows q) as [p' [E _]].
    exists p'. split; [exact E|].
    destruct (updateYGPACalculation_frame q p' E) as [Ff [_ [F1 [F2 _]]]].
    destruct (updateSGPACalculation_shows p') as [x [Ex _]].
    exists x, p'. split; [exact Ex|].
    split; [|split; [apply (updateYGPACalculation_again q), E | reflexivity]].
    destruct (updateSGPACalculation_frame p' x Ex) as [_ [_ [G1 [G2 [G3 [G4 _]]]]]].
    destruct (semester_display_of_text p' p x p1) as [H1 H2];
      try assumption; try (rewrite Ff; reflexivity).
    apply displays_ext; try assumption.
    + rewrite H1, D1, <- Qs. symmetry. exact F1.
    + rewrite H2, D1, <- Qs. symmetry. exact F2.
Qed.

Lemma up_to_date_run (changes : list (field * string)) (p : page) :
  up_to_date p ->
  exists p' : page, run on_input changes p = Normal p' /\ up_to_date p'.
Proof.
  revert p. induction changes as [|[f text] rest IH]; intros p U.
  - exists p. split; [reflexivity | exact U].
  - destruct (up_to_date_on_input f text p U) as [p1 [E U1]].
    destruct (IH p1 U1) as [p' [R U']].
    exists p'. split; [|exact U']. cbn [run]. rewrite E. exact R.
Qed.

(** Up-to-date displays are a function of the texts of the fields. *)
Lemma up_to_date_shown (p q : page) :
  up_to_date p -> up_to_date q -> fields p = fields q -> shown p = shown q.
Proof.
  intros [p1 [p2 [S1 [D1 [Y1 D2]]]]] [q1 [q2 [S2 [E1 [Y2 E2]]]]] F.
  destruct (semester_display_of_text p q p1 q1) as [H1 H2];
    try assumption; try (rewrite F; reflexivity).
  destruct (yearly_display_of_texts p q p2 q2) as [H3 [H4 [H5 H6]]];
    try assumption; try (rewrite F; reflexivity).
  apply displays_ext.
  - rewrite <- D1, <- E1. exact H1.
  - rewrite <- D1, <- E1. exact H2.
  - rewrite <- D2, <- E2. exact H3.
  - rewrite <- D2, <- E2. exact H4.
  - rewrite <- D2, <- E2. exact H5.
  - rewrite <- D2, <- E2. exact H6.
Qed.

(** *** The animation stays within its bounds *)

Lemma yearly_grade_point_range (odd even : string) :
  isValidGPA odd = true -> isValidGPA even = true ->
  le (lit 0) (calculateYGPA (parseFloat odd) (parseFloat even)) = true
  /\ le (calculateYGPA (parseFloat odd) (parseFloat even)) (lit (10 # 1)) = true.
Proof.
  intros Vo Ve.
  destruct (isValidGPA_between odd Vo) as [O0 O10].
  destruct (isValidGPA_between even Ve) as [E0 E10].
  pose proof (parseFloat_binary64 odd) as Bo.
  pose proof (parseFloat_binary64 even) as Be.
  assert (Fo : finite (parseFloat odd) = true).
  { rewrite lit_0 in O0. rewrite lit_10 in O10.
    apply (le_between (Zero false) _ (Fin (10 # 1)) eq_refl eq_refl O0 O10). }
  assert (Fe : finite (parseFloat even) = true).
  { rewrite lit_0 in E0. rewrite lit_10 in E10.
    apply (le_between (Zero false) _ (Fin (10 # 1)) eq_refl eq_refl E0 E10). }
  split.
  - apply le_trans with (calculateYGPA (lit 0) (lit 0));
      [vm_compute; reflexivity|].
    apply calculateYGPA_mono; try assumption; try reflexivity; exact I.
  - apply le_trans with (calculateYGPA (lit (10 # 1)) (lit (10 # 1)));
      [|vm_compute; reflexivity].
    apply calculateYGPA_mono; try assumption; try reflexivity;
      apply round64_binary64.
Qed.

Lemma updateYGPACalculation_spheres (p p' : page) :
  updateYGPACalculation p = Normal p' ->
  spheres (anim p')
  = if isValidGPA (sgpaOdd (fields p)) && isValidGPA (sgpaEven (fields p))
    then recolor
           (calculateYGPA (parseFloat (sgpaOdd (fields p)))
              (parseFloat (sgpaEven (fields p)))) 0 (spheres (anim p))
    else spheres (anim p).
Proof.
  unfold updateYGPACalculation. cbv zeta. rewrite ygpa_gate.
  destruct (isValidGPA (sgpaOdd (fields p)) && isValidGPA (sgpaEven (fields p))).
  - change (negb true) with false. cbv iota.
    toFixed_returns as t Et. toFixed_returns as u Eu. returned. reflexivity.
  - change (negb false) with true. cbv iota. returned. reflexivity.
Qed.

Lemma recolor_Forall (P : sphere -> Prop) (ygpa : number) (l : list sphere)
    (i : Z) :
  (forall k : nat, (k < List.length l)%nat ->
                   P (painted (hue ygpa (i + Z.of_nat k)))) ->
  Forall P (recolor ygpa i l).
Proof.
  revert i. induction l as [|s l IH]; intros i H; cbn [recolor].
  - constructor.
  - constructor.
    + specialize (H O). cbn [List.length] in H.
      replace (i + Z.of_nat 0)%Z with i in H by lia. apply H. lia.
    + apply IH. intros k Hk.
      replace (i + 1 + Z.of_nat k)%Z with (i + Z.of_nat (S k))%Z by lia.
      apply H. cbn [List.length]. lia.
Qed.

Lemma steady_semester (p p' : page) :
  steady (anim p) -> updateSGPACalculation p = Normal p' -> steady (anim p').
Proof.
  intros St H.
  destruct (updateSGPACalculation_frame p p' H) as [_ [_ [_ [_ [_ [_ Fs]]]]]].
  destruct (updateSGPACalculation_shows p) as [q [E R]].
  rewrite H in E. apply Normal_inj in E. subst q.
  destruct (isValidGPA (sgpaInput (fields p))) eqn:V.
  - destruct R as [text [_ [_ [_ [R1 R2]]]]].
    destruct (isValidGPA_between _ V) as [H0 H10].
    destruct (percentage_range _ H0 H10) as [P1 P2].
    destruct (animation_range _ P1 P2) as [A1 [A2 [A3 A4]]].
    destruct St as [_ [_ S5]].
    unfold steady, within. rewrite R1, R2, Fs. auto.
  - destruct R as [_ [_ R]]. rewrite R. exact St.
Qed.

Lemma steady_yearly (p p' : page) :
  steady (anim p) ->
  (Z.of_nat (List.length (spheres (anim p))) <= 2 ^ 53)%Z ->
  updateYGPACalculation p = Normal p' -> steady (anim p').
Proof.
  intros St L H.
  pose proof (updateYGPACalculation_spheres p p' H) as Sp.
  destruct (updateYGPACalculation_shows p) as [q [E R]].
  rewrite H in E. apply Normal_inj in E. subst q.
  destruct (isValidGPA (sgpaOdd (fields p))) eqn:Vo;
    [destruct (isValidGPA (sgpaEven (fields p))) eqn:Ve|];
    cbv beta iota delta [andb] in R, Sp.
  - destruct R as [t [u [_ [_ [_ [_ [R1 R2]]]]]]].
    destruct (yearly_grade_point_range _ _ Vo Ve) as [H0 H10].
    destruct (percentage_range _ H0 H10) as [P1 P2].
    destruct (animation_range _ P1 P2) as [A1 [A2 [A3 A4]]].
    unfold steady, within. rewrite R1, R2, Sp.
    split; [split; [exact A1 | exact A2]|].
    split; [split; [exact A3 | exact A4]|].
    apply recolor_Forall. intros k Hk. cbn [painted color emissive fst].
    assert (Hh : hue_in_range
                   (hue (calculateYGPA (parseFloat (sgpaOdd (fields p)))
                           (parseFloat (sgpaEven (fields p))))
                      (0 + Z.of_nat k))).
    { apply hue_range; try assumption. lia. }
    split; exact Hh.
  - destruct R as [_ [_ R]]. rewrite R. exact St.
  - destruct R as [_ [_ R]]. rewrite R. exact St.
Qed.

Lemma steady_run (changes : list (field * string)) (p : page) :
  steady (anim p) ->
  (Z.of_nat (List.length (spheres (anim p))) <= 2 ^ 53)%Z ->
  exists p' : page,
    run on_input changes p = Normal p' /\ steady (anim p')
    /\ List.length (spheres (anim p')) = List.length (spheres (anim p)).
Proof.
  revert p. induction changes as [|[f text] rest IH]; intros p St L.
  - exists p. auto.
  - set (q := enter f text p).
    assert (Sq : steady (anim q)) by exact St.
    assert (Lq : (Z.of_nat (List.length (spheres (anim q))) <= 2 ^ 53)%Z)
      by exact L.
    assert (N : exists p1 : page,
               on_input f q = Normal p1 /\ steady (anim p1)
               /\ List.length (spheres (anim p1))
                  = List.length (spheres (anim q))).
    { destruct f; cbn [on_input].
      - destruct (updateSGPACalculation_shows q) as [p1 [E _]].
        exists p1. split; [exact E|]. split; [apply (steady_semester q), E; exact Sq|].
        destruct (updateSGPACalculation_frame q p1 E) as [_ [_ [_ [_ [_ [_ Fs]]]]]].
        rewrite Fs. reflexivity.
      - destruct (updateYGPACalculation_shows q) as [p1 [E _]].
        exists p1. split; [exact E|].
        split; [apply (steady_yearly q); assumption|].
        apply (updateYGPACalculation_frame q p1 E).
      - destruct (updateYGPACalculation_shows q) as [p1 [E _]].
        exists p1. split; [exact E|].
        split; [apply (steady_yearly q); assumption|].
        apply (updateYGPACalculation_frame q p1 E). }
    destruct N as [p1 [E [S1 L1]]].
    destruct (IH p1 S1) as [p' [R [S' L']]].
    { rewrite L1. exact Lq. }
    exists p'. split; [cbn [run]; fold q; rewrite E; exact R|].
    split; [exact S'|]. rewrite L', L1. reflexivity.
Qed.

End ListenerFacts.

Module OrderOfFlows.
Import Number JSString Calculator NumberFacts JSStringFacts CalculatorFacts.
Import OrderFacts RangeFacts AnimationFacts HueFacts Scene SceneFacts Listeners.
Import FlowFacts ListenerFacts.
Local Open Scope string_scope.

Lemma semester_then_yearly (p : page) :
  exists p1 p12 : page,
    updateSGPACalculation p = Normal p1 /\ updateYGPACalculation p1 = Normal p12
    /\ rotationSpeed (anim p12)
       = (if yearly_valid p then speed_of (yearly_percentage p)
          else if semester_valid p then speed_of (semester_percentage p)
          else rotationSpeed (anim p))
    /\ scaleMultiplier (anim p12)
       = (if yearly_valid p then scale_of (yearly_percentage p)
          else if semester_valid p then scale_of (semester_percentage p)
          else scaleMultiplier (anim p)).
Proof.
  destruct (updateSGPACalculation_shows p) as [p1 [E1 R1]].
  destruct (updateYGPACalculation_shows p1) as [p12 [E2 R2]].
  destruct (updateSGPACalculation_frame p p1 E1) as [Ff _].
  exists p1, p12. split; [exact E1|]. split; [exact E2|].
  unfold yearly_valid, semester_valid, yearly_percentage, yearly_grade_point,
    semester_percentage, speed_of, scale_of.
  rewrite Ff in R2.
  destruct (isValidGPA (sgpaOdd (fields p)) && isValidGPA (sgpaEven (fields p))).
  - destruct R2 as [t [u [_ [_ [_ [_ [A B]]]]]]]. split; assumption.
  - destruct R2 as [_ [_ A]]. rewrite A.
    destruct (isValidGPA (sgpaInput (fields p))).
    + destruct R1 as [t [_ [_ [_ [B C]]]]]. split; assumption.
    + destruct R1 as [_ [_ B]]. rewrite B. split; reflexivity.
Qed.

Lemma yearly_then_semester (p : page) :
  exists p2 p21 : page,
    updateYGPACalculation p = Normal p2 /\ updateSGPACalculation p2 = Normal p21
    /\ rotationSpeed (anim p21)
       = (if semester_valid p then speed_of (semester_percentage p)
          else if yearly_valid p then speed_of (yearly_percentage p)
          else rotationSpeed (anim p))
    /\ scaleMultiplier (anim p21)
       = (if semester_valid p then scale_of (semester_percentage p)
          else if yearly_valid p then scale_of (yearly_percentage p)
          else scaleMultiplier (anim p)).
Proof.
  destruct (updateYGPACalculation_shows p) as [p2 [E1 R1]].
  destruct (updateSGPACalculation_shows p2) as [p21 [E2 R2]].
  destruct (updateYGPACalculation_frame p p2 E1) as [Ff _].
  exists p2, p21. split; [exact E1|]. split; [exact E2|].
  unfold yearly_valid, semester_valid, yearly_percentage, yearly_grade_point,
    semester_percentage, speed_of, scale_of.
  rewrite Ff in R2.
  destruct (isValidGPA (sgpaInput (fields p))).
  - destruct R2 as [t [_ [_ [_ [A B]]]]]. split; assumption.
  - destruct R2 as [_ [_ A]]. rewrite A.
    destruct (isValidGPA (sgpaOdd (fields p)) && isValidGPA (sgpaEven (fields p))).
    + destruct R1 as [t [u [_ [_ [_ [_ [B C]]]]]]]. split; assumption.
    + destruct R1 as [_ [_ B]]. rewrite B. split; reflexivity.
Qed.

(** In either order the two flows show the same. *)
Lemma flows_commute_on_displays (p p1 p12 p2 p21 : page) :
  updateSGPACalculation p = Normal p1 -> updateYGPACalculation p1 = Normal p12 ->
  updateYGPACalculation p = Normal p2 -> updateSGPACalculation p2 = Normal p21 ->
  fields p12 = fields p21 /\ shown p12 = shown p21
  /\ summary p12 = summary p21
  /\ spheres (anim p12) = spheres (anim p21).
Proof.
  intros S1 Y12 Y2 S21.
  destruct (updateSGPACalculation_frame p p1 S1) as [F1 [M1 [A1 [A2 [A3 [A4 A5]]]]]].
  destruct (updateYGPACalculation_frame p1 p12 Y12) as [F12 [M12 [B1 [B2 _]]]].
  destruct (updateYGPACalculation_frame p p2 Y2) as [F2 [M2 [C1 [C2 _]]]].
  destruct (updateSGPACalculation_frame p2 p21 S21)
    as [F21 [M21 [D1 [D2 [D3 [D4 D5]]]]]].
  split; [congruence|]. split; [|split; [congruence|]].
  - destruct (semester_display_of_text p p2 p1 p21) as [H1 H2];
      try assumption; try (rewrite F2; reflexivity).
    destruct (yearly_display_of_texts p1 p p12 p2) as [H3 [H4 [H5 H6]]];
      try assumption; try (rewrite F1; reflexivity).
    apply displays_ext; congruence.
  - rewrite (updateYGPACalculation_spheres p1 p12 Y12), D5,
      (updateYGPACalculation_spheres p p2 Y2), F1, A5.
    reflexivity.
Qed.

(** The later version has no listener on the two semester fields: what
    is typed there changes neither the yearly displays nor the colours. *)
Lemma later_version_frame (changes : list (field * string)) (p p' : page) :
  run on_input_later changes p = Normal p' ->
  ygpaValue (shown p') = ygpaValue (shown p)
  /\ ygpaPercentage (shown p') = ygpaPercentage (shown p)
  /\ oddError (shown p') = oddError (shown p)
  /\ evenError (shown p') = evenError (shown p)
  /\ spheres (anim p') = spheres (anim p).
Proof.
  revert p. induction changes as [|[f text] rest IH]; intros p; cbn [run].
  - returned. repeat split.
  - destruct (on_input_later f (enter f text p)) as [q|e] eqn:E;
      [|discriminate].
    change (bind (Normal q) ?k) with (k q). cbv beta. intros R.
    destruct (IH q R) as [H1 [H2 [H3 [H4 H5]]]].
    assert (Q : ygpaValue (shown q) = ygpaValue (shown p)
                /\ ygpaPercentage (shown q) = ygpaPercentage (shown p)
                /\ oddError (shown q) = oddError (shown p)
                /\ evenError (shown q) = evenError (shown p)
                /\ spheres (anim q) = spheres (anim p)).
    { destruct f; cbn [on_input_later] in E.
      - destruct (updateSGPACalculation_frame _ _ E)
          as [_ [_ [G1 [G2 [G3 [G4 G5]]]]]].
        repeat split; assumption.
      - apply Normal_inj in E. subst q. repeat split.
      - apply Normal_inj in E. subst q. repeat split. }
    destruct Q as [Q1 [Q2 [Q3 [Q4 Q5]]]].
    repeat split; congruence.
Qed.

Lemma later_version_returns (changes : list (field * string)) (p : page) :
  exists p' : page, run on_input_later changes p = Normal p'.
Proof.
  revert p. induction changes as [|[f text] rest IH]; intros p; cbn [run].
  - eauto.
  - assert (N : exists q, on_input_later f (enter f text p) = Normal q).
    { destruct f; cbn [on_input_later]; eauto.
      destruct (updateSGPACalculation_shows (enter SGPAField text p))
        as [q [E _]]. eauto. }
    destruct N as [q ->]. apply IH.
Qed.

End OrderOfFlows.

Module DecimalsFacts.
Import Number JSString Calculator NumberFacts JSStringFacts CalculatorFacts.
Import OrderFacts Decimals.
Local Open Scope string_scope.

Lemma all_digits_app (a b : string) :
  all_digits (a ++ b) = all_digits a && all_digits b.
Proof.
  induction a as [|c a IH]; cbn [append all_digits]; [reflexivity|].
  destruct (digit_val c); [exact IH | reflexivity].
Qed.

Lemma digits_value_app (a b : string) (acc : Z) :
  all_digits a = true ->
  digits_value (a ++ b) acc = digits_value b (digits_value a acc).
Proof.
  revert acc. induction a as [|c a IH]; intros acc H; cbn [append digits_value];
    [reflexivity|].
  cbn [all_digits] in H. destruct (digit_val c); [apply IH, H | discriminate H].
Qed.

(** Scanning reads all of a run of digits. *)
Lemma scan_digits_all (s r : string) (acc cnt : Z) :
  all_digits s = true ->
  scan_digits (s ++ r) acc cnt
  = scan_digits r (digits_value s acc) (cnt + Z.of_nat (String.length s)).
Proof.
  revert acc cnt. induction s as [|c s IH]; intros acc cnt H.
  - cbn [append digits_value String.length]. f_equal. lia.
  - cbn [all_digits] in H. cbn [append scan_digits digits_value String.length].
    destruct (digit_val c); [|discriminate H].
    rewrite IH by exact H. f_equal. lia.
Qed.

Lemma all_digits_zeros (n : nat) : all_digits (zeros n) = true.
Proof. induction n as [|n IH]; [reflexivity | exact IH]. Qed.

Lemma digits_value_zeros (n : nat) : digits_value (zeros n) 0 = 0%Z.
Proof. induction n as [|n IH]; [reflexivity | exact IH]. Qed.

Lemma length_zeros (n : nat) : String.length (zeros n) = n.
Proof. induction n as [|n IH]; cbn; [reflexivity | rewrite IH; reflexivity]. Qed.

(** The digits that the library writes for a number denote it. *)
Ltac digit_step :=
  match goal with
  | |- context [digit_val ?c] =>
      let v := eval vm_compute in (digit_val c) in
      change (digit_val c) with v; cbv iota beta
  end.

Lemma uint_all_digits (d : Decimal.uint) :
  all_digits (NilEmpty.string_of_uint d) = true.
Proof.
  induction d; cbn [NilEmpty.string_of_uint all_digits];
    try reflexivity; digit_step; assumption.
Qed.

Lemma uint_value_acc (d : Decimal.uint) (acc : positive) :
  digits_value (NilEmpty.string_of_uint d) (Z.pos acc)
  = Z.pos (Pos.of_uint_acc d acc).
Proof.
  revert acc.
  induction d as [|d IH|d IH|d IH|d IH|d IH|d IH|d IH|d IH|d IH|d IH];
    intros acc; cbn [NilEmpty.string_of_uint digits_value Pos.of_uint_acc];
    try reflexivity; digit_step; rewrite <- IH; f_equal; lia.
Qed.

Lemma uint_value (d : Decimal.uint) :
  digits_value (NilEmpty.string_of_uint d) 0 = Z.of_N (Pos.of_uint d).
Proof.
  induction d as [|d IH|d IH|d IH|d IH|d IH|d IH|d IH|d IH|d IH|d IH];
    cbn [NilEmpty.string_of_uint digits_value Pos.of_uint];
    try reflexivity; digit_step;
    first [exact IH | apply (uint_value_acc d)].
Qed.

Lemma length_digits (n : Z) : (1 <= String.length (digits n))%nat.
Proof.
  unfold digits. destruct (N.to_uint (Z.to_N n)); cbn; lia.
Qed.

Lemma all_digits_digits (n : Z) : all_digits (digits n) = true.
Proof.
  unfold digits, NilZero.string_of_uint.
  destruct (N.to_uint (Z.to_N n)) eqn:E; try reflexivity;
    rewrite <- E; apply uint_all_digits.
Qed.

Lemma digits_value_digits (n : Z) : (0 <= n)%Z -> digits_value (digits n) 0 = n.
Proof.
  intros H. unfold digits, NilZero.string_of_uint.
  pose proof (DecimalN.Unsigned.of_to (Z.to_N n)) as O.
  unfold N.of_uint in O.
  destruct (N.to_uint (Z.to_N n)) eqn:E;
    try (rewrite <- E, uint_value, E, O; lia).
  cbn in O. cbn. lia.
Qed.

End DecimalsFacts.

Module FixedFacts.
Import Number JSString Calculator NumberFacts JSStringFacts CalculatorFacts.
Import OrderFacts Decimals DecimalsFacts.
Local Open Scope string_scope.

Lemma length_app (a b : string) :
  String.length (a ++ b) = (String.length a + String.length b)%nat.
Proof.
  induction a as [|c a IH]; cbn [append String.length];
    [reflexivity | rewrite IH; reflexivity].
Qed.

Lemma substring_split (s : string) (n : nat) :
  (n <= String.length s)%nat ->
  substring 0 n s ++ substring n (String.length s - n) s = s.
Proof.
  revert n. induction s as [|c s IH]; intros n H.
  - destruct n; [reflexivity | cbn in H; lia].
  - destruct n as [|n].
    + cbn [substring append String.length Nat.sub]. f_equal.
      specialize (IH O). cbn [substring append] in IH.
      rewrite Nat.sub_0_r in IH. destruct s; [reflexivity|].
      apply IH. cbn. lia.
    + cbn [substring append String.length Nat.sub]. f_equal.
      apply IH. cbn in H. lia.
Qed.

Lemma length_substring_0 (s : string) (n : nat) :
  (n <= String.length s)%nat -> String.length (substring 0 n s) = n.
Proof.
  revert n. induction s as [|c s IH]; intros n H.
  - destruct n; [reflexivity | cbn in H; lia].
  - destruct n as [|n]; [reflexivity|].
    cbn [substring String.length]. rewrite IH; [reflexivity | cbn in H; lia].
Qed.

(** The text of a magnitude with two decimals: digits, the point, and
    two digits, which together denote the magnitude in hundredths. *)
Lemma fixed_digits_shape (a : Q) :
  (0 <= a)%Q ->
  exists ip fr : string,
    fixed_digits a 2 = ip ++ String "." fr
    /\ all_digits ip = true /\ all_digits fr = true
    /\ (1 <= String.length ip)%nat /\ String.length fr = 2%nat
    /\ digits_value fr (digits_value ip 0) = Qfloor (a * pow10 2 + (1 # 2)).
Proof.
  intros Ha. unfold fixed_digits. change (2 =? 0)%Z with false.
  change (Z.to_nat 2) with 2%nat. cbv zeta iota.
  set (n := Qfloor (a * pow10 2 + (1 # 2))).
  assert (Hn : (0 <= n)%Z).
  { unfold n. change 0%Z with (Qfloor 0). apply Qfloor_resp_le.
    change (pow10 2) with (100 # 1)%Q. lra. }
  set (m := zeros (3 - String.length (digits n)) ++ digits n).
  assert (Lm : (3 <= String.length m)%nat).
  { unfold m. rewrite length_app, length_zeros.
    pose proof (length_digits n). lia. }
  assert (Am : all_digits m = true).
  { unfold m. rewrite all_digits_app, all_digits_zeros, all_digits_digits.
    reflexivity. }
  assert (Vm : digits_value m 0 = n).
  { unfold m. rewrite digits_value_app by apply all_digits_zeros.
    rewrite digits_value_zeros. apply digits_value_digits, Hn. }
  set (k := String.length m) in *.
  pose proof (substring_split m (k - 2)) as Sp.
  replace (String.length m - (k - 2))%nat with 2%nat in Sp by (fold k; lia).
  specialize (Sp ltac:(fold k; lia)).
  exists (substring 0 (k - 2) m), (substring (k - 2) 2 m).
  rewrite <- Sp in Am, Vm. rewrite all_digits_app in Am.
  apply andb_true_iff in Am. destruct Am as [A1 A2].
  rewrite digits_value_app in Vm by exact A1.
  assert (L1 : String.length (substring 0 (k - 2) m) = (k - 2)%nat)
    by (apply length_substring_0; fold k; lia).
  assert (L2 : String.length (substring (k - 2) 2 m) = 2%nat).
  { pose proof (f_equal String.length Sp) as E. rewrite length_app, L1 in E.
    fold k in E. lia. }
  split; [reflexivity|]. split; [exact A1|]. split; [exact A2|].
  split; [lia|]. split; [exact L2 | exact Vm].
Qed.

(** *** Reading the text back *)

Lemma scan_digits_whole (s : string) (acc cnt : Z) :
  all_digits s = true ->
  scan_digits s acc cnt
  = (digits_value s acc, (cnt + Z.of_nat (String.length s))%Z, "").
Proof.
  revert acc cnt. induction s as [|c s IH]; intros acc cnt H.
  - cbn [scan_digits digits_value String.length]. f_equal. f_equal. lia.
  - cbn [all_digits] in H. cbn [scan_digits digits_value String.length].
    destruct (digit_val c); [|discriminate H].
    rewrite IH by exact H. f_equal. f_equal. lia.
Qed.

(** A digit is none of the other characters of a literal. *)
Lemma digit_is_not (c x : ascii) :
  digit_val c <> None -> digit_val x = None -> Ascii.eqb c x = false.
Proof.
  intros Hc Hx. destruct (Ascii.eqb_spec c x) as [E | E]; [|reflexivity].
  subst x. contradiction.
Qed.

Lemma digit_code (c : ascii) :
  digit_val c <> None -> ws1 c = false /\ (code c <? 194)%N = true.
Proof.
  unfold digit_val, ws1. cbv zeta.
  destruct ((48 <=? code c)%N && (code c <=? 57)%N) eqn:E; [|intros H; contradiction H; reflexivity].
  intros _. apply andb_true_iff in E. destruct E as [E1 E2].
  apply N.leb_le in E1. apply N.leb_le in E2.
  split.
  - apply orb_false_iff. split.
    + apply andb_false_iff. right. apply N.leb_gt. lia.
    + apply N.eqb_neq. lia.
  - apply N.ltb_lt. lia.
Qed.

Lemma trim_start_plain (c : ascii) (r : string) :
  ws1 c = false -> (code c <? 194)%N = true ->
  trim_start (String c r) = String c r.
Proof.
  intros W L. apply N.ltb_lt in L. cbn [trim_start]. rewrite W.
  destruct r as [|c2 r2]; [reflexivity|].
  assert (W2 : ws2 c c2 = false).
  { unfold ws2. replace (code c =? 194)%N with false
      by (symmetry; apply N.eqb_neq; lia). reflexivity. }
  rewrite W2. destruct r2 as [|c3 r3]; [reflexivity|].
  assert (W3 : ws3 c c2 c3 = false).
  { unfold ws3. cbv zeta.
    replace (code c =? 225)%N with false by (symmetry; apply N.eqb_neq; lia).
    replace (code c =? 226)%N with false by (symmetry; apply N.eqb_neq; lia).
    replace (code c =? 227)%N with false by (symmetry; apply N.eqb_neq; lia).
    replace (code c =? 239)%N with false by (symmetry; apply N.eqb_neq; lia).
    reflexivity. }
  rewrite W3. reflexivity.
Qed.

(** Digits, a point and digits are read as the decimal they write. *)
Lemma scan_unsigned_decimal (neg : bool) (ip fr : string) :
  all_digits ip = true -> (1 <= String.length ip)%nat ->
  all_digits fr = true ->
  scan_unsigned neg (ip ++ String "." fr)
  = Some (LitDecimal neg (digits_value fr (digits_value ip 0))
            (0 - Z.of_nat (String.length fr)), "").
Proof.
  intros Ai Li Af. unfold scan_unsigned.
  destruct ip as [|c ip']; [cbn in Li; lia|].
  assert (Dc : digit_val c <> None).
  { cbn [all_digits] in Ai. destruct (digit_val c); [discriminate | discriminate Ai]. }
  assert (S : strip_prefix "Infinity" (String c ip' ++ String "." fr) = None).
  { cbn [append strip_prefix].
    rewrite Ascii.eqb_sym, (digit_is_not c "I" Dc eq_refl). reflexivity. }
  rewrite S.
  rewrite (scan_digits_all (String c ip') (String "." fr) 0 0 Ai).
  cbn [scan_digits]. change (digit_val ".") with (@None Z). cbv iota.
  change (Ascii.eqb "." ".") with true. cbv iota.
  rewrite (scan_digits_whole fr _ 0 Af).
  assert (N1 : ((0 + Z.of_nat (String.length (String c ip')) =? 0) = false)%Z)
    by (apply Z.eqb_neq; lia).
  rewrite N1. cbn [andb]. cbv iota beta.
  cbn [scan_exponent]. reflexivity.
Qed.

(** Such a text, with or without the sign, is read alike by
    [parseFloat] and by the conversion of the operators. *)
Lemma parse_decimal (neg : bool) (ip fr : string) :
  all_digits ip = true -> (1 <= String.length ip)%nat ->
  all_digits fr = true ->
  let text := (if neg then "-" else "") ++ ip ++ String "." fr in
  let l := LitDecimal neg (digits_value fr (digits_value ip 0))
             (0 - Z.of_nat (String.length fr)) in
  parseFloat text = literal_value l /\ StringToNumber text = literal_value l.
Proof.
  intros Ai Li Af text l.
  pose proof (scan_unsigned_decimal neg ip fr Ai Li Af) as U. fold l in U.
  destruct ip as [|c ip']; [cbn in Li; lia|].
  assert (Dc : digit_val c <> None).
  { cbn [all_digits] in Ai. destruct (digit_val c); [discriminate | discriminate Ai]. }
  destruct (digit_code c Dc) as [Wc Lc].
  assert (T : trim_start text = text).
  { unfold text. destruct neg.
    - apply trim_start_plain; reflexivity.
    - apply trim_start_plain; assumption. }
  assert (L : scan_literal text = Some (l, "")).
  { unfold scan_literal, text. destruct neg.
    - cbn [append scan_sign]. change (Ascii.eqb "-" "-") with true. cbv iota.
      exact U.
    - cbn [append scan_sign].
      rewrite (digit_is_not c "-" Dc eq_refl), (digit_is_not c "+" Dc eq_refl).
      exact U. }
  assert (R : scan_non_decimal text = None).
  { unfold text. destruct neg.
    - reflexivity.
    - cbn [append scan_non_decimal].
      assert (X : forall x : ascii,
                 digit_val x <> None \/ x = "."%char ->
                 (if Ascii.eqb x "x" || Ascii.eqb x "X" then 16
                  else if Ascii.eqb x "o" || Ascii.eqb x "O" then 8
                  else if Ascii.eqb x "b" || Ascii.eqb x "B" then 2
                  else 0)%Z = 0%Z).
      { intros x [Dx | ->]; [|reflexivity].
        rewrite (digit_is_not x "x" Dx eq_refl), (digit_is_not x "X" Dx eq_refl),
          (digit_is_not x "o" Dx eq_refl), (digit_is_not x "O" Dx eq_refl),
          (digit_is_not x "b" Dx eq_refl), (digit_is_not x "B" Dx eq_refl).
        reflexivity. }
      destruct ip' as [|c2 ip2]; cbn [append].
      + rewrite X by (right; reflexivity). rewrite andb_false_r. reflexivity.
      + rewrite X.
        * rewrite andb_false_r. reflexivity.
        * left. cbn [all_digits] in Ai. destruct (digit_val c); [|discriminate Ai].
          destruct (digit_val c2); [discriminate | discriminate Ai]. }
  split.
  - unfold parseFloat. rewrite T, L. reflexivity.
  - unfold StringToNumber. cbv zeta. rewrite T.
    assert (Ne : exists a r, text = String a r).
    { unfold text. destruct neg; cbn [append]; eauto. }
    destruct Ne as [a [r Ne]]. rewrite Ne. rewrite <- Ne.
    rewrite R, L. reflexivity.
Qed.

(** The text of [toFixed(2)] for a finite number below [10^21] in
    magnitude is read back, by [parseFloat] and by the operators alike,
    as the number in hundredths. *)
Lemma toFixed_read_back (x : number) (q : Q) :
  value x = Some q -> (Qabs q < pow10 21)%Q ->
  exists text : string,
    toFixed x 2 = Normal text
    /\ parseFloat text = to_hundredths q
    /\ StringToNumber text = to_hundredths q.
Proof.
  intros V B. unfold toFixed.
  change ((2 <? 0)%Z || (100 <? 2)%Z) with false. cbv iota. rewrite V.
  cbv zeta.
  assert (Bb : Qle_bool (pow10 21) (Qabs q) = false).
  { destruct (Qle_bool (pow10 21) (Qabs q)) eqn:E; [|reflexivity].
    apply Qle_bool_iff in E. lra. }
  rewrite Bb.
  destruct (fixed_digits_shape (Qabs q) (Qabs_nonneg q))
    as [ip [fr [Sh [Ai [Af [Li [Lf Vv]]]]]]].
  rewrite Sh. eexists. split; [reflexivity|].
  unfold to_hundredths, hundredths.
  destruct (Qlt_le_dec q 0) as [N | N].
  - destruct (parse_decimal true ip fr Ai Li Af) as [P S].
    rewrite Lf, Vv in P, S. split; [exact P | exact S].
  - destruct (parse_decimal false ip fr Ai Li Af) as [P S].
    rewrite Lf, Vv in P, S. split; [exact P | exact S].
Qed.

End FixedFacts.

Module ResultsFacts.
Import Number JSString Calculator NumberFacts JSStringFacts CalculatorFacts.
Import OrderFacts RangeFacts AnimationFacts Decimals DecimalsFacts FixedFacts.
Import FlowFacts ListenerFacts.
Local Open Scope string_scope.

Lemma finite_value (x : number) : finite x = true -> value x = Some (val x).
Proof. destruct x; try discriminate; reflexivity. Qed.

Lemma pow10_2 : (pow10 2 == 100 # 1)%Q.
Proof. reflexivity. Qed.

Lemma pow10_m2 : (pow10 (- 2) == 1 # 100)%Q.
Proof. reflexivity. Qed.

(** The hundredths of a rational between two counts of hundredths. *)
Lemma hundredths_between (q : Q) (lo hi : Z) :
  (inject_Z lo * (1 # 100) <= q)%Q -> (q <= inject_Z hi * (1 # 100))%Q ->
  (lo <= signed_hundredths q <= hi)%Z.
Proof.
  intros Hl Hh. unfold signed_hundredths, hundredths.
  assert (E : (Qabs q * pow10 2 + (1 # 2) == Qabs q * (100 # 1) + (1 # 2))%Q)
    by (rewrite pow10_2; reflexivity).
  rewrite (Qfloor_comp _ _ E). clear E.
  assert (F : forall z : Z, Qfloor (inject_Z z + (1 # 2)) = z).
  { intros z. pose proof (Qfloor_le (inject_Z z + (1 # 2))) as A.
    pose proof (Qlt_floor (inject_Z z + (1 # 2))) as B.
    rewrite inject_Z_plus in B. change (inject_Z 1) with 1%Q in B.
    assert (A' : (inject_Z (Qfloor (inject_Z z + (1 # 2))) < inject_Z (z + 1))%Q).
    { rewrite inject_Z_plus. change (inject_Z 1) with 1%Q. lra. }
    assert (B' : (inject_Z (z - 1) < inject_Z (Qfloor (inject_Z z + (1 # 2))))%Q).
    { unfold Z.sub. rewrite inject_Z_plus, inject_Z_opp.
      change (inject_Z 1) with 1%Q. lra. }
    rewrite <- Zlt_Qlt in A', B'. lia. }
  assert (N0 : (0 <= Qfloor (Qabs q * (100 # 1) + (1 # 2)))%Z).
  { change 0%Z with (Qfloor 0). apply Qfloor_resp_le.
    pose proof (Qabs_nonneg q). lra. }
  destruct (Qlt_le_dec q 0) as [N | N].
  - assert (A : Qabs q == - q) by (apply Qabs_neg; lra).
    split.
    + assert (Qfloor (Qabs q * (100 # 1) + (1 # 2)) <= - lo)%Z; [|lia].
      rewrite <- (F (- lo)%Z). apply Qfloor_resp_le.
      rewrite A, inject_Z_opp. lra.
    + destruct (Z_le_gt_dec 0 hi) as [H | H]; [lia|].
      assert (- hi <= Qfloor (Qabs q * (100 # 1) + (1 # 2)))%Z; [|lia].
      rewrite <- (F (- hi)%Z). apply Qfloor_resp_le.
      rewrite A, inject_Z_opp. lra.
  - assert (A : Qabs q == q) by (apply Qabs_pos; lra).
    split.
    + destruct (Z_le_gt_dec lo 0) as [H | H]; [lia|].
      rewrite <- (F lo). apply Qfloor_resp_le. rewrite A. lra.
    + rewrite <- (F hi). apply Qfloor_resp_le. rewrite A. lra.
Qed.

(** The number read back lies between the bounds of the value, when
    these are counts of hundredths. *)
Lemma to_hundredths_between (q : Q) (lo hi : Z) :
  (inject_Z lo * (1 # 100) <= q)%Q -> (q <= inject_Z hi * (1 # 100))%Q ->
  le (round64 false (inject_Z lo * (1 # 100))) (to_hundredths q) = true
  /\ le (to_hundredths q) (round64 false (inject_Z hi * (1 # 100))) = true.
Proof.
  intros Hl Hh. pose proof (hundredths_between q lo hi Hl Hh) as B.
  unfold signed_hundredths in B. unfold to_hundredths.
  destruct (Qlt_le_dec q 0) as [N | N]; split; apply round64_mono;
    rewrite pow10_m2;
    try (rewrite <- inject_Z_opp);
    (apply Qmult_le_compat_r; [rewrite <- Zle_Qle; lia | discriminate]).
Qed.

(** The value and its hundredths differ by half a hundredth at most. *)
Lemma hundredths_near (q : Q) :
  (Qabs (inject_Z (signed_hundredths q) * (1 # 100) - q) <= 1 # 200)%Q.
Proof.
  unfold signed_hundredths, hundredths.
  assert (E : (Qabs q * pow10 2 + (1 # 2) == Qabs q * (100 # 1) + (1 # 2))%Q)
    by (rewrite pow10_2; reflexivity).
  rewrite (Qfloor_comp _ _ E). clear E.
  pose proof (Qfloor_le (Qabs q * (100 # 1) + (1 # 2))) as A.
  pose proof (Qlt_floor (Qabs q * (100 # 1) + (1 # 2))) as B.
  rewrite inject_Z_plus in B. change (inject_Z 1) with 1%Q in B.
  set (n := Qfloor (Qabs q * (100 # 1) + (1 # 2))) in *. clearbody n.
  apply Qabs_Qle_condition.
  destruct (Qlt_le_dec q 0) as [N | N].
  - assert (E : Qabs q == - q) by (apply Qabs_neg; lra).
    rewrite E in A, B. rewrite inject_Z_opp. split; lra.
  - assert (E : Qabs q == q) by (apply Qabs_pos; lra).
    rewrite E in A, B. split; lra.
Qed.

Lemma min_below (x : number) (c : Q) :
  le x (Fin c) = true -> min x (Fin c) = x.
Proof.
  intros H. destruct x as [|s|s|q]; cbn [min]; try rewrite H; reflexivity.
Qed.

Lemma min_capped (x : number) (c : Q) :
  min x (Fin c) = NaN \/ le (min x (Fin c)) (Fin c) = true.
Proof.
  destruct x as [|s|s|q]; cbn [min]; auto;
    match goal with
    | |- context [if le ?a ?b then _ else _] => destruct (le a b) eqn:E
    end; auto; right; apply le_Fin, Qle_refl.
Qed.

(** The width of the bar on the results page. *)
Lemma updateResultsPage_bar (p p' : page) :
  updateResultsPage p = Normal p' ->
  performance_bar_width (summary p')
  = if truthy (sgpaOdd (fields p)) && truthy (sgpaEven (fields p))
    then toString (min (parseFloat (result_ygpa_percent (summary p')))
                     (lit (100 # 1))) ++ "%"
    else "0%".
Proof.
  unfold updateResultsPage. cbv zeta.
  destruct (truthy (sgpaInput (fields p)));
    [toFixed_returns as sgpaPercent Ep; toFixed_returns as sgpaText Et|];
    change (bind (Normal ?a) ?k) with (k a); cbv beta;
    (destruct (truthy (sgpaOdd (fields p)) && truthy (sgpaEven (fields p)));
     [toFixed_returns as ygpa Ey; toFixed_returns as ygpaPercent Eq;
      destruct (showCongratulations_returns (parseFloat ygpaPercent))
        as [block [-> _]];
      change (bind (Normal ?a) ?k) with (k a); cbv beta|]);
    returned; reflexivity.
Qed.

Lemma Qabs_below (q b : Q) : (- b <= q)%Q -> (q <= b)%Q -> (Qabs q <= b)%Q.
Proof. intros H1 H2. apply Qabs_Qle_condition. split; assumption. Qed.

(** The yearly line of the results page, for two valid texts. *)
Lemma results_yearly_valid (pg pg' : page) :
  isValidGPA (sgpaOdd (fields pg)) = true ->
  isValidGPA (sgpaEven (fields pg)) = true ->
  updateResultsPage pg = Normal pg' ->
  let y := calculateYGPA (parseFloat (sgpaOdd (fields pg)))
             (parseFloat (sgpaEven (fields pg))) in
  let r := StringToNumber (result_ygpa (summary pg')) in
  let v := parseFloat (result_ygpa_percent (summary pg')) in
  r = to_hundredths (val y)
  /\ le (lit 0) r = true /\ le r (lit (10 # 1)) = true
  /\ v = to_hundredths (val (sgpaToPercentage r))
  /\ le (Fin (- 15 # 2)) v = true /\ le v (Fin (185 # 2)) = true
  /\ performance_bar_width (summary pg') = toString v ++ "%".
Proof.
  intros Vo Ve H y r v.
  pose proof (updateResultsPage_bar pg pg' H) as Bar.
  destruct (updateResultsPage_shows pg) as [q [E [_ R]]].
  rewrite H in E. apply Normal_inj in E. subst q.
  rewrite (isValidGPA_truthy _ Vo), (isValidGPA_truthy _ Ve) in R, Bar.
  cbv beta iota delta [andb] in R, Bar.
  destruct R as [R1 [R2 _]].
  change (fdiv (fadd (parseFloat (sgpaOdd (fields pg)))
                  (parseFloat (sgpaEven (fields pg)))) (lit (2 # 1)))
    with y in R1.
  change (fmul (fsub (StringToNumber (result_ygpa (summary pg'))) (lit (75 # 100)))
            (lit (10 # 1)))
    with (sgpaToPercentage r) in R2.
  fold v in Bar.
  destruct (yearly_grade_point_range _ _ Vo Ve) as [Y0 Y10]. fold y in Y0, Y10.
  assert (Yb : finite y = true /\ (0 <= val y <= 10 # 1)%Q).
  { rewrite lit_0 in Y0. rewrite lit_10 in Y10.
    apply (le_between (Zero false) y (Fin (10 # 1)) eq_refl eq_refl Y0 Y10). }
  destruct Yb as [Fy [Vy0 Vy10]].
  destruct (toFixed_read_back y (val y) (finite_value y Fy)) as [ty [Ty [_ Sy]]].
  { apply Qle_lt_trans with (10 # 1)%Q; [apply Qabs_below; lra | reflexivity]. }
  rewrite R1 in Ty. apply Normal_inj in Ty. subst ty. fold r in Sy.
  destruct (to_hundredths_between (val y) 0 1000) as [B0 B10].
  { change (inject_Z 0) with 0%Q. lra. }
  { change (inject_Z 1000) with (1000 # 1)%Q. lra. }
  change (round64 false (inject_Z 0 * (1 # 100))) with (lit 0) in B0.
  replace (round64 false (inject_Z 1000 * (1 # 100))) with (lit (10 # 1)) in B10
    by (vm_compute; reflexivity).
  rewrite <- Sy in B0, B10.
  destruct (percentage_range r B0 B10) as [P1 P2].
  destruct (le_between (Fin (- 15 # 2)) (sgpaToPercentage r) (Fin (185 # 2))
              eq_refl eq_refl P1 P2) as [Fp [Vp1 Vp2]].
  cbn [val] in Vp1, Vp2.
  destruct (toFixed_read_back (sgpaToPercentage r) (val (sgpaToPercentage r))
              (finite_value _ Fp)) as [tp [Tp [Pp _]]].
  { apply Qle_lt_trans with (185 # 2)%Q; [apply Qabs_below; lra | reflexivity]. }
  rewrite R2 in Tp. apply Normal_inj in Tp. subst tp. fold v in Pp.
  destruct (to_hundredths_between (val (sgpaToPercentage r)) (- 750) 9250)
    as [C1 C2].
  { change (inject_Z (- 750)) with (- 750 # 1)%Q. lra. }
  { change (inject_Z 9250) with (9250 # 1)%Q. lra. }
  replace (round64 false (inject_Z (- 750) * (1 # 100))) with (Fin (- 15 # 2))
    in C1 by (vm_compute; reflexivity).
  replace (round64 false (inject_Z 9250 * (1 # 100))) with (Fin (185 # 2)) in C2
    by (vm_compute; reflexivity).
  rewrite <- Pp in C1, C2.
  assert (M : min v (lit (100 # 1)) = v).
  { replace (lit (100 # 1)) with (Fin (100 # 1)) by (vm_compute; reflexivity).
    apply min_below. apply le_trans with (Fin (185 # 2)); [exact C2 | reflexivity]. }
  rewrite M in Bar.
  repeat split; assumption.
Qed.

(** *** The semester line of the results page *)

(** The operators read a text as [parseFloat] does, or as no number,
    unless the text is blank or a literal in base 16, 8 or 2. *)
Lemma StringToNumber_or_parseFloat (s : string) :
  trim_start s <> "" -> scan_non_decimal (trim_start s) = None ->
  StringToNumber s = NaN \/ StringToNumber s = parseFloat s.
Proof.
  intros Ne Nd. unfold StringToNumber, parseFloat. cbv zeta.
  destruct (trim_start s) as [|c r] eqn:T; [contradiction Ne; reflexivity|].
  rewrite Nd. destruct (scan_literal (String c r)) as [[l rest]|]; [|auto].
  destruct (all_ws rest); auto.
Qed.

End ResultsFacts.

Module BandFacts.
Import Number JSString Calculator NumberFacts JSStringFacts CalculatorFacts.
Import OrderFacts RangeFacts Scene FlowFacts ResultsFacts.
Local Open Scope string_scope.

Lemma rank_top (b : band) : (rank b <= 4)%nat.
Proof. destruct b; cbn; lia. Qed.

Lemma band_of_finite (x : number) :
  finite x = true ->
  band_of x
  = if Qle_bool (90 # 1) (val x) then Outstanding
    else if Qle_bool (80 # 1) (val x) then Excellent
    else if Qle_bool (70 # 1) (val x) then Good
    else if Qle_bool (60 # 1) (val x) then Satisfactory
    else Lowest.
Proof. destruct x; try discriminate; reflexivity. Qed.

(** A higher percentage is in no lower band. *)
Lemma band_of_mono (x y : number) :
  le x y = true -> (rank (band_of x) <= rank (band_of y))%nat.
Proof.
  intros H. destruct (le_not_NaN _ _ H) as [Nx Ny].
  destruct (finite x) eqn:Fx.
  - destruct (finite y) eqn:Fy.
    + rewrite (band_of_finite x Fx), (band_of_finite y Fy).
      apply (le_finite x y Fx Fy) in H.
      assert (B : forall c : Q,
                 Qle_bool c (val x) = true -> Qle_bool c (val y) = true).
      { intros c E. apply Qle_bool_iff in E. apply Qle_bool_iff. lra. }
      destruct (Qle_bool (90 # 1) (val x)) eqn:E1; [rewrite (B _ E1); cbn; lia|].
      destruct (Qle_bool (80 # 1) (val x)) eqn:E2;
        [rewrite (B _ E2); destruct (Qle_bool (90 # 1) (val y)); cbn; lia|].
      destruct (Qle_bool (70 # 1) (val x)) eqn:E3;
        [rewrite (B _ E3); destruct (Qle_bool (90 # 1) (val y));
         destruct (Qle_bool (80 # 1) (val y)); cbn; lia|].
      destruct (Qle_bool (60 # 1) (val x)) eqn:E4;
        [rewrite (B _ E4); destruct (Qle_bool (90 # 1) (val y));
         destruct (Qle_bool (80 # 1) (val y));
         destruct (Qle_bool (70 # 1) (val y)); cbn; lia|].
      cbn [rank]. lia.
    + destruct y as [|[]| |]; try discriminate Fy; [contradiction | |].
      * destruct (le_infinity_r _ _ H) as [E | E]; [discriminate E|].
        subst x. discriminate Fx.
      * apply rank_top.
  - destruct x as [|[]| |]; try discriminate Fx; [contradiction | |].
    + cbn [band_of rank]. lia.
    + destruct (le_infinity_l _ _ H) as [E | E]; [discriminate E|].
      subst y. cbn [band_of rank]. lia.
Qed.

(** The block of the congratulations is empty for the lowest band
    only. *)
Lemma showCongratulations_empty (percentage : number) (block : string) :
  showCongratulations percentage = Normal block ->
  (block = "" <-> band_of percentage = Lowest).
Proof.
  unfold showCongratulations. rewrite congratulations_message_band.
  destruct (band_of percentage) eqn:B; cbn [celebration];
    try (toFixed_returns as score Es; intros H; apply Normal_inj in H;
         subst block; split; [intros E; discriminate E | intros E; discriminate E]).
  intros H. apply Normal_inj in H. subst block. split; reflexivity.
Qed.

End BandFacts.

Module BlankFacts.
Import Number JSString Calculator NumberFacts JSStringFacts CalculatorFacts.
Import OrderFacts RangeFacts Scene FlowFacts ResultsFacts.
Local Open Scope string_scope.

(** A text of white space only is read as no number by [parseFloat] and
    as zero by the operators. *)
Lemma blank_text (s : string) :
  all_ws s = true -> parseFloat s = NaN /\ StringToNumber s = Zero false.
Proof.
  unfold all_ws, parseFloat, StringToNumber. cbv zeta.
  destruct (trim_start s); [|discriminate]. intros _. split; reflexivity.
Qed.

(** White space in front of a text is skipped. *)
Lemma parseFloat_skips (c : ascii) (s : string) :
  ws1 c = true -> parseFloat (String c s) = parseFloat s.
Proof. intros W. unfold parseFloat. cbn [trim_start]. rewrite W. reflexivity. Qed.

End BlankFacts.

Module NavigationFacts.
Import Number JSString Calculator CalculatorFacts Navigation.
Local Open Scope string_scope.

(** *** The tokens of a class list *)

Lemma has_remove_token (t u : string) (l : list string) :
  has_token u (remove_token t l) = negb (String.eqb u t) && has_token u l.
Proof.
  unfold has_token, remove_token.
  induction l as [|a l IH]; cbn [filter existsb].
  - rewrite andb_false_r. reflexivity.
  - destruct (String.eqb_spec a t) as [E | E]; cbn [negb].
    + rewrite IH. subst a. destruct (String.eqb_spec u t); reflexivity.
    + cbn [existsb]. rewrite IH.
      destruct (String.eqb_spec u a) as [E1 | E1]; cbn [orb].
      * subst a. destruct (String.eqb_spec u t) as [E2 | E2]; [contradiction|].
        reflexivity.
      * destruct (String.eqb u t); reflexivity.
Qed.

Lemma has_add_token (t u : string) (l : list string) :
  has_token u (add_token t l) = String.eqb u t || has_token u l.
Proof.
  unfold add_token. destruct (has_token t l) eqn:C.
  - destruct (String.eqb_spec u t) as [E | E]; [subst u; rewrite C|]; reflexivity.
  - unfold has_token. rewrite existsb_app. cbn [existsb].
    rewrite orb_false_r. apply orb_comm.
Qed.

Lemma remove_remove_token (t : string) (l : list string) :
  remove_token t (remove_token t l) = remove_token t l.
Proof.
  unfold remove_token.
  induction l as [|a l IH]; cbn [filter]; [reflexivity|].
  destruct (negb (String.eqb a t)) eqn:N; cbn [filter]; [rewrite N, IH|]; auto.
Qed.

Lemma remove_add_token (t : string) (l : list string) :
  remove_token t (add_token t l) = remove_token t l.
Proof.
  unfold add_token. destruct (has_token t l); [reflexivity|].
  unfold remove_token. rewrite filter_app. cbn [filter].
  rewrite String.eqb_refl. cbn [negb]. apply app_nil_r.
Qed.

Lemma add_add_token (t : string) (l : list string) :
  add_token t (add_token t l) = add_token t l.
Proof.
  unfold add_token at 1. rewrite has_add_token, String.eqb_refl. reflexivity.
Qed.

Lemma add_remove_token (t : string) (l : list string) :
  add_token t (remove_token t l) = (remove_token t l ++ [t])%list.
Proof.
  unfold add_token. rewrite has_remove_token, String.eqb_refl. reflexivity.
Qed.

Lemma remove_app_token (t : string) (l : list string) :
  remove_token t (l ++ [t])%list = remove_token t l.
Proof.
  unfold remove_token. rewrite filter_app. cbn [filter].
  rewrite String.eqb_refl. cbn [negb]. apply app_nil_r.
Qed.

Lemma contains_remove (t u : string) (e : element) :
  contains (remove t e) u = negb (String.eqb u t) && contains e u.
Proof. apply has_remove_token. Qed.

Lemma contains_add (t u : string) (e : element) :
  contains (add t e) u = String.eqb u t || contains e u.
Proof. apply has_add_token. Qed.

Lemma element_ext (e1 e2 : element) :
  id e1 = id e2 -> classList e1 = classList e2 ->
  dataset_page e1 = dataset_page e2 -> e1 = e2.
Proof. destruct e1, e2. cbn. intros -> -> ->. reflexivity. Qed.

(** *** One element *)

Lemma switched_id (n : option string) (b : bool) (e : element) :
  id (switched n b e) = id e /\ dataset_page (switched n b e) = dataset_page e.
Proof.
  unfold switched. cbv zeta.
  repeat match goal with
         | |- context [if ?c then _ else _] => destruct c
         end; split; reflexivity.
Qed.

Lemma switched_other (n : option string) (b : bool) (e : element) (u : string) :
  String.eqb u "active" = false ->
  contains (switched n b e) u = contains e u.
Proof.
  intros U. unfold switched. cbv zeta.
  repeat match goal with
         | |- context [if ?c then _ else _] => destruct c
         end;
    rewrite ?contains_add, ?contains_remove, ?contains_add, ?contains_remove, ?U;
    reflexivity.
Qed.

(** The classes of an element after the switch, by what the element is. *)
Lemma switched_classes (n : option string) (b : bool) (e : element) :
  classList (switched n b e)
  = if contains e "nav-btn" then
      (remove_token "active" (classList e)
       ++ (if strict_eq (dataset_page e) n then ["active"] else []))%list
    else if contains e "page" then
      (remove_token "active" (classList e) ++ (if b then ["active"] else []))%list
    else if b then add_token "active" (classList e)
    else classList e.
Proof.
  unfold switched. cbv zeta.
  destruct (contains e "page") eqn:P; destruct b;
    rewrite ?contains_add, ?contains_remove;
    cbn [String.eqb Ascii.eqb Bool.eqb negb andb orb];
    destruct (contains e "nav-btn") eqn:N;
    cbn [dataset_page add remove classList];
    try (destruct (strict_eq (dataset_page e) n));
    cbn [dataset_page add remove classList];
    rewrite ?remove_add_token, ?remove_remove_token, ?add_remove_token,
      ?app_nil_r;
    reflexivity.
Qed.

Lemma switched_again (n : option string) (b : bool) (e : element) :
  switched n b (switched n b e) = switched n b e.
Proof.
  destruct (switched_id n b e) as [I D].
  destruct (switched_id n b (switched n b e)) as [I2 D2].
  apply element_ext; [exact I2 | | exact D2].
  rewrite (switched_classes n b (switched n b e)).
  rewrite !switched_other by reflexivity. rewrite D.
  rewrite (switched_classes n b e).
  destruct (contains e "nav-btn").
  - destruct (strict_eq (dataset_page e) n);
      rewrite ?remove_app_token, ?app_nil_r, ?remove_remove_token; reflexivity.
  - destruct (contains e "page").
    + destruct b;
        rewrite ?remove_app_token, ?app_nil_r, ?remove_remove_token; reflexivity.
    + destruct b; [apply add_add_token | reflexivity].
Qed.

(** A later switch undoes an earlier one, on the pages and the buttons
    and on what the earlier one did not find. *)
Lemma switched_last (n1 n2 : option string) (b1 b2 : bool) (e : element) :
  (b1 = true -> contains e "page" || contains e "nav-btn" = true) ->
  switched n2 b2 (switched n1 b1 e) = switched n2 b2 e.
Proof.
  intros H.
  destruct (switched_id n1 b1 e) as [I D].
  destruct (switched_id n2 b2 (switched n1 b1 e)) as [I2 D2].
  destruct (switched_id n2 b2 e) as [I3 D3].
  apply element_ext; [congruence | | congruence].
  rewrite (switched_classes n2 b2 (switched n1 b1 e)).
  rewrite !switched_other by reflexivity. rewrite D.
  rewrite (switched_classes n2 b2 e), (switched_classes n1 b1 e).
  destruct (contains e "nav-btn").
  - destruct (strict_eq (dataset_page e) n1);
      rewrite ?remove_app_token, ?app_nil_r, ?remove_remove_token; reflexivity.
  - destruct (contains e "page").
    + destruct b1;
        rewrite ?remove_app_token, ?app_nil_r, ?remove_remove_token; reflexivity.
    + destruct b1; [discriminate (H eq_refl) | reflexivity].
Qed.

(** Whether an element is shown after the switch. *)
Lemma switched_active (n : option string) (b : bool) (e : element) :
  contains (switched n b e) "active"
  = if contains e "nav-btn" then strict_eq (dataset_page e) n
    else if contains e "page" then b
    else b || contains e "active".
Proof.
  unfold contains at 1. rewrite switched_classes.
  destruct (contains e "nav-btn").
  - unfold has_token. rewrite existsb_app.
    fold (has_token "active" (remove_token "active" (classList e))).
    rewrite has_remove_token, String.eqb_refl. cbn [negb andb orb].
    destruct (strict_eq (dataset_page e) n); reflexivity.
  - destruct (contains e "page").
    + unfold has_token. rewrite existsb_app.
      fold (has_token "active" (remove_token "active" (classList e))).
      rewrite has_remove_token, String.eqb_refl. cbn [negb andb orb].
      destruct b; reflexivity.
    + destruct b; [|reflexivity].
      rewrite has_add_token, String.eqb_refl. reflexivity.
Qed.

End NavigationFacts.

Module DocumentFacts.
Import Number JSString Calculator CalculatorFacts Navigation NavigationFacts.
Local Open Scope string_scope.

(** *** The elements of the document, place by place *)

Lemma nth_error_same (A : Type) (l1 l2 : list A) :
  (forall i : nat, nth_error l1 i = nth_error l2 i) -> l1 = l2.
Proof.
  revert l2. induction l1 as [|a l1 IH]; intros l2 H.
  - destruct l2 as [|b l2]; [reflexivity|]. specialize (H O). discriminate H.
  - destruct l2 as [|b l2]; [specialize (H O); discriminate H|].
    pose proof (H O) as H0. cbn in H0. injection H0 as ->.
    f_equal. apply IH. intros i. apply (H (S i)).
Qed.

Lemma nth_error_update (f : element -> element) (n i : nat) (d : list element) :
  nth_error (update n f d) i
  = if Nat.eqb n i then option_map f (nth_error d i) else nth_error d i.
Proof.
  revert n i. induction d as [|e d IH]; intros n i.
  - destruct n, i; cbn; try reflexivity. destruct (Nat.eqb n i); reflexivity.
  - destruct n as [|n], i as [|i]; cbn [update nth_error Nat.eqb option_map];
      try reflexivity. apply IH.
Qed.

Lemma map_id_update (f : element -> element) (n : nat) (d : list element) :
  (forall e, id (f e) = id e) -> map id (update n f d) = map id d.
Proof.
  intros H. revert n. induction d as [|e d IH]; intros n.
  - destruct n; reflexivity.
  - destruct n as [|n]; cbn [update map]; [rewrite H | rewrite IH]; reflexivity.
Qed.

Lemma getElementById_ids (d1 d2 : list element) (x : string) :
  map id d1 = map id d2 -> getElementById d1 x = getElementById d2 x.
Proof.
  revert d2. induction d1 as [|e d1 IH]; intros d2 H.
  - destruct d2; [reflexivity | discriminate H].
  - destruct d2 as [|e2 d2]; [discriminate H|].
    cbn [map] in H. injection H as H1 H2.
    cbn [getElementById]. rewrite H1, (IH d2 H2). reflexivity.
Qed.

(** What [getElementById] finds has the [id], and is the first that has. *)
Lemma getElementById_Some (d : list element) (x : string) (k : nat) :
  getElementById d x = Some k ->
  exists e : element,
    nth_error d k = Some e /\ id e = x
    /\ forall (j : nat) (e' : element),
         (j < k)%nat -> nth_error d j = Some e' -> id e' <> x.
Proof.
  revert k. induction d as [|e d IH]; intros k; cbn [getElementById];
    [discriminate|].
  destruct (String.eqb_spec (id e) x) as [E | E].
  - intros [= <-]. exists e. split; [reflexivity|]. split; [exact E|].
    intros j e' Hj. lia.
  - destruct (getElementById d x) as [k'|] eqn:G; [|discriminate].
    cbn [option_map]. intros [= <-].
    destruct (IH k' eq_refl) as [e0 [N [I F]]].
    exists e0. split; [exact N|]. split; [exact I|].
    intros j e' Hj Hn. destruct j as [|j].
    + cbn in Hn. injection Hn as <-. exact E.
    + apply (F j e'); [lia | exact Hn].
Qed.

Lemma getElementById_None (d : list element) (x : string) :
  getElementById d x = None ->
  forall (j : nat) (e : element), nth_error d j = Some e -> id e <> x.
Proof.
  induction d as [|e d IH]; cbn [getElementById]; intros H j e' Hn.
  - destruct j; discriminate Hn.
  - destruct (String.eqb_spec (id e) x) as [E | E]; [discriminate H|].
    destruct (getElementById d x) eqn:G; [discriminate H|].
    destruct j as [|j].
    + cbn in Hn. injection Hn as <-. exact E.
    + apply (IH eq_refl j e' Hn).
Qed.

(** *** The document after [switchPage] *)

Lemma map_id_hide_pages (d : list element) :
  map id (hide_pages d) = map id d.
Proof.
  unfold hide_pages. rewrite map_map. apply map_ext.
  intros e. destruct (contains e "page"); reflexivity.
Qed.

Lemma map_id_switch_doc (n : option string) (d : list element) :
  map id (switch_doc n d) = map id d.
Proof.
  unfold switch_doc, mark_buttons, show_target.
  rewrite map_map.
  rewrite (map_ext (fun x => id (if contains x "nav-btn" then
                                   let btn' := remove "active" x in
                                   if strict_eq (dataset_page x) n
                                   then add "active" btn' else btn'
                                 else x)) id).
  - destruct (getElementById (hide_pages d) (page_id n)).
    + rewrite map_id_update by reflexivity. apply map_id_hide_pages.
    + apply map_id_hide_pages.
  - intros e. cbv zeta. destruct (contains e "nav-btn"); [|reflexivity].
    destruct (strict_eq (dataset_page e) n); reflexivity.
Qed.

Lemma nth_error_switch_doc (n : option string) (d : list element) (i : nat) :
  nth_error (switch_doc n d) i
  = option_map (switched n (found (getElementById d (page_id n)) i))
      (nth_error d i).
Proof.
  unfold switch_doc, mark_buttons, show_target.
  rewrite nth_error_map.
  rewrite (getElementById_ids (hide_pages d) d _ (map_id_hide_pages d)).
  destruct (getElementById d (page_id n)) as [k|]; cbn [found].
  - rewrite nth_error_update. unfold hide_pages. rewrite nth_error_map.
    destruct (nth_error d i) as [e|]; [|destruct (Nat.eqb k i); reflexivity].
    destruct (Nat.eqb k i); reflexivity.
  - unfold hide_pages. rewrite nth_error_map.
    destruct (nth_error d i) as [e|]; reflexivity.
Qed.

Lemma switch_doc_again (n : option string) (d : list element) :
  switch_doc n (switch_doc n d) = switch_doc n d.
Proof.
  apply nth_error_same. intros i.
  rewrite (nth_error_switch_doc n (switch_doc n d)).
  rewrite (getElementById_ids _ d _ (map_id_switch_doc n d)).
  rewrite nth_error_switch_doc.
  destruct (nth_error d i) as [e|]; [|reflexivity].
  cbn [option_map]. rewrite switched_again. reflexivity.
Qed.

Lemma switch_doc_last (n1 n2 : option string) (d : list element) :
  (forall (k : nat) (e : element),
     getElementById d (page_id n1) = Some k -> nth_error d k = Some e ->
     contains e "page" || contains e "nav-btn" = true) ->
  switch_doc n2 (switch_doc n1 d) = switch_doc n2 d.
Proof.
  intros H. apply nth_error_same. intros i.
  rewrite (nth_error_switch_doc n2 (switch_doc n1 d)).
  rewrite (getElementById_ids _ d _ (map_id_switch_doc n1 d)).
  rewrite !nth_error_switch_doc.
  destruct (nth_error d i) as [e|] eqn:N; [|reflexivity].
  cbn [option_map]. rewrite switched_last; [reflexivity|].
  destruct (getElementById d (page_id n1)) as [k|] eqn:G; cbn [found];
    [|discriminate].
  intros K. apply Nat.eqb_eq in K. subst k. apply (H i e eq_refl N).
Qed.

(** [switchPage] returns; it brings the results up to date when the
    page is [results], and leaves the calculator as it is otherwise. *)
Lemma switchPage_returns (n : option string) (s : site) :
  exists s' : site,
    Navigation.switchPage n s = Normal s'
    /\ doc s' = switch_doc n (doc s)
    /\ has_nav s' = has_nav s
    /\ match n with
       | Some name => Calculator.switchPage name (calc s) = Normal (calc s')
       | None => calc s' = calc s
       end.
Proof.
  unfold Navigation.switchPage, Calculator.switchPage. cbv zeta.
  destruct n as [name|]; cbn [strict_eq].
  - destruct (String.eqb name "results").
    + destruct (updateResultsPage_shows (calc s)) as [p [E _]]. rewrite E.
      eexists. split; [reflexivity|]. repeat split.
    + eexists. split; [reflexivity|]. repeat split.
  - eexists. split; [reflexivity|]. repeat split.
Qed.

End DocumentFacts.

Module MenuFacts.
Import Number JSString Calculator CalculatorFacts Navigation NavigationFacts.
Import DocumentFacts.
Local Open Scope string_scope.

Lemma contains_toggle (t : string) (e : element) :
  contains (toggle t e) t = negb (contains e t).
Proof.
  unfold toggle. destruct (contains e t) eqn:C.
  - rewrite contains_remove, String.eqb_refl. reflexivity.
  - rewrite contains_add, String.eqb_refl. reflexivity.
Qed.

Lemma contains_toggle_other (t u : string) (e : element) :
  String.eqb u t = false -> contains (toggle t e) u = contains e u.
Proof.
  intros U. unfold toggle. destruct (contains e t).
  - rewrite contains_remove, U. reflexivity.
  - rewrite contains_add, U. reflexivity.
Qed.

Lemma id_toggle (t : string) (e : element) : id (toggle t e) = id e.
Proof. unfold toggle. destruct (contains e t); reflexivity. Qed.

Lemma plain_toggle (e : element) : plain (toggle "active" e) = plain e.
Proof.
  unfold plain. rewrite !contains_toggle_other by reflexivity. reflexivity.
Qed.

Lemma plain_remove (e : element) : plain (remove "active" e) = plain e.
Proof.
  unfold plain. rewrite !contains_remove. reflexivity.
Qed.

(** A plain element that is not the target is not touched by the
    switch. *)
Lemma switched_plain (n : option string) (e : element) :
  plain e = true -> switched n false e = e.
Proof.
  unfold plain. intros H. apply andb_true_iff in H. destruct H as [P N].
  apply negb_true_iff in P. apply negb_true_iff in N.
  unfold switched. cbv zeta. rewrite P, N. reflexivity.
Qed.

Lemma menu_at_distinct (d : list element) (hb nl : nat) (h n : element) :
  menu_at d hb nl h n -> hb <> nl.
Proof.
  intros [A B C D _ _] E. subst nl.
  destruct (getElementById_Some d _ _ A) as [e1 [N1 [I1 _]]].
  destruct (getElementById_Some d _ _ B) as [e2 [N2 [I2 _]]].
  rewrite N1 in N2. injection N2 as <-. rewrite I1 in I2. discriminate I2.
Qed.

Lemma menu_of (d : list element) (hb nl : nat) (h n : element) (s : site) :
  doc s = d -> menu_at d hb nl h n ->
  menu s = Some (contains h "active", contains n "active").
Proof.
  intros <- [A B C D _ _]. unfold menu, active. rewrite A, B, C, D. reflexivity.
Qed.

(** The switch of the page leaves the menu as it is. *)
Lemma menu_at_switch (n0 : option string) (d : list element) (hb nl : nat)
    (h n : element) :
  menu_at d hb nl h n -> menu_at (switch_doc n0 d) hb nl h n.
Proof.
  intros M. pose proof M as [A B C D E F].
  assert (T : forall (k : nat) (e : element) (x : string),
             getElementById d x = Some k -> nth_error d k = Some e ->
             plain e = true ->
             String.eqb x (page_id n0) = false ->
             nth_error (switch_doc n0 d) k = Some e).
  { intros k e x G N P X. rewrite nth_error_switch_doc, N. cbn [option_map].
    destruct (getElementById d (page_id n0)) as [t|] eqn:Gt; cbn [found].
    - destruct (Nat.eqb_spec t k) as [Ek | Ek].
      + subst t.
        destruct (getElementById_Some d _ _ G) as [e1 [N1 [I1 _]]].
        destruct (getElementById_Some d _ _ Gt) as [e2 [N2 [I2 _]]].
        rewrite N1 in N2. injection N2 as <-. rewrite I1 in I2.
        rewrite I2, String.eqb_refl in X. discriminate X.
      + rewrite switched_plain by exact P. reflexivity.
    - rewrite switched_plain by exact P. reflexivity. }
  constructor; try assumption.
  - rewrite (getElementById_ids _ d _ (map_id_switch_doc n0 d)). exact A.
  - rewrite (getElementById_ids _ d _ (map_id_switch_doc n0 d)). exact B.
  - apply (T hb h "hamburger" A C E). reflexivity.
  - apply (T nl n "nav-links" B D F). reflexivity.
Qed.

(** A change of the hamburger and of the links that keeps their [id]s
    and leaves them plain. *)
Lemma menu_at_update (f : element -> element) (d : list element) (hb nl : nat)
    (h n : element) :
  (forall e, id (f e) = id e) -> (forall e, plain (f e) = plain e) ->
  menu_at d hb nl h n ->
  menu_at (update nl f (update hb f d)) hb nl (f h) (f n).
Proof.
  intros Hi Hp M. pose proof (menu_at_distinct _ _ _ _ _ M) as Ne.
  destruct M as [A B C D E F].
  assert (Ids : map id (update nl f (update hb f d)) = map id d).
  { rewrite !map_id_update by exact Hi. reflexivity. }
  constructor.
  - rewrite (getElementById_ids _ d _ Ids). exact A.
  - rewrite (getElementById_ids _ d _ Ids). exact B.
  - rewrite !nth_error_update.
    replace (Nat.eqb nl hb) with false by (symmetry; apply Nat.eqb_neq; lia).
    rewrite Nat.eqb_refl, C. reflexivity.
  - rewrite !nth_error_update.
    replace (Nat.eqb hb nl) with false by (symmetry; apply Nat.eqb_neq; lia).
    rewrite Nat.eqb_refl, D. reflexivity.
  - rewrite Hp. exact E.
  - rewrite Hp. exact F.
Qed.

Lemma menu_of_site (d : list element) (hb nl : nat) (h n : element)
    (hn : bool) (c : page) :
  menu_at d hb nl h n ->
  menu {| doc := d; has_nav := hn; calc := c |}
  = Some (contains h "active", contains n "active").
Proof.
  intros M.
  apply (menu_of d hb nl h n {| doc := d; has_nav := hn; calc := c |} eq_refl M).
Qed.

Lemma has_menu_intro (s : site) (hb nl : nat) (h n : element) :
  has_nav s = true -> menu_at (doc s) hb nl h n -> has_menu s.
Proof. intros Hn M. split; [exact Hn|]. exists hb, nl, h, n. exact M. Qed.

(** What each listener makes of the menu. *)
Lemma fire_menu (c : click) (s : site) (m : bool * bool) :
  has_menu s -> menu s = Some m ->
  exists s' : site,
    fire c s = Returns s' /\ has_menu s'
    /\ menu s' = Some (after c (is_button c s) m).
Proof.
  intros [Hn [hb [nl [h [n M]]]]] Hm.
  rewrite (menu_of (doc s) hb nl h n s eq_refl M) in Hm. injection Hm as <-.
  destruct c as [k | | inside]; cbn [fire is_button after fst snd].
  - (* a button of the navigation *)
    destruct (nth_error (doc s) k) as [btn|] eqn:Nk.
    + destruct (contains btn "nav-btn") eqn:Cb; cbn [andb].
      * unfold nav_button_click.
        destruct (switchPage_returns (dataset_page btn) s) as [s1 [E [D1 [N1 _]]]].
        rewrite E.
        pose proof (menu_at_switch (dataset_page btn) _ _ _ _ _ M) as M1.
        rewrite <- D1 in M1. pose proof M1 as [A B C D _ _].
        rewrite A, B. unfold active. rewrite C.
        destruct (contains h "active") eqn:Ch.
        -- pose proof (menu_at_update (remove "active") _ _ _ _ _
                         (fun e => eq_refl) plain_remove M1) as M2.
           eexists. split; [reflexivity|].
           split; [apply (has_menu_intro _ hb nl (remove "active" h)
                            (remove "active" n));
                   [cbn [has_nav]; congruence | exact M2]|].
           rewrite (menu_of_site _ hb nl _ _ _ _ M2).
           rewrite !contains_remove, String.eqb_refl. reflexivity.
        -- exists s1.
           split; [reflexivity|].
           split; [apply (has_menu_intro _ hb nl h n); [congruence | exact M1]|].
           rewrite (menu_of _ hb nl h n s1 eq_refl M1), Ch. reflexivity.
      * exists s. split; [reflexivity|].
        split; [apply (has_menu_intro _ hb nl h n); assumption|].
        apply (menu_of _ hb nl h n s eq_refl M).
    + exists s. split; [reflexivity|].
      split; [apply (has_menu_intro _ hb nl h n); assumption|].
      apply (menu_of _ hb nl h n s eq_refl M).
  - (* the hamburger *)
    pose proof M as [A B _ _ _ _]. rewrite A. unfold hamburger_click. rewrite B.
    pose proof (menu_at_update (toggle "active") _ _ _ _ _
                  (id_toggle "active") plain_toggle M) as M2.
    eexists. split; [reflexivity|].
    split; [apply (has_menu_intro _ hb nl (toggle "active" h)
                     (toggle "active" n)); [exact Hn | exact M2]|].
    rewrite (menu_of_site _ hb nl _ _ _ _ M2), !contains_toggle.
    reflexivity.
  - (* the document *)
    pose proof M as [A B _ _ _ _]. rewrite A. unfold document_click. rewrite Hn.
    destruct inside; cbn [negb].
    + exists s. split; [reflexivity|].
      split; [apply (has_menu_intro _ hb nl h n); assumption|].
      apply (menu_of _ hb nl h n s eq_refl M).
    + rewrite B.
      pose proof (menu_at_update (remove "active") _ _ _ _ _
                    (fun e => eq_refl) plain_remove M) as M2.
      eexists. split; [reflexivity|].
      split; [apply (has_menu_intro _ hb nl (remove "active" h)
                       (remove "active" n)); [reflexivity | exact M2]|].
      rewrite (menu_of_site _ hb nl _ _ _ _ M2).
      rewrite !contains_remove, String.eqb_refl. reflexivity.
Qed.

(** The hamburger and the links stay in step. *)
Lemma fire_all_in_step (cs : list click) (s : site) (a : bool) :
  has_menu s -> menu s = Some (a, a) ->
  exists (s' : site) (a' : bool),
    fire_all cs s = Returns s' /\ has_menu s' /\ menu s' = Some (a', a').
Proof.
  revert s a. induction cs as [|c cs IH]; intros s a H M.
  - exists s, a. auto.
  - destruct (fire_menu c s (a, a) H M) as [s1 [E [H1 M1]]].
    assert (S : exists b, after c (is_button c s) (a, a) = (b, b)).
    { destruct c as [k | | inside]; cbn [after fst snd].
      - destruct (is_button (NavButton k) s && a); eauto.
      - eauto.
      - destruct inside; eauto. }
    destruct S as [b Sb]. rewrite Sb in M1.
    destruct (IH s1 b H1 M1) as [s' [a' [R [H' M']]]].
    exists s', a'. split; [cbn [fire_all]; rewrite E; exact R | auto].
Qed.

End MenuFacts.

Module ClickFacts.
Import Number JSString Calculator CalculatorFacts Navigation NavigationFacts.
Import DocumentFacts MenuFacts.
Local Open Scope string_scope.

(** The places of a document other than those of the hamburger and of
    the links keep their elements when the two are changed. *)
Lemma nth_error_menu_update (f : element -> element) (d : list element)
    (hb nl i : nat) :
  hb <> i -> nl <> i ->
  nth_error (update nl f (update hb f d)) i = nth_error d i.
Proof.
  intros H1 H2. rewrite !nth_error_update.
  destruct (Nat.eqb_spec nl i) as [E|_]; [contradiction|].
  destruct (Nat.eqb_spec hb i) as [E|_]; [contradiction|]. reflexivity.
Qed.

(** A click on a button of the navigation switches the page: the
    calculator, and every element but the hamburger and the links, are
    as [switchPage] leaves them, and the button is active. *)
Lemma nav_button_switches (k : nat) (btn : element) (s : site) :
  has_menu s ->
  nth_error (doc s) k = Some btn -> contains btn "nav-btn" = true ->
  exists s1 s' : site,
    Navigation.switchPage (dataset_page btn) s = Normal s1
    /\ fire (NavButton k) s = Returns s'
    /\ calc s' = calc s1
    /\ (forall i : nat,
          getElementById (doc s) "hamburger" <> Some i ->
          getElementById (doc s) "nav-links" <> Some i ->
          nth_error (doc s') i = nth_error (doc s1) i)
    /\ exists btn' : element,
         nth_error (doc s') k = Some btn' /\ contains btn' "active" = true.
Proof.
  intros [Hn [hb [nl [h [n M]]]]] Nk Cb.
  pose proof M as [A0 B0 C0 D0 P0 Q0].
  assert (Kh : hb <> k).
  { intros ->. rewrite Nk in C0. injection C0 as <-.
    unfold plain in P0. rewrite Cb, andb_false_r in P0. discriminate P0. }
  assert (Kn : nl <> k).
  { intros ->. rewrite Nk in D0. injection D0 as <-.
    unfold plain in Q0. rewrite Cb, andb_false_r in Q0. discriminate Q0. }
  destruct (switchPage_returns (dataset_page btn) s) as [s1 [E [D1 [N1 _]]]].
  assert (B1 : exists btn' : element,
             nth_error (doc s1) k = Some btn' /\ contains btn' "active" = true).
  { rewrite D1, nth_error_switch_doc, Nk. cbn [option_map].
    eexists. split; [reflexivity|].
    rewrite switched_active, Cb.
    destruct (dataset_page btn) as [x|]; cbn [strict_eq];
      [apply String.eqb_refl | reflexivity]. }
  exists s1. cbn [fire]. rewrite Nk, Cb. unfold nav_button_click. rewrite E.
  pose proof (menu_at_switch (dataset_page btn) _ _ _ _ _ M) as M1.
  rewrite <- D1 in M1. pose proof M1 as [A B C D _ _].
  rewrite A, B. unfold active. rewrite C.
  destruct (contains h "active").
  - eexists. split; [reflexivity|]. split; [reflexivity|].
    cbn [calc doc]. split; [reflexivity|]. split.
    + intros i H1 H2. apply nth_error_menu_update.
      * intros ->. apply H1. exact A0.
      * intros ->. apply H2. exact B0.
    + destruct B1 as [btn' [N' C']]. exists btn'. split; [|exact C'].
      rewrite nth_error_menu_update by assumption. exact N'.
  - exists s1. split; [reflexivity|]. split; [reflexivity|].
    split; [reflexivity|]. split; [reflexivity | exact B1].
Qed.

(** Any other run of a listener leaves the calculator, and every
    element but the hamburger and the links, as they are. *)
Lemma menu_click_frame (c : click) (s : site) :
  has_menu s -> is_button c s = false ->
  exists s' : site,
    fire c s = Returns s'
    /\ calc s' = calc s
    /\ forall i : nat,
         getElementById (doc s) "hamburger" <> Some i ->
         getElementById (doc s) "nav-links" <> Some i ->
         nth_error (doc s') i = nth_error (doc s) i.
Proof.
  intros [Hn [hb [nl [h [n M]]]]] Hb.
  pose proof M as [A B _ _ _ _].
  assert (U : forall (f : element -> element) (i : nat),
             getElementById (doc s) "hamburger" <> Some i ->
             getElementById (doc s) "nav-links" <> Some i ->
             nth_error (update nl f (update hb f (doc s))) i
             = nth_error (doc s) i).
  { intros f i H1 H2. apply nth_error_menu_update.
    - intros ->. apply H1. exact A.
    - intros ->. apply H2. exact B. }
  destruct c as [k | | inside]; cbn [fire is_button] in *.
  - destruct (nth_error (doc s) k) as [btn|].
    + rewrite Hb. exists s. auto.
    + exists s. auto.
  - rewrite A. unfold hamburger_click. rewrite B.
    eexists. split; [reflexivity|]. split; [reflexivity|].
    intros i H1 H2. apply U; [rewrite A | rewrite B]; assumption.
  - rewrite A. unfold document_click. rewrite Hn.
    destruct inside; cbn [negb].
    + exists s. auto.
    + rewrite B. eexists. split; [reflexivity|]. split; [reflexivity|].
      intros i H1 H2. apply U; [rewrite A | rewrite B]; assumption.
Qed.

End ClickFacts.

Module AnimationLoopFacts.
Import Number JSString Calculator NumberFacts JSStringFacts CalculatorFacts.
Import Listeners Scene Animation.
Import OrderFacts RangeFacts AnimationFacts FlowFacts ListenerFacts.
Local Open Scope Q_scope.

Lemma max_value_rounds :
  round64 false (max_value + 1) = Fin (Qred max_value)
  /\ round64 false (- max_value - 1) = Fin (Qred (- max_value)).
Proof. split; vm_compute; reflexivity. Qed.

(** Adding a number of magnitude up to 1 does not leave the range. *)
Lemma fadd_bounded (a b : number) :
  bounded a -> finite b = true -> - (1) <= val b <= 1 -> bounded (fadd a b).
Proof.
  intros [Fa [A1 A2]] Fb [B1 B2].
  assert (M : 1 <= max_value) by (apply Qle_bool_imp_le; vm_compute; reflexivity).
  destruct a as [|s|s|p], b as [|t|t|q]; try discriminate Fa; try discriminate Fb;
    cbn [fadd val] in *.
  - split; [reflexivity|]. cbn [val]. lra.
  - split; [reflexivity|]. cbn [val]. lra.
  - split; [reflexivity|]. cbn [val]. lra.
  - destruct max_value_rounds as [R1 R2].
    assert (L1 : le (round64 false (- max_value - 1)) (round64 false (p + q)) = true)
      by (apply round64_mono; lra).
    assert (L2 : le (round64 false (p + q)) (round64 false (max_value + 1)) = true)
      by (apply round64_mono; lra).
    rewrite R2 in L1. rewrite R1 in L2.
    destruct (le_between (Fin (Qred (- max_value))) (round64 false (p + q))
                (Fin (Qred max_value)) eq_refl eq_refl L1 L2) as [F [V1 V2]].
    cbn [val] in V1, V2. rewrite Qred_correct in V1, V2.
    split; [exact F | split; assumption].
Qed.

Section Trigonometry.
Variables cos sin : number -> number.

Lemma move_sound (a : animation) (index : Z) (m : motion) :
  steady a -> sound m -> sound (move cos sin a index m).
Proof.
  intros [[Fs [S1 S2]] _] [Ha [Hx Hy]]. unfold sound, move. cbn [angle rotation fst snd].
  assert (C : finite (lit (1 # 100)) = true /\ - (1) <= val (lit (1 # 100)) <= 1).
  { split; [vm_compute; reflexivity|].
    split; apply Qle_bool_imp_le; vm_compute; reflexivity. }
  split; [|split].
  - apply fadd_bounded; [exact Ha | exact Fs | lra].
  - apply fadd_bounded; [exact Hx | apply C | apply C].
  - apply fadd_bounded; [exact Hy | apply C | apply C].
Qed.

Lemma animate_from_sound (a : animation) (index : Z) (l : list motion) :
  steady a -> Forall sound l -> Forall sound (animate_from cos sin a index l).
Proof.
  intros St. revert index. induction l as [|m l IH]; intros index H;
    cbn [animate_from]; [constructor|].
  inversion H as [|? ? Hm Hl]; subst.
  constructor; [apply move_sound; assumption | apply IH, Hl].
Qed.

Lemma animate_from_length (a : animation) (index : Z) (l : list motion) :
  List.length (animate_from cos sin a index l) = List.length l.
Proof.
  revert index. induction l as [|m l IH]; intros index; cbn [animate_from List.length];
    [reflexivity | rewrite IH; reflexivity].
Qed.

(** One frame, or one change of a field, keeps the animation steady and
    the motions sound. *)
Lemma step_sound (e : event) (w : world) :
  steady (anim (calculator w)) ->
  (Z.of_nat (List.length (spheres (anim (calculator w)))) <= 2 ^ 53)%Z ->
  Forall sound (motions w) ->
  exists w' : world,
    step cos sin e w = Normal w'
    /\ steady (anim (calculator w'))
    /\ List.length (spheres (anim (calculator w')))
       = List.length (spheres (anim (calculator w)))
    /\ Forall sound (motions w')
    /\ List.length (motions w') = List.length (motions w).
Proof.
  intros St L So. destruct e as [|f text]; cbn [step].
  - eexists. split; [reflexivity|]. cbn [calculator motions].
    split; [exact St|]. split; [reflexivity|].
    split; [apply animate_from_sound; assumption | apply animate_from_length].
  - destruct (steady_run [(f, text)] (calculator w) St L) as [p [R [S1 L1]]].
    cbn [run] in R.
    destruct (on_input f (enter f text (calculator w))) as [p1|ex] eqn:E;
      [|discriminate R].
    change (bind (Normal p1) ?k) with (k p1) in R. cbv beta in R.
    apply Normal_inj in R. subst p1.
    exists {| calculator := p; motions := motions w |}.
    split; [reflexivity|]. cbn [calculator motions]. auto.
Qed.

Lemma play_sound (es : list event) (w : world) :
  steady (anim (calculator w)) ->
  (Z.of_nat (List.length (spheres (anim (calculator w)))) <= 2 ^ 53)%Z ->
  Forall sound (motions w) ->
  exists w' : world,
    play cos sin es w = Normal w'
    /\ steady (anim (calculator w'))
    /\ Forall sound (motions w')
    /\ List.length (motions w') = List.length (motions w).
Proof.
  revert w. induction es as [|e es IH]; intros w St L So.
  - exists w. auto.
  - destruct (step_sound e w St L So) as [w1 [E [S1 [L1 [So1 M1]]]]].
    destruct (IH w1 S1) as [w' [P [S' [So' M']]]]; [rewrite L1; exact L | exact So1 |].
    exists w'. split; [cbn [play]; rewrite E; exact P|].
    split; [exact S'|]. split; [exact So'|]. rewrite M', M1. reflexivity.
Qed.

(** A frame at the rotation speed zero leaves the angles as they are. *)
Lemma move_at_rest (a : animation) (index : Z) (m : motion) (s : bool) :
  rotationSpeed a = Zero s -> finite (angle m) = true ->
  finite (angle (move cos sin a index m)) = true
  /\ val (angle (move cos sin a index m)) = val (angle m).
Proof.
  intros R F. unfold move. cbn [angle]. rewrite R.
  destruct (angle m) as [|t|t|q]; try discriminate F; split; reflexivity.
Qed.

End Trigonometry.

(** The rotation speed at the grade point 0.25, and on either side. *)
Lemma speed_turns (g : number) :
  (le g (lit (1 # 4)) = true ->
   le (speed_of (sgpaToPercentage g)) (lit 0) = true)
  /\ (le (lit (1 # 4)) g = true ->
      le (lit 0) (speed_of (sgpaToPercentage g)) = true).
Proof.
  assert (Z : speed_of (sgpaToPercentage (lit (1 # 4))) = lit 0)
    by (vm_compute; reflexivity).
  split; intros H; rewrite <- Z; unfold speed_of;
    apply rotationSpeed_mono, percentage_mono, H.
Qed.

End AnimationLoopFacts.

(** ** Properties of the calculator and of the animation *)

Import Number JSString Calculator NumberFacts JSStringFacts CalculatorFacts.
Import Listeners Decimals Scene Animation.
Import OrderFacts RangeFacts AnimationFacts HueFacts SceneFacts FlowFacts.
Import ListenerFacts OrderOfFlows DecimalsFacts FixedFacts ResultsFacts.
Import BandFacts BlankFacts AnimationLoopFacts.
Local Open Scope string_scope.

(** X1. A valid text keeps the animation within bounds.  When the
    semester flow, or the yearly flow, computes from valid texts, the
    percentage is a finite number from -7.5 to 92.5, the rotation speed
    that it stores is from -0.0025 to 0.0976 and the scale multiplier
    from 0.7625 to 1.2626; for the yearly flow the yearly grade point is
    from 0 to 10. *)
Theorem valid_texts_bound_the_animation :
  (forall pg : page,
     isValidGPA (sgpaInput (fields pg)) = true ->
     exists pg' : page,
       updateSGPACalculation pg = Normal pg'
       /\ within (- 15 # 2) (185 # 2) (semester_percentage pg)
       /\ within (- (25 # 10000)) (976 # 10000) (rotationSpeed (anim pg'))
       /\ within (7625 # 10000) (12626 # 10000) (scaleMultiplier (anim pg')))
  /\ (forall pg : page,
        isValidGPA (sgpaOdd (fields pg)) = true ->
        isValidGPA (sgpaEven (fields pg)) = true ->
        exists pg' : page,
          updateYGPACalculation pg = Normal pg'
          /\ within 0 (10 # 1) (yearly_grade_point pg)
          /\ within (- 15 # 2) (185 # 2) (yearly_percentage pg)
          /\ within (- (25 # 10000)) (976 # 10000) (rotationSpeed (anim pg'))
          /\ within (7625 # 10000) (12626 # 10000) (scaleMultiplier (anim pg'))).
Proof.
  split.
  - intros pg V. destruct (updateSGPACalculation_shows pg) as [pg' [E R]].
    rewrite V in R. destruct R as [text [_ [_ [_ [R1 R2]]]]].
    destruct (isValidGPA_between _ V) as [H0 H10].
    destruct (percentage_range _ H0 H10) as [P1 P2].
    destruct (animation_range _ P1 P2) as [A1 [A2 [A3 A4]]].
    exists pg'. split; [exact E|].
    split; [apply (le_between (Fin (- 15 # 2)) _ (Fin (185 # 2)) eq_refl eq_refl P1 P2)|].
    unfold within. rewrite R1, R2. auto.
  - intros pg Vo Ve. destruct (updateYGPACalculation_shows pg) as [pg' [E R]].
    rewrite Vo, Ve in R. cbv beta iota delta [andb] in R.
    destruct R as [t [u [_ [_ [_ [_ [R1 R2]]]]]]].
    destruct (yearly_grade_point_range _ _ Vo Ve) as [H0 H10].
    destruct (percentage_range _ H0 H10) as [P1 P2].
    destruct (animation_range _ P1 P2) as [A1 [A2 [A3 A4]]].
    exists pg'. split; [exact E|].
    split.
    { rewrite lit_0 in H0. rewrite lit_10 in H10.
      apply (le_between (Zero false) _ (Fin (10 # 1)) eq_refl eq_refl H0 H10). }
    split; [apply (le_between (Fin (- 15 # 2)) _ (Fin (185 # 2)) eq_refl eq_refl P1 P2)|].
    unfold within. rewrite R1, R2. auto.
Qed.

Lemma valid_texts_bound_the_animation_witness :
  (exists pg' : page,
     updateSGPACalculation (page_with "8.5" "" "") = Normal pg'
     /\ within (- 15 # 2) (185 # 2) (semester_percentage (page_with "8.5" "" ""))
     /\ within (- (25 # 10000)) (976 # 10000) (rotationSpeed (anim pg'))
     /\ within (7625 # 10000) (12626 # 10000) (scaleMultiplier (anim pg')))
  /\ exists pg' : page,
       updateYGPACalculation (page_with "" "8" "9") = Normal pg'
       /\ within 0 (10 # 1) (yearly_grade_point (page_with "" "8" "9"))
       /\ within (- 15 # 2) (185 # 2) (yearly_percentage (page_with "" "8" "9"))
       /\ within (- (25 # 10000)) (976 # 10000) (rotationSpeed (anim pg'))
       /\ within (7625 # 10000) (12626 # 10000) (scaleMultiplier (anim pg')).
Proof.
  split.
  - apply (proj1 valid_texts_bound_the_animation (page_with "8.5" "" "")).
    vm_compute. reflexivity.
  - apply (proj2 valid_texts_bound_the_animation (page_with "" "8" "9"));
      vm_compute; reflexivity.
Defined.

(** X2. The yearly grade point of two valid texts lies between the two
    grade points read, the ends included, although the sum and the
    quotient are rounded; and the mean of a grade point with itself is
    that grade point. *)
Theorem yearly_grade_point_lies_between :
  forall odd even : string,
    isValidGPA odd = true -> isValidGPA even = true ->
    le (parseFloat odd) (parseFloat even) = true ->
    le (parseFloat odd) (calculateYGPA (parseFloat odd) (parseFloat even)) = true
    /\ le (calculateYGPA (parseFloat odd) (parseFloat even)) (parseFloat even)
       = true
    /\ calculateYGPA (parseFloat odd) (parseFloat odd) = parseFloat odd
    /\ calculateYGPA (parseFloat even) (parseFloat even) = parseFloat even.
Proof.
  intros odd even Vo Ve H.
  destruct (isValidGPA_between odd Vo) as [O0 O10].
  destruct (isValidGPA_between even Ve) as [E0 E10].
  pose proof (parseFloat_binary64 odd) as Bo.
  pose proof (parseFloat_binary64 even) as Be.
  destruct (calculateYGPA_between _ _ Bo Be O0 H E10) as [L U].
  split; [exact L|]. split; [exact U|].
  split; apply calculateYGPA_same; assumption.
Qed.

Lemma yearly_grade_point_lies_between_witness :
  le (parseFloat "8.1") (calculateYGPA (parseFloat "8.1") (parseFloat "9.3"))
  = true
  /\ le (calculateYGPA (parseFloat "8.1") (parseFloat "9.3")) (parseFloat "9.3")
     = true
  /\ calculateYGPA (parseFloat "8.1") (parseFloat "8.1") = parseFloat "8.1"
  /\ calculateYGPA (parseFloat "9.3") (parseFloat "9.3") = parseFloat "9.3".
Proof.
  apply (yearly_grade_point_lies_between "8.1" "9.3"); vm_compute; reflexivity.
Defined.

(** X3. With two valid texts the yearly flow repaints every sphere:
    their number stays, sphere [i] takes the colour and the emissive
    colour of the hue [(ygpa / 10 + i / 20) % 1], with the saturations
    and lightnesses of the script, and that hue is a number from 0 up
    to, but not including, 1.  The yearly grade point 0 gives the 20
    spheres the colours that they have at the start. *)
Theorem spheres_take_the_hue_of_the_yearly_grade_point :
  (forall pg : page,
     isValidGPA (sgpaOdd (fields pg)) = true ->
     isValidGPA (sgpaEven (fields pg)) = true ->
     (Z.of_nat (List.length (spheres (anim pg))) <= 2 ^ 53)%Z ->
     exists pg' : page,
       updateYGPACalculation pg = Normal pg'
       /\ List.length (spheres (anim pg')) = List.length (spheres (anim pg))
       /\ forall (i : nat) (s : sphere),
            nth_error (spheres (anim pg')) i = Some s ->
            s = painted (hue (yearly_grade_point pg) (Z.of_nat i))
            /\ hue_in_range (hue (yearly_grade_point pg) (Z.of_nat i)))
  /\ exists pg' : page,
       updateYGPACalculation (page_with "" "0" "0") = Normal pg'
       /\ spheres (anim pg') = make_spheres 20 0.
Proof.
  split.
  - intros pg Vo Ve L.
    destruct (updateYGPACalculation_shows pg) as [pg' [E _]].
    pose proof (updateYGPACalculation_spheres pg pg' E) as Sp.
    rewrite Vo, Ve in Sp. cbv beta iota delta [andb] in Sp.
    exists pg'. split; [exact E|]. rewrite Sp.
    split; [apply recolor_length|].
    intros i s N. rewrite recolor_nth in N.
    destruct (nth_error (spheres (anim pg)) i) as [s0|] eqn:N0; [|discriminate N].
    cbn [option_map] in N. injection N as <-.
    change (0 + Z.of_nat i)%Z with (Z.of_nat i).
    split; [reflexivity|].
    destruct (yearly_grade_point_range _ _ Vo Ve) as [H0 H10].
    apply hue_range; try assumption.
    assert (i < List.length (spheres (anim pg)))%nat
      by (apply nth_error_Some; rewrite N0; discriminate).
    lia.
  - eexists. split; vm_compute; reflexivity.
Qed.

Lemma spheres_take_the_hue_of_the_yearly_grade_point_witness :
  exists pg' : page,
    updateYGPACalculation (page_with "" "8" "9") = Normal pg'
    /\ List.length (spheres (anim pg'))
       = List.length (spheres (anim (page_with "" "8" "9")))
    /\ forall (i : nat) (s : sphere),
         nth_error (spheres (anim pg')) i = Some s ->
         s = painted (hue (yearly_grade_point (page_with "" "8" "9")) (Z.of_nat i))
         /\ hue_in_range
              (hue (yearly_grade_point (page_with "" "8" "9")) (Z.of_nat i)).
Proof.
  apply (proj1 spheres_take_the_hue_of_the_yearly_grade_point
           (page_with "" "8" "9")).
  - vm_compute. reflexivity.
  - vm_compute. reflexivity.
  - vm_compute. discriminate.
Defined.

(** X4. A flow run on its own result changes nothing: what the semester
    flow, the yearly flow and the results page write is settled after
    one run. *)
Theorem flows_settle_at_once :
  (forall pg : page,
     exists pg' : page,
       updateSGPACalculation pg = Normal pg'
       /\ updateSGPACalculation pg' = Normal pg')
  /\ (forall pg : page,
        exists pg' : page,
          updateYGPACalculation pg = Normal pg'
          /\ updateYGPACalculation pg' = Normal pg')
  /\ (forall pg : page,
        exists pg' : page,
          updateResultsPage pg = Normal pg'
          /\ updateResultsPage pg' = Normal pg').
Proof.
  split; [|split]; intros pg.
  - destruct (updateSGPACalculation_shows pg) as [pg' [E _]].
    exists pg'. split; [exact E | apply (updateSGPACalculation_again pg), E].
  - destruct (updateYGPACalculation_shows pg) as [pg' [E _]].
    exists pg'. split; [exact E | apply (updateYGPACalculation_again pg), E].
  - destruct (updateResultsPage_shows pg) as [pg' [E _]].
    exists pg'. split; [exact E | apply (updateResultsPage_again pg), E].
Qed.

(** X5. The semester flow and the yearly flow write to different
    displays: run in either order they leave the same texts in the
    fields, the same displays, the same results and the same colours.
    Both write the rotation speed and the scale multiplier, and there
    the flow that runs last wins when its texts are valid. *)
Theorem reactive_flows_commute_on_displays :
  forall pg : page,
    exists p1 p12 p2 p21 : page,
      updateSGPACalculation pg = Normal p1
      /\ updateYGPACalculation p1 = Normal p12
      /\ updateYGPACalculation pg = Normal p2
      /\ updateSGPACalculation p2 = Normal p21
      /\ fields p12 = fields p21 /\ shown p12 = shown p21
      /\ summary p12 = summary p21
      /\ spheres (anim p12) = spheres (anim p21)
      /\ rotationSpeed (anim p12)
         = (if yearly_valid pg then speed_of (yearly_percentage pg)
            else if semester_valid pg then speed_of (semester_percentage pg)
            else rotationSpeed (anim pg))
      /\ scaleMultiplier (anim p12)
         = (if yearly_valid pg then scale_of (yearly_percentage pg)
            else if semester_valid pg then scale_of (semester_percentage pg)
            else scaleMultiplier (anim pg))
      /\ rotationSpeed (anim p21)
         = (if semester_valid pg then speed_of (semester_percentage pg)
            else if yearly_valid pg then speed_of (yearly_percentage pg)
            else rotationSpeed (anim pg))
      /\ scaleMultiplier (anim p21)
         = (if semester_valid pg then scale_of (semester_percentage pg)
            else if yearly_valid pg then scale_of (yearly_percentage pg)
            else scaleMultiplier (anim pg)).
Proof.
  intros pg.
  destruct (semester_then_yearly pg) as [p1 [p12 [S1 [Y12 [A1 A2]]]]].
  destruct (yearly_then_semester pg) as [p2 [p21 [Y2 [S21 [B1 B2]]]]].
  destruct (flows_commute_on_displays pg p1 p12 p2 p21 S1 Y12 Y2 S21)
    as [C1 [C2 [C3 C4]]].
  exists p1, p12, p2, p21. auto 15.
Qed.

(** X6. With the listeners of [main.js] the displays of the two
    calculators follow the texts: when they are up to date, they are up
    to date again after every change of a field, whatever the sequence
    of changes; and up-to-date displays depend on the present texts of
    the fields only, not on what was typed before. *)
Theorem displays_follow_the_texts :
  (forall (changes : list (field * string)) (p : page),
     up_to_date p ->
     exists p' : page, run on_input changes p = Normal p' /\ up_to_date p')
  /\ (forall p q : page,
        up_to_date p -> up_to_date q -> fields p = fields q ->
        shown p = shown q).
Proof.
  split.
  - exact up_to_date_run.
  - exact up_to_date_shown.
Qed.

Lemma displays_follow_the_texts_witness :
  (exists p' : page,
     run on_input [(SGPAField, "8.5"); (OddField, "8"); (SGPAField, "abc")]
       (page_with "" "" "") = Normal p'
     /\ up_to_date p')
  /\ shown (page_with "" "" "") = shown (page_with "" "" "").
Proof.
  assert (U : up_to_date (page_with "" "" "")).
  { unfold up_to_date. eexists. eexists.
    split; [vm_compute; reflexivity|]. split; [reflexivity|].
    split; [vm_compute; reflexivity | reflexivity]. }
  split.
  - apply (proj1 displays_follow_the_texts). exact U.
  - apply (proj2 displays_follow_the_texts); [exact U | exact U | reflexivity].
Defined.

(** X7. The animation stays within its bounds, whatever is typed and
    however many frames are drawn.  When the rotation speed is from
    -0.0025 to 0.0976, the scale multiplier from 0.7625 to 1.2626, the
    hues of the spheres from 0 up to 1, and the angle and the two
    rotations of every sphere finite, they are so again after every
    sequence of frames and of changes of the fields followed by the
    listeners of [main.js], which all return; the number of spheres
    stays.  This holds for every [Math.cos] and [Math.sin]. *)
Theorem animation_stays_within_bounds :
  forall (cos sin : number -> number) (es : list event) (w : world),
    steady (anim (calculator w)) ->
    (Z.of_nat (List.length (spheres (anim (calculator w)))) <= 2 ^ 53)%Z ->
    Forall sound (motions w) ->
    exists w' : world,
      play cos sin es w = Normal w'
      /\ steady (anim (calculator w'))
      /\ Forall sound (motions w')
      /\ List.length (motions w') = List.length (motions w).
Proof. intros cos sin. apply play_sound. Qed.

Lemma animation_stays_within_bounds_witness :
  exists w' : world,
    play (fun x => x) (fun x => x)
      [Frame; Change OddField "8"; Change EvenField "9.5"; Frame;
       Change SGPAField "0.1"; Frame; Change SGPAField "abc"; Frame]
      (start (fun x => x) (fun x => x)) = Normal w'
    /\ steady (anim (calculator w'))
    /\ Forall sound (motions w')
    /\ List.length (motions w')
       = List.length (motions (start (fun x => x) (fun x => x))).
Proof.
  apply animation_stays_within_bounds.
  - unfold steady, within.
    split; [split; [reflexivity | split; apply Qle_bool_imp_le; reflexivity]|].
    split; [split; [reflexivity | split; apply Qle_bool_imp_le; reflexivity]|].
    repeat (constructor;
            [split; (split; [vm_compute; reflexivity
                            | split; [apply Qle_bool_imp_le; vm_compute; reflexivity
                                     | vm_compute; reflexivity]])|]).
    constructor.
  - vm_compute. discriminate.
  - repeat (constructor;
            [repeat split; try (vm_compute; reflexivity);
               apply Qle_bool_imp_le; vm_compute; reflexivity|]).
    constructor.
Defined.

(** X8. The later version of the script registers no listener on the
    two semester fields.  Whatever is typed into the three fields, its
    listeners return and leave the yearly displays, the two error
    indicators of the semesters and the colours of the spheres as they
    were; with the listeners of [main.js] the texts 8 and 9 show the
    yearly grade point 8.50. *)
Theorem later_version_ignores_the_semester_fields :
  (forall (changes : list (field * string)) (p : page),
     exists p' : page,
       run on_input_later changes p = Normal p'
       /\ ygpaValue (shown p') = ygpaValue (shown p)
       /\ ygpaPercentage (shown p') = ygpaPercentage (shown p)
       /\ oddError (shown p') = oddError (shown p)
       /\ evenError (shown p') = evenError (shown p)
       /\ spheres (anim p') = spheres (anim p))
  /\ (exists p' : page,
        run on_input [(OddField, "8"); (EvenField, "9")] (page_with "" "" "")
        = Normal p'
        /\ ygpaValue (shown p') = "8.50"
        /\ ygpaPercentage (shown p') = "77.50%")
  /\ (exists p' : page,
        run on_input_later [(OddField, "8"); (EvenField, "9")]
          (page_with "" "" "") = Normal p'
        /\ ygpaValue (shown p') = "--"
        /\ ygpaPercentage (shown p') = "--%").
Proof.
  split; [|split].
  - intros changes p. destruct (later_version_returns changes p) as [p' E].
    exists p'. split; [exact E|]. apply (later_version_frame changes p p' E).
  - eexists. split; [vm_compute; reflexivity|]. split; reflexivity.
  - eexists. split; [vm_compute; reflexivity|]. split; reflexivity.
Qed.

(** X9. The performance bar is capped from above only.  When both
    semester texts are there, the width that the results page writes is
    the text of a number and [%]; the number is [Math.min] of the
    percentage read back and 100, so it is at most 100, or it is NaN.
    The texts 11 and 12 give [100%], the texts 0 and 0 the negative
    width [-7.5%], and a text that is no number [NaN%]. *)
Theorem performance_bar_is_capped_from_above_only :
  (forall pg : page,
     truthy (sgpaOdd (fields pg)) = true ->
     truthy (sgpaEven (fields pg)) = true ->
     exists (pg' : page) (width : number),
       updateResultsPage pg = Normal pg'
       /\ width = min (parseFloat (result_ygpa_percent (summary pg')))
                    (lit (100 # 1))
       /\ performance_bar_width (summary pg') = toString width ++ "%"
       /\ (width = NaN \/ le width (lit (100 # 1)) = true))
  /\ (exists pg' : page,
        updateResultsPage (page_with "" "11" "12") = Normal pg'
        /\ result_ygpa_percent (summary pg') = "107.50"
        /\ performance_bar_width (summary pg') = "100%")
  /\ (exists pg' : page,
        updateResultsPage (page_with "" "0" "0") = Normal pg'
        /\ result_ygpa_percent (summary pg') = "-7.50"
        /\ performance_bar_width (summary pg') = "-7.5%")
  /\ (exists pg' : page,
        updateResultsPage (page_with "" "abc" "1") = Normal pg'
        /\ result_ygpa_percent (summary pg') = "NaN"
        /\ performance_bar_width (summary pg') = "NaN%").
Proof.
  split.
  - intros pg To Te. destruct (updateResultsPage_shows pg) as [pg' [E _]].
    pose proof (updateResultsPage_bar pg pg' E) as B.
    rewrite To, Te in B. cbv beta iota delta [andb] in B.
    exists pg', (min (parseFloat (result_ygpa_percent (summary pg')))
                   (lit (100 # 1))).
    split; [exact E|]. split; [reflexivity|]. split; [exact B|].
    replace (lit (100 # 1)) with (Fin (100 # 1)) by (vm_compute; reflexivity).
    apply min_capped.
  - split; [|split];
      (eexists; split; [vm_compute; reflexivity|]; split; reflexivity).
Qed.

Lemma performance_bar_is_capped_from_above_only_witness :
  exists (pg' : page) (width : number),
    updateResultsPage (page_with "" "9.5" "9.9") = Normal pg'
    /\ width = min (parseFloat (result_ygpa_percent (summary pg')))
                 (lit (100 # 1))
    /\ performance_bar_width (summary pg') = toString width ++ "%"
    /\ (width = NaN \/ le width (lit (100 # 1)) = true).
Proof.
  apply (proj1 performance_bar_is_capped_from_above_only
           (page_with "" "9.5" "9.9")); reflexivity.
Defined.

(** X10. The text of [toFixed(2)] reads back in hundredths.  For a
    finite number below [10^21] in magnitude, [parseFloat] and the
    conversion of the operators read the text of [toFixed(2)] as the
    same number: the binary64 number nearest to the value rounded to
    hundredths, away from zero at a half; and that count of hundredths
    is within half a hundredth of the value.  This is the number from
    which the results page computes the yearly percentage. *)
Theorem toFixed_text_reads_back_in_hundredths :
  (forall (x : number) (q : Q),
     value x = Some q -> (Qabs q < pow10 21)%Q ->
     exists text : string,
       toFixed x 2 = Normal text
       /\ parseFloat text = to_hundredths q
       /\ StringToNumber text = to_hundredths q
       /\ (Qabs (inject_Z (signed_hundredths q) * (1 # 100) - q) <= 1 # 200)%Q)
  /\ (forall pg : page,
        truthy (sgpaOdd (fields pg)) = true ->
        truthy (sgpaEven (fields pg)) = true ->
        finite (yearly_grade_point pg) = true ->
        (Qabs (val (yearly_grade_point pg)) < pow10 21)%Q ->
        exists pg' : page,
          updateResultsPage pg = Normal pg'
          /\ StringToNumber (result_ygpa (summary pg'))
             = to_hundredths (val (yearly_grade_point pg))).
Proof.
  split.
  - intros x q V B. destruct (toFixed_read_back x q V B) as [text [T [P S]]].
    exists text. split; [exact T|]. split; [exact P|]. split; [exact S|].
    apply hundredths_near.
  - intros pg To Te F B.
    destruct (updateResultsPage_shows pg) as [pg' [E [_ R]]].
    rewrite To, Te in R. cbv beta iota delta [andb] in R.
    destruct R as [R1 _]. exists pg'. split; [exact E|].
    destruct (toFixed_read_back (yearly_grade_point pg)
                (val (yearly_grade_point pg)) (finite_value _ F) B)
      as [text [T [_ S]]].
    unfold yearly_grade_point, calculateYGPA in T.
    rewrite R1 in T. apply Normal_inj in T. subst text. exact S.
Qed.

Lemma toFixed_text_reads_back_in_hundredths_witness :
  (exists text : string,
     toFixed (lit (8125 # 1000)) 2 = Normal text
     /\ parseFloat text = to_hundredths (65 # 8)
     /\ StringToNumber text = to_hundredths (65 # 8)
     /\ (Qabs (inject_Z (signed_hundredths (65 # 8)) * (1 # 100)
               - (65 # 8)) <= 1 # 200)%Q)
  /\ exists pg' : page,
       updateResultsPage (page_with "" "8.001" "8.003") = Normal pg'
       /\ StringToNumber (result_ygpa (summary pg'))
          = to_hundredths (val (yearly_grade_point (page_with "" "8.001" "8.003"))).
Proof.
  split.
  - apply (proj1 toFixed_text_reads_back_in_hundredths (lit (8125 # 1000))).
    + vm_compute. reflexivity.
    + vm_compute. reflexivity.
  - apply (proj2 toFixed_text_reads_back_in_hundredths
             (page_with "" "8.001" "8.003")).
    + reflexivity.
    + reflexivity.
    + vm_compute. reflexivity.
    + vm_compute. reflexivity.
Defined.

(** X11. For two valid semester texts the yearly line of the results
    page stays in range: the yearly grade point shown reads back as a
    number from 0 to 10, the percentage shown is that of this number
    and reads back as a number from -7.5 to 92.5, and the width of the
    bar is the text of that percentage, so that the cap at 100 never
    applies. *)
Theorem results_of_valid_texts_stay_in_range :
  forall pg : page,
    isValidGPA (sgpaOdd (fields pg)) = true ->
    isValidGPA (sgpaEven (fields pg)) = true ->
    exists pg' : page,
      updateResultsPage pg = Normal pg'
      /\ StringToNumber (result_ygpa (summary pg'))
         = to_hundredths (val (yearly_grade_point pg))
      /\ le (lit 0) (StringToNumber (result_ygpa (summary pg'))) = true
      /\ le (StringToNumber (result_ygpa (summary pg'))) (lit (10 # 1)) = true
      /\ parseFloat (result_ygpa_percent (summary pg'))
         = to_hundredths
             (val (sgpaToPercentage
                     (StringToNumber (result_ygpa (summary pg')))))
      /\ le (Fin (- 15 # 2)) (parseFloat (result_ygpa_percent (summary pg')))
         = true
      /\ le (parseFloat (result_ygpa_percent (summary pg'))) (Fin (185 # 2))
         = true
      /\ performance_bar_width (summary pg')
         = toString (parseFloat (result_ygpa_percent (summary pg'))) ++ "%".
Proof.
  intros pg Vo Ve. destruct (updateResultsPage_shows pg) as [pg' [E _]].
  exists pg'. split; [exact E|].
  apply (results_yearly_valid pg pg' Vo Ve E).
Qed.

Lemma results_of_valid_texts_stay_in_range_witness :
  exists pg' : page,
    updateResultsPage (page_with "" "9.5" "9.9") = Normal pg'
    /\ StringToNumber (result_ygpa (summary pg'))
       = to_hundredths (val (yearly_grade_point (page_with "" "9.5" "9.9")))
    /\ le (lit 0) (StringToNumber (result_ygpa (summary pg'))) = true
    /\ le (StringToNumber (result_ygpa (summary pg'))) (lit (10 # 1)) = true
    /\ parseFloat (result_ygpa_percent (summary pg'))
       = to_hundredths
           (val (sgpaToPercentage (StringToNumber (result_ygpa (summary pg')))))
    /\ le (Fin (- 15 # 2)) (parseFloat (result_ygpa_percent (summary pg')))
       = true
    /\ le (parseFloat (result_ygpa_percent (summary pg'))) (Fin (185 # 2))
       = true
    /\ performance_bar_width (summary pg')
       = toString (parseFloat (result_ygpa_percent (summary pg'))) ++ "%".
Proof.
  apply (results_of_valid_texts_stay_in_range (page_with "" "9.5" "9.9"));
    vm_compute; reflexivity.
Defined.

(** X12. The semester line of the results page reads the text twice:
    the grade point with [parseFloat], the percentage with the
    conversion of the operator [-], which takes the whole text.  For a
    text that is not blank and no literal in base 16, 8 or 2 the
    percentage shown is [NaN], or it is the percentage of the grade
    point shown.  The text [7abc] stands there as 7.00 with the
    percentage NaN, and the valid text [0x10] as 0.00 with the
    percentage 152.50, where the semester flow shows -7.50. *)
Theorem results_semester_line_reads_the_text_twice :
  (forall pg : page,
     truthy (sgpaInput (fields pg)) = true ->
     exists pg' : page,
       updateResultsPage pg = Normal pg'
       /\ toFixed (parseFloat (sgpaInput (fields pg))) 2
          = Normal (result_sgpa (summary pg'))
       /\ toFixed (sgpaToPercentage (StringToNumber (sgpaInput (fields pg)))) 2
          = Normal (result_sgpa_percent (summary pg'))
       /\ (trim_start (sgpaInput (fields pg)) <> "" ->
           scan_non_decimal (trim_start (sgpaInput (fields pg))) = None ->
           result_sgpa_percent (summary pg') = "NaN"
           \/ toFixed (semester_percentage pg) 2
              = Normal (result_sgpa_percent (summary pg'))))
  /\ (exists pg' : page,
        updateResultsPage (page_with "7abc" "" "") = Normal pg'
        /\ result_sgpa (summary pg') = "7.00"
        /\ result_sgpa_percent (summary pg') = "NaN")
  /\ isValidGPA "0x10" = true
  /\ (exists pg' : page,
        updateResultsPage (page_with "0x10" "" "") = Normal pg'
        /\ result_sgpa (summary pg') = "0.00"
        /\ result_sgpa_percent (summary pg') = "152.50")
  /\ (exists pg' : page,
        updateSGPACalculation (page_with "0x10" "" "") = Normal pg'
        /\ sgpaPercentage (shown pg') = "-7.50%").
Proof.
  split.
  - intros pg T. destruct (updateResultsPage_shows pg) as [pg' [E [R _]]].
    rewrite T in R. destruct R as [R1 R2].
    exists pg'. split; [exact E|]. split; [exact R1|]. split; [exact R2|].
    intros Ne Nd.
    destruct (StringToNumber_or_parseFloat _ Ne Nd) as [N | N];
      rewrite N in R2.
    + left. change (toFixed (fmul (fsub NaN (lit (75 # 100))) (lit (10 # 1))) 2)
        with (Normal "NaN") in R2.
      apply Normal_inj in R2. symmetry. exact R2.
    + right. exact R2.
  - split; [|split; [|split]].
    + eexists. split; [vm_compute; reflexivity|]. split; reflexivity.
    + vm_compute. reflexivity.
    + eexists. split; [vm_compute; reflexivity|]. split; reflexivity.
    + eexists. split; [vm_compute; reflexivity|]. reflexivity.
Qed.

Lemma results_semester_line_reads_the_text_twice_witness :
  exists pg' : page,
    updateResultsPage (page_with "8.5" "" "") = Normal pg'
    /\ toFixed (parseFloat "8.5") 2 = Normal (result_sgpa (summary pg'))
    /\ toFixed (sgpaToPercentage (StringToNumber "8.5")) 2
       = Normal (result_sgpa_percent (summary pg'))
    /\ (trim_start "8.5" <> "" ->
        scan_non_decimal (trim_start "8.5") = None ->
        result_sgpa_percent (summary pg') = "NaN"
        \/ toFixed (semester_percentage (page_with "8.5" "" "")) 2
           = Normal (result_sgpa_percent (summary pg'))).
Proof.
  apply (proj1 results_semester_line_reads_the_text_twice
           (page_with "8.5" "" "")).
  reflexivity.
Defined.

(** X13. A text of white space only is not empty, so it is not taken for
    an absent value: it is not a valid grade point, the semester flow
    shows the placeholder with the error indicator, and the results
    page shows it as NaN with the percentage -7.50, the operators
    reading it as zero.  White space in front of a text does not change
    what the validator answers. *)
Theorem blank_text_is_invalid_not_absent :
  (forall s : string,
     all_ws s = true ->
     isValidGPA s = false /\ parseFloat s = NaN
     /\ StringToNumber s = Zero false)
  /\ (forall pg : page,
        truthy (sgpaInput (fields pg)) = true ->
        all_ws (sgpaInput (fields pg)) = true ->
        (exists pg' : page,
           updateSGPACalculation pg = Normal pg'
           /\ sgpaPercentage (shown pg') = "--%"
           /\ sgpaError (shown pg') = true)
        /\ (exists pg' : page,
              updateResultsPage pg = Normal pg'
              /\ result_sgpa (summary pg') = "NaN"
              /\ result_sgpa_percent (summary pg') = "-7.50"))
  /\ (forall (c : ascii) (s : string),
        ws1 c = true ->
        parseFloat (String c s) = parseFloat s
        /\ isValidGPA (String c s) = isValidGPA s).
Proof.
  assert (B : forall s : string,
             all_ws s = true ->
             isValidGPA s = false /\ parseFloat s = NaN
             /\ StringToNumber s = Zero false).
  { intros s W. destruct (blank_text s W) as [P S].
    split; [unfold isValidGPA; rewrite P; reflexivity | auto]. }
  split; [exact B|]. split.
  - intros pg T W. destruct (B _ W) as [V [P S]]. split.
    + destruct (updateSGPACalculation_shows pg) as [pg' [E R]].
      rewrite V in R. destruct R as [R1 [R2 _]].
      exists pg'. rewrite T in R2. auto.
    + destruct (updateResultsPage_shows pg) as [pg' [E [R _]]].
      rewrite T in R. destruct R as [R1 R2]. rewrite P in R1. rewrite S in R2.
      exists pg'. split; [exact E|].
      change (toFixed NaN 2) with (Normal "NaN") in R1.
      replace (toFixed (fmul (fsub (Zero false) (lit (75 # 100))) (lit (10 # 1))) 2)
        with (Normal "-7.50") in R2 by (vm_compute; reflexivity).
      apply Normal_inj in R1. apply Normal_inj in R2. auto.
  - intros c s W. pose proof (parseFloat_skips c s W) as P.
    split; [exact P|]. unfold isValidGPA. rewrite P. reflexivity.
Qed.

Lemma blank_text_is_invalid_not_absent_witness :
  (isValidGPA "  " = false /\ parseFloat "  " = NaN
   /\ StringToNumber "  " = Zero false)
  /\ ((exists pg' : page,
         updateSGPACalculation (page_with " " "" "") = Normal pg'
         /\ sgpaPercentage (shown pg') = "--%"
         /\ sgpaError (shown pg') = true)
      /\ (exists pg' : page,
            updateResultsPage (page_with " " "" "") = Normal pg'
            /\ result_sgpa (summary pg') = "NaN"
            /\ result_sgpa_percent (summary pg') = "-7.50"))
  /\ (parseFloat (String " " "7.5") = parseFloat "7.5"
      /\ isValidGPA (String " " "7.5") = isValidGPA "7.5").
Proof.
  destruct blank_text_is_invalid_not_absent as [B [F W]].
  split; [apply B; reflexivity|].
  split; [apply (F (page_with " " "" "")); reflexivity|].
  apply W. reflexivity.
Defined.

(** X14. The bands are ordered and the two functions of the results page
    agree on them: the performance line and the congratulations are
    those of the band of the percentage, a higher percentage is in no
    lower band, and the block of the congratulations is empty exactly
    when the performance line is the one that encourages. *)
Theorem higher_percentage_is_in_no_lower_band :
  (forall percentage : number,
     updatePerformanceText percentage = performance_line (band_of percentage)
     /\ congratulations_message percentage = celebration (band_of percentage))
  /\ (forall x y : number,
        le x y = true -> (rank (band_of x) <= rank (band_of y))%nat)
  /\ (forall (percentage : number) (block : string),
        showCongratulations percentage = Normal block ->
        (block = ""
         <-> updatePerformanceText percentage
             = ("💪 Keep pushing forward!", "#ff6b6b"))).
Proof.
  split; [intros p; split;
          [apply updatePerformanceText_band | apply congratulations_message_band]|].
  split; [exact band_of_mono|].
  intros p block H. rewrite (showCongratulations_empty p block H).
  rewrite updatePerformanceText_band.
  destruct (band_of p); split; intros E; try reflexivity; discriminate E.
Qed.

Lemma higher_percentage_is_in_no_lower_band_witness :
  (rank (band_of (lit (72 # 1))) <= rank (band_of (lit (85 # 1))))%nat
  /\ ("" = ""
      <-> updatePerformanceText (lit (55 # 1))
          = ("💪 Keep pushing forward!", "#ff6b6b")).
Proof.
  destruct higher_percentage_is_in_no_lower_band as [_ [M E]].
  split.
  - apply M. vm_compute. reflexivity.
  - apply E. vm_compute. reflexivity.
Defined.

(** X15. The spheres turn the other way below the grade point 0.25.
    When the semester flow computes from a valid text, the rotation speed
    that it stores is at most 0 for a grade point up to 0.25 and at
    least 0 for one from 0.25; at the grade point 0.25 it is the
    zero, and a frame then leaves the value of every finite angle as it
    was. *)
Theorem spheres_turn_back_below_a_quarter :
  forall pg : page,
    isValidGPA (sgpaInput (fields pg)) = true ->
    exists pg' : page,
      updateSGPACalculation pg = Normal pg'
      /\ (le (parseFloat (sgpaInput (fields pg))) (lit (1 # 4)) = true ->
          le (rotationSpeed (anim pg')) (lit 0) = true)
      /\ (le (lit (1 # 4)) (parseFloat (sgpaInput (fields pg))) = true ->
          le (lit 0) (rotationSpeed (anim pg')) = true)
      /\ (parseFloat (sgpaInput (fields pg)) = lit (1 # 4) ->
          rotationSpeed (anim pg') = Zero false
          /\ forall (cos sin : number -> number) (index : Z) (m : motion),
               finite (angle m) = true ->
               finite (angle (move cos sin (anim pg') index m)) = true
               /\ val (angle (move cos sin (anim pg') index m))
                  = val (angle m)).
Proof.
  intros pg V. destruct (updateSGPACalculation_shows pg) as [pg' [E R]].
  rewrite V in R. destruct R as [text [_ [_ [_ [R1 _]]]]].
  exists pg'. split; [exact E|]. rewrite R1.
  destruct (speed_turns (parseFloat (sgpaInput (fields pg)))) as [T1 T2].
  split; [exact T1|]. split; [exact T2|].
  intros Q.
  assert (Z : rotationSpeed (anim pg') = Zero false).
  { rewrite R1. unfold semester_percentage. rewrite Q. vm_compute. reflexivity. }
  rewrite <- R1. split; [exact Z|].
  intros cos sin index m F. apply (move_at_rest cos sin _ index m false Z F).
Qed.

Lemma spheres_turn_back_below_a_quarter_witness :
  exists pg' : page,
    updateSGPACalculation (page_with "0.25" "" "") = Normal pg'
    /\ (le (parseFloat "0.25") (lit (1 # 4)) = true ->
        le (rotationSpeed (anim pg')) (lit 0) = true)
    /\ (le (lit (1 # 4)) (parseFloat "0.25") = true ->
        le (lit 0) (rotationSpeed (anim pg')) = true)
    /\ (parseFloat "0.25" = lit (1 # 4) ->
        rotationSpeed (anim pg') = Zero false
        /\ forall (cos sin : number -> number) (index : Z) (m : motion),
             finite (angle m) = true ->
             finite (angle (move cos sin (anim pg') index m)) = true
             /\ val (angle (move cos sin (anim pg') index m)) = val (angle m)).
Proof.
  apply (spheres_turn_back_below_a_quarter (page_with "0.25" "" "")).
  vm_compute. reflexivity.
Defined.

(** ** Properties of the navigation *)

Module NavigationProperties.
Import Number JSString Calculator CalculatorFacts FlowFacts ListenerFacts.
Import Navigation NavigationFacts DocumentFacts MenuFacts ClickFacts.
Local Open Scope string_scope.

(** X16. [switchPage] marks the pages and the buttons.  It returns for
    every page name and every document, and keeps the elements, their
    [id]s, their [dataset] and all their classes but [active].  After
    it a button of the navigation is active exactly when its
    [data-page] is the page name; a page that is no button is active
    exactly when it is the first element with the [id] of the page
    name, so that at most one page is shown, and none when no element
    has that [id]; any other element is active when it was or when it
    is that first element.  The calculator is changed as the results
    page changes it, for the name [results] only. *)
Theorem switchPage_marks_pages_and_buttons :
  forall (pageName : option string) (s : site),
    exists s' : site,
      switchPage pageName s = Normal s'
      /\ has_nav s' = has_nav s
      /\ List.length (doc s') = List.length (doc s)
      /\ (forall (i : nat) (e : element),
            nth_error (doc s) i = Some e ->
            exists e' : element,
              nth_error (doc s') i = Some e'
              /\ id e' = id e /\ dataset_page e' = dataset_page e
              /\ (forall u : string,
                    String.eqb u "active" = false ->
                    contains e' u = contains e u)
              /\ contains e' "active"
                 = if contains e "nav-btn"
                   then strict_eq (dataset_page e) pageName
                   else if contains e "page"
                        then found (getElementById (doc s) (page_id pageName)) i
                        else found (getElementById (doc s) (page_id pageName)) i
                             || contains e "active")
      /\ (forall (i j : nat) (e1 e2 : element),
            nth_error (doc s') i = Some e1 -> nth_error (doc s') j = Some e2 ->
            contains e1 "page" = true -> contains e1 "nav-btn" = false ->
            contains e2 "page" = true -> contains e2 "nav-btn" = false ->
            contains e1 "active" = true -> contains e2 "active" = true ->
            i = j)
      /\ (getElementById (doc s) (page_id pageName) = None ->
          forall (i : nat) (e' : element),
            nth_error (doc s') i = Some e' ->
            contains e' "page" = true -> contains e' "nav-btn" = false ->
            contains e' "active" = false)
      /\ match pageName with
         | Some name => Calculator.switchPage name (calc s) = Normal (calc s')
         | None => calc s' = calc s
         end.
Proof.
  intros n s. destruct (switchPage_returns n s) as [s' [E [D [Hn C]]]].
  exists s'. split; [exact E|]. split; [exact Hn|].
  assert (Each : forall (i : nat) (e' : element),
             nth_error (doc s') i = Some e' ->
             exists e : element,
               nth_error (doc s) i = Some e
               /\ e' = switched n (found (getElementById (doc s) (page_id n)) i) e).
  { intros i e' N. rewrite D, nth_error_switch_doc in N.
    destruct (nth_error (doc s) i) as [e|]; [|discriminate N].
    cbn [option_map] in N. injection N as <-. exists e. auto. }
  assert (Page : forall (i : nat) (e' : element),
             nth_error (doc s') i = Some e' ->
             contains e' "page" = true -> contains e' "nav-btn" = false ->
             contains e' "active"
             = found (getElementById (doc s) (page_id n)) i).
  { intros i e' N P B. destruct (Each i e' N) as [e [_ ->]].
    rewrite switched_other in P, B by reflexivity.
    rewrite switched_active, B, P. reflexivity. }
  split.
  { rewrite <- (length_map id (doc s')), <- (length_map id (doc s)).
    rewrite D, map_id_switch_doc. reflexivity. }
  split.
  { intros i e N. exists (switched n (found (getElementById (doc s) (page_id n)) i) e).
    split; [rewrite D, nth_error_switch_doc, N; reflexivity|].
    destruct (switched_id n (found (getElementById (doc s) (page_id n)) i) e)
      as [I1 I2].
    split; [exact I1|]. split; [exact I2|].
    split; [intros u U; apply switched_other, U | apply switched_active]. }
  split.
  { intros i j e1 e2 N1 N2 P1 B1 P2 B2 A1 A2.
    rewrite (Page i e1 N1 P1 B1) in A1. rewrite (Page j e2 N2 P2 B2) in A2.
    destruct (getElementById (doc s) (page_id n)) as [k|]; cbn [found] in A1, A2;
      [|discriminate A1].
    apply Nat.eqb_eq in A1. apply Nat.eqb_eq in A2. congruence. }
  split; [|exact C].
  intros G i e' N P B. rewrite (Page i e' N P B), G. reflexivity.
Qed.

Lemma switchPage_marks_pages_and_buttons_witness :
  exists s' : site,
    switchPage (Some "ygpa") (site_with (page_with "" "" "")) = Normal s'
    /\ List.length (doc s') = 8%nat
    /\ (exists e' : element,
          nth_error (doc s') 2 = Some e' /\ contains e' "active" = false)
    /\ (exists e' : element,
          nth_error (doc s') 3 = Some e' /\ contains e' "active" = true)
    /\ (exists e' : element,
          nth_error (doc s') 5 = Some e' /\ contains e' "active" = false)
    /\ (exists e' : element,
          nth_error (doc s') 6 = Some e' /\ contains e' "active" = true).
Proof.
  destruct (switchPage_marks_pages_and_buttons (Some "ygpa")
              (site_with (page_with "" "" ""))) as [s' [E [_ [L [P _]]]]].
  exists s'. split; [exact E|]. split; [exact L|].
  split; [|split; [|split]].
  - destruct (P 2%nat _ eq_refl) as [e' [N [_ [_ [_ A]]]]].
    exists e'. split; [exact N | exact A].
  - destruct (P 3%nat _ eq_refl) as [e' [N [_ [_ [_ A]]]]].
    exists e'. split; [exact N | exact A].
  - destruct (P 5%nat _ eq_refl) as [e' [N [_ [_ [_ A]]]]].
    exists e'. split; [exact N | exact A].
  - destruct (P 6%nat _ eq_refl) as [e' [N [_ [_ [_ A]]]]].
    exists e'. split; [exact N | exact A].
Defined.

(** X17. A second [switchPage] with the same name changes nothing, and
    of two calls the second one decides: after [switchPage(a)] and
    [switchPage(b)] the document is as after [switchPage(b)] alone,
    provided the element that the first call looks up is a page or a
    button of the navigation. *)
Theorem switchPage_twice :
  (forall (pageName : option string) (s : site),
     exists s1 : site,
       switchPage pageName s = Normal s1 /\ switchPage pageName s1 = Normal s1)
  /\ (forall (a b : option string) (s : site),
        (forall (k : nat) (e : element),
           getElementById (doc s) (page_id a) = Some k ->
           nth_error (doc s) k = Some e ->
           contains e "page" || contains e "nav-btn" = true) ->
        exists s1 s12 s2 : site,
          switchPage a s = Normal s1 /\ switchPage b s1 = Normal s12
          /\ switchPage b s = Normal s2 /\ doc s12 = doc s2).
Proof.
  split.
  - intros n s. destruct (switchPage_returns n s) as [s1 [E1 [D1 [H1 C1]]]].
    exists s1. split; [exact E1|].
    destruct (switchPage_returns n s1) as [s2 [E2 [D2 [H2 C2]]]].
    rewrite E2. f_equal.
    assert (Dd : doc s2 = doc s1)
      by (rewrite D2, D1; apply switch_doc_again).
    assert (Cc : calc s2 = calc s1).
    { destruct n as [name|]; [|exact C2].
      unfold Calculator.switchPage in C1, C2.
      destruct (String.eqb name "results").
      - pose proof (updateResultsPage_again _ _ C1) as A.
        rewrite A in C2. apply Normal_inj in C2. symmetry. exact C2.
      - apply Normal_inj in C2. symmetry. exact C2. }
    destruct s1, s2. cbn in *. subst. rewrite Dd. reflexivity.
  - intros a b s H.
    destruct (switchPage_returns a s) as [s1 [E1 [D1 _]]].
    destruct (switchPage_returns b s1) as [s12 [E12 [D12 _]]].
    destruct (switchPage_returns b s) as [s2 [E2 [D2 _]]].
    exists s1, s12, s2. split; [exact E1|]. split; [exact E12|].
    split; [exact E2|]. rewrite D12, D1, D2. apply switch_doc_last, H.
Qed.

Lemma switchPage_twice_witness :
  exists s1 s12 s2 : site,
    switchPage (Some "ygpa") (site_with (page_with "" "8" "9")) = Normal s1
    /\ switchPage (Some "results") s1 = Normal s12
    /\ switchPage (Some "results") (site_with (page_with "" "8" "9")) = Normal s2
    /\ doc s12 = doc s2.
Proof.
  apply (proj2 switchPage_twice (Some "ygpa") (Some "results")
           (site_with (page_with "" "8" "9"))).
  intros k e G N. vm_compute in G. injection G as <-.
  vm_compute in N. injection N as <-. reflexivity.
Defined.

(** X18. The menu stays in step.  On a site with a hamburger, the links
    of the navigation and a [nav] element, the first two neither pages
    nor buttons, every sequence of the click listeners returns, and
    when the hamburger and the links were both open or both closed
    before, they are so after. *)
Theorem menu_stays_in_step :
  forall (cs : list click) (s : site) (a : bool),
    has_menu s -> menu s = Some (a, a) ->
    exists (s' : site) (a' : bool),
      fire_all cs s = Returns s' /\ has_menu s' /\ menu s' = Some (a', a').
Proof. exact fire_all_in_step. Qed.

Lemma menu_stays_in_step_witness :
  exists (s' : site) (a' : bool),
    fire_all [Hamburger; Document true; NavButton 7; Hamburger; Document false]
      (site_with (page_with "" "8" "9")) = Returns s'
    /\ has_menu s' /\ menu s' = Some (a', a').
Proof.
  apply (menu_stays_in_step _ (site_with (page_with "" "8" "9")) false).
  - split; [reflexivity|].
    exists 0%nat, 1%nat,
      {| id := "hamburger"; classList := ["hamburger"]; dataset_page := None |},
      {| id := "nav-links"; classList := ["nav-links"]; dataset_page := None |}.
    constructor; reflexivity.
  - reflexivity.
Defined.

(** X19. What each click listener does.  On such a site a click on the
    hamburger opens what is closed and closes what is open, of the
    hamburger and of the links; a click on the document outside of the
    navigation closes both, inside it changes nothing; a click on a
    button of the navigation switches the page and closes both when the
    hamburger is open: the calculator and every element but the
    hamburger and the links are as [switchPage] with the [data-page] of
    the button leaves them, and the button is active.  Every other run
    of a listener leaves the calculator and every element but the
    hamburger and the links as they are.  Without the links a click on
    the hamburger stops at a TypeError, without a [nav] element every
    click on the document does, and without a hamburger neither listener
    is there. *)
Theorem listeners_open_and_close_the_menu :
  (forall (c : click) (s : site) (m : bool * bool),
     has_menu s -> menu s = Some m ->
     exists s' : site,
       fire c s = Returns s' /\ has_menu s'
       /\ menu s' = Some (after c (is_button c s) m))
  /\ (forall (k : nat) (btn : element) (s : site),
        has_menu s ->
        nth_error (doc s) k = Some btn -> contains btn "nav-btn" = true ->
        exists s1 s' : site,
          switchPage (dataset_page btn) s = Normal s1
          /\ fire (NavButton k) s = Returns s'
          /\ calc s' = calc s1
          /\ (forall i : nat,
                getElementById (doc s) "hamburger" <> Some i ->
                getElementById (doc s) "nav-links" <> Some i ->
                nth_error (doc s') i = nth_error (doc s1) i)
          /\ exists btn' : element,
               nth_error (doc s') k = Some btn'
               /\ contains btn' "active" = true)
  /\ (forall (c : click) (s : site),
        has_menu s -> is_button c s = false ->
        exists s' : site,
          fire c s = Returns s'
          /\ calc s' = calc s
          /\ forall i : nat,
               getElementById (doc s) "hamburger" <> Some i ->
               getElementById (doc s) "nav-links" <> Some i ->
               nth_error (doc s') i = nth_error (doc s) i)
  /\ (forall (s : site) (hamburger : nat),
        getElementById (doc s) "hamburger" = Some hamburger ->
        getElementById (doc s) "nav-links" = None ->
        fire Hamburger s = TypeError)
  /\ (forall (s : site) (hamburger : nat) (inside : bool),
        getElementById (doc s) "hamburger" = Some hamburger ->
        has_nav s = false ->
        fire (Document inside) s = TypeError)
  /\ (forall (s : site) (inside : bool),
        getElementById (doc s) "hamburger" = None ->
        fire Hamburger s = Returns s /\ fire (Document inside) s = Returns s).
Proof.
  split; [exact fire_menu|].
  split; [exact nav_button_switches|].
  split; [exact menu_click_frame|].
  split; [|split].
  - intros s hb G N. cbn [fire]. rewrite G. unfold hamburger_click.
    rewrite N. reflexivity.
  - intros s hb inside G N. cbn [fire]. rewrite G. unfold document_click.
    rewrite N. reflexivity.
  - intros s inside G. cbn [fire]. rewrite G. split; reflexivity.
Qed.

Lemma listeners_open_and_close_the_menu_witness :
  (exists s' : site,
     fire Hamburger (site_with (page_with "" "" "")) = Returns s'
     /\ has_menu s'
     /\ menu s'
        = Some (after Hamburger
                  (is_button Hamburger (site_with (page_with "" "" "")))
                  (false, false)))
  /\ (exists s1 s' : site,
        switchPage (Some "results") (site_with (page_with "" "8" "9"))
        = Normal s1
        /\ fire (NavButton 7) (site_with (page_with "" "8" "9")) = Returns s'
        /\ calc s' = calc s1
        /\ (forall i : nat,
              getElementById (doc (site_with (page_with "" "8" "9"))) "hamburger"
              <> Some i ->
              getElementById (doc (site_with (page_with "" "8" "9"))) "nav-links"
              <> Some i ->
              nth_error (doc s') i = nth_error (doc s1) i)
        /\ exists btn' : element,
             nth_error (doc s') 7 = Some btn' /\ contains btn' "active" = true)
  /\ (exists s' : site,
        fire (Document false) (site_with (page_with "" "8" "9")) = Returns s'
        /\ calc s' = calc (site_with (page_with "" "8" "9"))
        /\ forall i : nat,
             getElementById (doc (site_with (page_with "" "8" "9"))) "hamburger"
             <> Some i ->
             getElementById (doc (site_with (page_with "" "8" "9"))) "nav-links"
             <> Some i ->
             nth_error (doc s') i
             = nth_error (doc (site_with (page_with "" "8" "9"))) i)
  /\ fire Hamburger
       {| doc := [ {| id := "hamburger"; classList := [];
                      dataset_page := None |} ];
          has_nav := true;
          calc := page_with "" "" "" |} = TypeError.
Proof.
  destruct listeners_open_and_close_the_menu as [F [B [R [T _]]]].
  assert (M : forall p : page, has_menu (site_with p)).
  { intros p. split; [reflexivity|].
    exists 0%nat, 1%nat,
      {| id := "hamburger"; classList := ["hamburger"]; dataset_page := None |},
      {| id := "nav-links"; classList := ["nav-links"]; dataset_page := None |}.
    constructor; reflexivity. }
  split; [|split; [|split]].
  - apply F; [apply M | reflexivity].
  - apply (B 7%nat {| id := ""; classList := ["nav-btn"];
                      dataset_page := Some "results" |});
      [apply M | reflexivity | reflexivity].
  - apply R; [apply M | reflexivity].
  - apply (T _ 0%nat); reflexivity.
Defined.

End NavigationProperties.
